(* ===== verification/_CoqProject ===== *)
-Q . S2P
Prelude.v
Memory.v
Elf.v
Library.v
Hash.v
Reloc.v
FindSymbol.v
Dynamic.v
Segments.v
Paths.v
Chain.v
Records.v
Open.v
Lazy.v
Image.v
Examples.v
