(* ===== verification/Prelude.v ===== *)
(** * A verification development of dl-rebuild, a userspace ELF64 dynamic linker

    The program (src/) maps an x86-64 ELF shared object and its transitive
    dependencies at a caller-chosen address, relocates it and resolves symbol
    names without the platform's [ld.so].  Its parts and how they interact:

    - [openLibrary] (src/openLibrary.c) is the entry point: it calls
      [mapLibrary] and then [relocLibrary] on the returned root record.
    - [mapLibrary] (src/mapLibrary.c) opens the root file with [openFile],
      allocates the root [Library] record and walks the chain
      [openedHead -> next -> ...], calling [mapWorker] on each record and
      bumping the load address by the length it returns.  [mapWorker] reads
      the ELF header and program headers ([fread]), maps the segments
      ([mapSegment]), indexes and rebases the dynamic section ([fill_info]),
      reads the GNU hash header ([setup_hash]), and scans the [DT_NEEDED]
      entries, appending newly found dependencies to the chain
      ([isLibraryOpen], [openDep], [doFakeLoad]) and filling the record's
      [search_list].
    - [relocLibrary] (src/relocLibrary.c) applies [relocRela] and
      [relocPLT] to one record; both resolve names through the record's
      search list with [symbolLookup], which hashes the name
      ([dl_new_hash]) and walks the GNU hash table, or forwards to the host
      [dlopen]/[dlsym] for "fake" (delegated) libraries.
    - [runtimeResolve] (src/runtimeResolve.c) binds one PLT slot lazily.
    - [findSymbol] (src/findSymbol.c) scans the root's symbol table
      linearly.

    How the development models them (one file per component, in the
    order of [_CoqProject]):

    - [Prelude] (this file): 64- and 32-bit wrap-around ([wrap64],
      [wrap32]), [ALIGN_DOWN]/[ALIGN_UP] of src/mapLibrary.c, the outcomes
      of the program (a fatal [exit(-1)] as [Exit], undefined behaviour such
      as a read of unmapped memory or past an array as [Undef], and
      [OutOfFuel] for a bounded loop that did not finish), the result monad
      [res] with its notation [x <- c ;; k] in [dl_scope], the counted loop
      [loop_n] of the relocation tables, the hint database [dl] and the
      generic lemmas the components share.
    - [Memory]: the address space as a [gmap Z Z] from addresses to bytes;
      little-endian loads and stores that fault on an unmapped address;
      [strdup] and [strcmp] on C strings in memory; the generic pointer walk
      [walk] ([while (p->tag != END) p += stride]) with its invariant and
      termination lemmas.
    - [Elf]: the constants of <elf.h> and src/library.h, field accessors of
      [Elf64_Sym], [Elf64_Rela] and [Elf64_Dyn] in memory, the program
      header as a Record decoded from the [fread] buffer, and encoders used
      to build test images.
    - [Library]: [struct libraryInternal] as a Record with one setter per
      field the code writes, the loader's state [State] (memory, the chain
      [openedHead -> next -> ...] as a list, the [mmap] calls issued), and
      the host loader as the class [Host] ([dlopen], [dlsym], IFUNC
      resolvers).
    - [Hash]: [dl_new_hash], [setup_hash] and [symbolLookup] (Bloom filter,
      bucket, chain walk; the fake path through [Host]).
    - [Reloc]: the search-list walk written once against any lookup
      (Section [SearchWalk]), one relocation entry of each kind, the two
      loops of [relocRela] ([reloc_relatives] over the [DT_RELACOUNT]
      relative entries, [reloc_globs] over the symbol-bound ones),
      [relocPLT] and [relocLibrary].
    - [FindSymbol]: [findSymbol] and the decoded symbol table it refines.
    - [Dynamic]: [fill_info], its scan to [DT_NULL] and its in-place rebase.
    - [Segments]: [mapSegment]: the [PT_LOAD] commands, the whole-image and
      per-segment [mmap] calls and the [.bss].  A [MAP_FIXED] call's effect
      is the kernel's: a call with an unaligned address or offset fails
      ([mmap_valid]) and changes nothing; a page wholly past the end of the
      file raises [SIGBUS], so it holds no byte; a page keeps the
      protection of the last call that mapped it, and the [.bss] [memset]
      faults on a page without [PROT_WRITE].
    - [Paths]: [openFile], [openDep], [doFakeLoad] with their fixed tables
      and 128-byte buffers; [fopen] is the class [FileSystem].
    - [Chain]: [mapWorker], [mapLibrary]'s loop as a function with fuel and
      as the step relation [chain_step], the invariant of the chain it
      builds, the last [DT_NEEDED] entry left in slot 1, the mapping call
      issued for every record, and the symbol-bound relocation against the
      lists it builds.
    - [Records]: what [mapLibrary] does to one field of every record,
      stated once for any projection of a record (Section [Projection]:
      a field that [set_slot], [fill_info], [setup_hash] and the dynamic
      setters leave alone is the same after the whole chain), and applied
      to the delegation flag: every dependency is a fake record named on
      the allow-list [fake_so], the root never is.
    - [Open]: [openLibrary] and the [mode] constants of src/dl-rebuild.h.
    - [Lazy]: [runtimeResolve], what it patches and what it does with a name
      no library of a chain [openLibrary] built defines.
    - [Image]: small ELF images built byte by byte, a file system holding
      them and a host.  [Examples]: the loader run on them by [vm_compute]
      (runs that show the findings on concrete inputs), and one witness per
      theorem with hypotheses.

    What the theorems show, by group: the search list [mapWorker] builds
    (its slot 1 is overwritten by each dependency and ends holding the last
    [DT_NEEDED] record, no slot is [NULL]) and what relocation and lazy
    binding do with it (an unresolved symbol is undefined behaviour, the
    [exit(-1)] of [runtimeResolve] is unreachable); the path resolver (tables read past
    their end, [tmp[128]] overflow, the [RUNPATH] order); the layout of the
    chain (root at the base, records packed by page-rounded file spans,
    page alignment kept, every record mapped, delegated ones included); the
    segment mapper (file bytes and a zero [.bss] at their addresses, a fault
    for a read-only segment with a [.bss], no file byte in memory at an
    unaligned base, failures never fatal, page-multiple sizes); the
    dynamic indexer (last entry wins, one rebase per call, two for two
    calls); the hash ([dl_new_hash] is the GNU hash, the chain walk refines
    a decoded chain, a non-[NULL] answer is a symbol of that name, the
    Bloom filter tests the two bits the GNU hash section defines); the relocations (the relative loop writes
    [base + addend] at every target of a table whose targets are disjoint
    from it and from each other; a symbol no library defines is undefined
    behaviour), [runtimeResolve] (it patches the entry it is asked for)
    and [findSymbol] (the first entry of that name, undefined ones and fake
    records included); the records (only allow-listed dependencies are
    delegated); termination of every scan.

    Bounds and fuel.  Every [while] loop over memory ([walk], the hash
    chain, [strdup]) runs with fuel [S (size m)]: each iteration reads a
    distinct mapped address, so a run that has not stopped after [size m]
    iterations has faulted; the termination theorems prove that this fuel
    never runs out.  The relocation tables and [findSymbol] iterate
    [iterations lo hi stride] times, the C loop's count.  [mapLibrary]'s
    loop takes a fuel bounding the number of records of the chain, the one
    loop whose length the memory does not bound (the file system can supply
    new names); the runs use 10.

    Not modelled: the text of the diagnostics ([fprintf]) and [exit] beyond
    its being fatal; the host loader, IFUNC resolvers and the file system,
    which are classes the theorems quantify over; of the kernel, all but
    the [mmap] semantics above: page protections are checked only for the
    [.bss] [memset] inside [mapSegment], not for the later writes of
    [fill_info] and the relocations (a library whose dynamic section or
    relocation targets lie in a read-only segment faults in the program
    and not in the model), and a read of a [PROT_NONE] page is not a
    fault; [calloc]/[malloc] failures; the assembly trampoline that
    calls [runtimeResolve] (it is not in src/, and nothing installs it). *)

From Stdlib Require Import ZArith Lia.
From stdpp Require Import base list.
From Stdlib Require Import RelationClasses.

Declare Scope dl_scope.
Delimit Scope dl_scope with dl.
Open Scope Z_scope.

(** ** Machine integers *)

(** Unsigned C arithmetic on [uint64_t] and [uint32_t] wraps around. *)
Definition wrap64 (z : Z) : Z := z mod 2 ^ 64.
Definition wrap32 (z : Z) : Z := z mod 2 ^ 32.

Definition is_u64 (z : Z) : Prop := 0 <= z < 2 ^ 64.
Definition is_u32 (z : Z) : Prop := 0 <= z < 2 ^ 32.

(** [#define ALIGN_DOWN(base, size) ((base) & -((__typeof__(base))(size)))]
    and [#define ALIGN_UP(base, size) ALIGN_DOWN((base) + (size)-1, (size))]
    (src/mapLibrary.c, lines 11-12), at the type [uint64_t] of every use. *)
Definition ALIGN_DOWN (base size : Z) : Z := Z.land base (wrap64 (- size)).
Definition ALIGN_UP (base size : Z) : Z := ALIGN_DOWN (wrap64 (base + size - 1)) size.

(** [getpagesize()] on x86-64 Linux. *)
Definition pagesize : Z := 4096.

(** ** Outcomes *)

(** The fatal errors of the program: each one prints a diagnostic and calls
    [exit(-1)]. *)
Inductive fatal :=
| FileNotFound          (** [mapLibrary]: root file not found *)
| EhdrReadFailure       (** [mapWorker]: [fread] of the ELF header failed *)
| PhdrReadFailure       (** [mapWorker]: [fread] of the program headers failed *)
| DepOpenFailure        (** [mapWorker]: [openDep] returned [NULL] *)
| FakeOpenFailure       (** [symbolLookup]: host [dlopen] failed *)
| PltUnresolved.        (** [runtimeResolve]: no library defines the symbol *)

(** Undefined behaviour of the C program: the model stops there. *)
Inductive ub :=
| Segv (addr : Z)       (** load or store at an unmapped address *)
| NullDeref             (** dereference of an absent [dyn_info] slot *)
| ArrayOverrun          (** read past the end of a C array *)
| UninitRead            (** read of a [malloc]ed slot never written *)
| BufferOverflow        (** [strcat] past the end of a stack buffer *)
| DivByZero             (** [%] by a zero divisor *)
| ShiftTooWide          (** shift of a 64-bit value by 64 or more *)
| NoLoadSegment.        (** [loadcmds[nloadcmd - 1]] with [nloadcmd = 0] *)
Inductive err :=
| Exit (f : fatal)
| Undef (u : ub)
| OutOfFuel.            (** only for loops modelled with fuel *)
Inductive res (A : Type) : Type :=
| Ok (a : A)
| Err (e : err).
Arguments Ok {A} a.
Arguments Err {A} e.

Definition bind {A B} (r : res A) (f : A -> res B) : res B :=
  match r with
  | Ok a => f a
  | Err e => Err e
  end.

Notation "x <- c ;; k" := (bind c (fun x => k))
  (at level 100, c at level 99, right associativity) : dl_scope.
Notation "'assert!' b 'else' e ;; k" := (if b then k else Err e)
  (at level 100, b at level 99, e at level 99, right associativity) : dl_scope.

Open Scope dl_scope.

Definition of_option {A} (e : err) (o : option A) : res A :=
  match o with
  | Some a => Ok a
  | None => Err e
  end.

(** A C loop [for (i = 0; i < n; i++) body] threading a state. *)
Fixpoint loop_n {S} (n : nat) (body : nat -> S -> res S) (i : nat) (s : S) : res S :=
  match n with
  | O => Ok s
  | S n' => s' <- body i s ;; loop_n n' body (Datatypes.S i) s'
  end.

(** The number of iterations of [for (p = lo; p < hi; p += stride)]. *)
Definition iterations (lo hi stride : Z) : nat :=
  if lo <? hi then Z.to_nat ((hi - lo + stride - 1) / stride) else 0%nat.

(** ** Automation *)

Create HintDb dl.
Create Rewrite HintDb dl_rw.

Lemma bind_ok {A B} (a : A) (f : A -> res B) : bind (Ok a) f = f a.
Proof. reflexivity. Qed.

Lemma bind_err {A B} (e : err) (f : A -> res B) : bind (Err e) f = Err e.
Proof. reflexivity. Qed.

#[export] Hint Rewrite @bind_ok @bind_err : dl_rw.

Lemma bind_eq_ok {A B} (r : res A) (f : A -> res B) (b : B) :
  bind r f = Ok b -> exists a, r = Ok a /\ f a = Ok b.
Proof. destruct r; simpl; [eauto | discriminate]. Qed.

Lemma bind_eq_err {A B} (r : res A) (f : A -> res B) (e : err) :
  bind r f = Err e -> r = Err e \/ exists a, r = Ok a /\ f a = Err e.
Proof. destruct r; simpl; [right; eauto | left; congruence]. Qed.

Lemma of_option_ok {A} (e : err) (o : option A) (a : A) : of_option e o = Ok a -> o = Some a.
Proof. destruct o; simpl; congruence. Qed.

(** Split every [bind _ _ = Ok _] hypothesis into its two steps. *)
Ltac inv_bind :=
  repeat match goal with
  | H : bind ?r _ = Ok _ |- _ =>
      let a := fresh "a" in let Ha := fresh "Ha" in
      apply bind_eq_ok in H as (a & Ha & H)
  | H : Ok _ = Ok _ |- _ => injection H as H
  | H : Err _ = Ok _ |- _ => discriminate H
  end.

Lemma loop_n_S {S} n (body : nat -> S -> res S) i s :
  loop_n (Datatypes.S n) body i s = (s' <- body i s ;; loop_n n body (Datatypes.S i) s').
Proof. reflexivity. Qed.

(** A property preserved by every iteration holds after the loop. *)
Lemma loop_n_invariant {S} (P : S -> Prop) n (body : nat -> S -> res S) i s s' :
  (forall j t t', P t -> body j t = Ok t' -> P t') ->
  P s -> loop_n n body i s = Ok s' -> P s'.
Proof.
  intros Hb. revert i s. induction n as [|n IH]; intros i s Hs Hl; simpl in Hl.
  - by injection Hl as <-.
  - inv_bind. eauto.
Qed.

(** ** Machine-integer lemmas *)

Lemma wrap64_range z : is_u64 (wrap64 z).
Proof. unfold is_u64, wrap64. apply Z.mod_pos_bound. lia. Qed.

Lemma wrap64_small z : is_u64 z -> wrap64 z = z.
Proof. unfold is_u64, wrap64. intros. by apply Z.mod_small. Qed.

Lemma wrap64_add_l a b : wrap64 (wrap64 a + b) = wrap64 (a + b).
Proof. unfold wrap64. apply Zplus_mod_idemp_l. Qed.

Lemma wrap64_add_r a b : wrap64 (a + wrap64 b) = wrap64 (a + b).
Proof. unfold wrap64. apply Zplus_mod_idemp_r. Qed.

Lemma wrap64_idem z : wrap64 (wrap64 z) = wrap64 z.
Proof. apply wrap64_small, wrap64_range. Qed.

Lemma wrap32_range z : is_u32 (wrap32 z).
Proof. unfold is_u32, wrap32. apply Z.mod_pos_bound. lia. Qed.

#[export] Hint Resolve wrap64_range wrap32_range : dl.
#[export] Hint Rewrite wrap64_add_l wrap64_add_r wrap64_idem : dl_rw.

(** For a power-of-two [size], [ALIGN_DOWN] clears the low bits: it rounds
    down to a multiple of [size]. *)
Lemma ALIGN_DOWN_spec base k :
  (0 <= k <= 64)%Z -> is_u64 base ->
  ALIGN_DOWN base (2 ^ k) = base - base mod 2 ^ k.
Proof.
  intros Hk Hb. unfold ALIGN_DOWN, wrap64. unfold is_u64 in Hb.
  assert (E : (- 2 ^ k) mod 2 ^ 64 = Z.lxor (Z.ones 64) (Z.ones k)).
  { apply Z.bits_inj'. intros n Hn.
    rewrite Z.lxor_spec, !Z.testbit_ones_nonneg by lia.
    rewrite <- Z.land_ones by lia. rewrite Z.land_spec, Z.testbit_ones_nonneg by lia.
    replace (- 2 ^ k) with (Z.lnot (Z.ones k)).
    2:{ unfold Z.lnot. rewrite Z.ones_equiv. lia. }
    rewrite Z.lnot_spec, Z.testbit_ones_nonneg by lia.
    destruct (Z.ltb_spec n 64), (Z.ltb_spec n k); simpl; lia. }
  rewrite E.
  assert (Hl : Z.land base (Z.lxor (Z.ones 64) (Z.ones k)) = Z.ldiff base (Z.ones k)).
  { apply Z.bits_inj'. intros n Hn.
    rewrite Z.land_spec, Z.lxor_spec, Z.ldiff_spec, !Z.testbit_ones_nonneg by lia.
    destruct (Z.ltb_spec n 64) as [H64|H64].
    - destruct (Z.ltb_spec n k), (Z.testbit base n); simpl; reflexivity.
    - assert (Z.testbit base n = false) as ->; [|reflexivity].
      apply Z.bits_above_log2; [lia|].
      destruct (Z.eq_dec base 0) as [->|Hz]; [simpl; lia|].
      apply Z.log2_lt_pow2; [lia|].
      apply (Z.lt_le_trans _ (2 ^ 64)); [lia | apply Z.pow_le_mono_r; lia]. }
  rewrite Hl, Z.ldiff_ones_r by lia.
  rewrite Z.shiftl_mul_pow2, Z.shiftr_div_pow2 by lia.
  rewrite (Z.mod_eq base (2 ^ k)) by (apply Z.pow_nonzero; lia). lia.
Qed.

(** A preorder every iteration respects relates the state before and after
    the loop. *)
(** An invariant indexed by the iteration: what holds before iteration
    [j] holds before [j + 1]. *)
Lemma loop_n_ind {S} (P : nat -> S -> Prop) n (body : nat -> S -> res S) i s s' :
  (forall j t t', (i <= j < i + n)%nat -> P j t -> body j t = Ok t' -> P (Datatypes.S j) t') ->
  P i s -> loop_n n body i s = Ok s' -> P (i + n)%nat s'.
Proof.
  revert i s. induction n as [|n IH]; intros i s Hb Hs Hl; simpl in Hl.
  - injection Hl as <-. by rewrite Nat.add_0_r.
  - inv_bind. rewrite Nat.add_succ_r, <- Nat.add_succ_l.
    apply (IH (Datatypes.S i) a); [intros j t t' Hj; apply Hb; lia | apply (Hb i s); [lia|done..] | done].
Qed.

(** A table of [n] entries of [stride] bytes is walked [n] times. *)
Lemma iterations_exact lo n stride : 0 < stride -> iterations lo (lo + stride * Z.of_nat n) stride = n.
Proof.
  intros Hs. unfold iterations. destruct n as [|n].
  - rewrite Z.mul_0_r, Z.add_0_r, Z.ltb_irrefl. done.
  - rewrite (proj2 (Z.ltb_lt _ _)) by lia.
    replace (lo + stride * Z.of_nat (Datatypes.S n) - lo + stride - 1)
      with ((stride - 1) + Z.of_nat (Datatypes.S n) * stride) by lia.
    rewrite Z.div_add, Z.div_small by lia. lia.
Qed.

Lemma loop_n_preorder {S} (R : S -> S -> Prop) `{!PreOrder R} n (body : nat -> S -> res S) i s s' :
  (forall j t t', body j t = Ok t' -> R t t') ->
  loop_n n body i s = Ok s' -> R s s'.
Proof.
  intros Hb. revert i s. induction n as [|n IH]; intros i s Hl; simpl in Hl.
  - injection Hl as <-. reflexivity.
  - inv_bind. etransitivity; [eapply Hb; eauto | eapply IH; eauto].
Qed.

(** [nth] after a list update (stdpp's [<[i:=x]>] does nothing out of range). *)
Lemma nth_insert {A} (l : list A) i j x d :
  nth j (<[i:=x]> l) d = if decide (i = j /\ (i < length l)%nat) then x else nth j l d.
Proof. rewrite !nth_lookup, list_lookup_insert. by case_decide. Qed.
