(* ===== verification/Memory.v ===== *)
(** * The process address space

    The loader reads and writes the memory of its own process through raw
    pointers: the mapped dynamic section, symbol and string tables, the GNU
    hash table, and the words patched by relocations.  This file models that
    memory as a finite map from addresses to bytes, with the little-endian
    loads and stores of the x86-64 C code (an access to an unmapped byte is a
    fault, [Undef (Segv a)]), and the C-string operations the loader applies
    to memory ([strdup], [strcmp]). *)

From Stdlib Require Import ZArith Lia.
From stdpp Require Import base list gmap sets.
From S2P Require Import Prelude.

Open Scope Z_scope.
Open Scope dl_scope.

(** The address space: a byte for every mapped address. *)
Abbreviation mem := (gmap Z Z).

(** Every stored value is a byte. *)
Definition mem_wf (m : mem) : Prop := forall a b, m !! a = Some b -> 0 <= b < 256.

(** ** Loads and stores *)
Definition load_byte (m : mem) (a : Z) : res Z := of_option (Undef (Segv a)) (m !! a).

(** [n] bytes at [a], least significant first. *)
Fixpoint load_le (m : mem) (a : Z) (n : nat) : res Z :=
  match n with
  | O => Ok 0
  | S n' => b <- load_byte m a ;; rest <- load_le m (a + 1) n' ;; Ok (b + 256 * rest)
  end.

Definition load_u8 m a := load_le m a 1.

Definition load_u16 m a := load_le m a 2.

Definition load_u32 m a := load_le m a 4.

Definition load_u64 m a := load_le m a 8.

(** A store to a mapped byte; storing to an unmapped address faults. *)
Definition store_byte (m : mem) (a b : Z) : res mem :=
  match m !! a with
  | Some _ => Ok (<[a := b mod 256]> m)
  | None => Err (Undef (Segv a))
  end.

Fixpoint store_le (m : mem) (a : Z) (n : nat) (v : Z) : res mem :=
  match n with
  | O => Ok m
  | S n' => m' <- store_byte m a v ;; store_le m' (a + 1) n' (v / 256)
  end.

(** [*(Elf64_Addr * )dest = v]. *)
Definition store_u64 m a v := store_le m a 8 v.

(** The bytes [l] placed at [a], mapping them if needed ([mmap], [memset]). *)
Fixpoint write_bytes (m : mem) (a : Z) (l : list Z) : mem :=
  match l with
  | [] => m
  | b :: l' => write_bytes (<[a := b]> m) (a + 1) l'
  end.

(** The [n] bytes from [a] made inaccessible: a later access faults. *)
Fixpoint unmap_bytes (m : mem) (a : Z) (n : nat) : mem :=
  match n with
  | O => m
  | S n' => unmap_bytes (delete a m) (a + 1) n'
  end.

(** ** C strings in memory *)
(** Read a NUL-terminated string at [a], at most [fuel] bytes long. *)
Fixpoint read_cstr_fuel (fuel : nat) (m : mem) (a : Z) : res (list Z) :=
  match fuel with
  | O => Err OutOfFuel
  | S f => b <- load_byte m a ;;
           if b =? 0 then Ok [] else s <- read_cstr_fuel f m (a + 1) ;; Ok (b :: s)
  end.

(** [strdup(a)]: a string in memory is never longer than the memory. *)
Definition strdup (m : mem) (a : Z) : res (list Z) := read_cstr_fuel (S (size m)) m a.

(** [strcmp(s, a) == 0] for a string [s] the program holds (its bytes are
    [s], without the terminator) and a string at address [a]: the C loop
    stops at the first difference and reads no further. *)
Fixpoint strcmp_eq (m : mem) (s : list Z) (a : Z) : res bool :=
  match s with
  | [] => b <- load_byte m a ;; Ok (b =? 0)
  | c :: s' => b <- load_byte m a ;; if b =? c then strcmp_eq m s' (a + 1) else Ok false
  end.

(** A C string the program holds: bytes, none of them NUL. *)
Definition cstring (s : list Z) : Prop := Forall (fun c => 0 < c < 256) s.

(** ** Loops that step through memory *)
(** [for (p = start; ; p += stride) { ... }] where each iteration reads at
    [p] and either goes on with a new state ([inl]) or stops with a result
    ([inr]). *)
Fixpoint walk {S R : Type} (step : Z -> S -> res (S + R)) (fuel : nat) (stride p : Z) (s : S) : res R :=
  match fuel with
  | O => Err OutOfFuel
  | Datatypes.S f =>
      r <- step p s ;;
      match r with
      | inl s' => walk step f stride (p + stride) s'
      | inr x => Ok x
      end
  end.

(** ** Lemmas on loads and stores *)
Create HintDb mem.

Lemma load_byte_ok m a b : m !! a = Some b -> load_byte m a = Ok b.
Proof. unfold load_byte. by intros ->. Qed.

Lemma load_byte_none m a : m !! a = None -> load_byte m a = Err (Undef (Segv a)).
Proof. unfold load_byte. by intros ->. Qed.

#[export] Hint Resolve load_byte_ok : mem.

Lemma load_byte_inv m a b : load_byte m a = Ok b -> m !! a = Some b.
Proof. unfold load_byte. destruct (m !! a); simpl; congruence. Qed.

Lemma load_le_range m a n v :
  mem_wf m -> load_le m a n = Ok v -> 0 <= v < 2 ^ (8 * Z.of_nat n).
Proof.
  intros Hwf. revert a v. induction n as [|n IH]; intros a v Hl; simpl in Hl; inv_bind.
  - subst. simpl. lia.
  - apply load_byte_inv, Hwf in Ha. apply IH in Ha0. subst.
    rewrite Nat2Z.inj_succ, Z.mul_succ_r, Z.pow_add_r by lia. simpl (2 ^ 8). lia.
Qed.

Lemma load_le_first_mapped m a n v : load_le m a (S n) = Ok v -> is_Some (m !! a).
Proof.
  simpl. unfold load_byte. destruct (m !! a); simpl; [eauto | discriminate].
Qed.

(** Loads fail only by faulting. *)
Lemma load_le_err m a n e : load_le m a n = Err e -> exists x, e = Undef (Segv x).
Proof.
  revert a. induction n as [|n IH]; intros a; simpl; [discriminate|].
  unfold load_byte. destruct (m !! a); simpl; [|intros [= <-]; eauto].
  destruct (load_le m (a + 1) n) eqn:E; simpl; [discriminate|]. intros [= <-]. eauto.
Qed.

(** A load succeeds exactly on a mapped range. *)
Lemma load_le_mapped m a n :
  (forall i, 0 <= i < Z.of_nat n -> is_Some (m !! (a + i))) ->
  exists v, load_le m a n = Ok v.
Proof.
  revert a. induction n as [|n IH]; intros a Hm; simpl; [eauto|].
  destruct (Hm 0) as [b Hb]; [lia|]. rewrite Z.add_0_r in Hb. rewrite (load_byte_ok _ _ _ Hb). simpl.
  destruct (IH (a + 1)) as [v ->]; [|simpl; eauto].
  intros i Hi. replace (a + 1 + i) with (a + (1 + i)) by lia. apply Hm. lia.
Qed.

Lemma store_byte_lookup m a b m' x :
  store_byte m a b = Ok m' -> m' !! x = if decide (x = a) then Some (b mod 256) else m !! x.
Proof.
  unfold store_byte. destruct (m !! a) eqn:E; [|discriminate]. intros [= <-].
  case_decide; subst; [by rewrite lookup_insert_eq | by rewrite lookup_insert_ne].
Qed.

Lemma store_byte_mapped m a b m' : store_byte m a b = Ok m' -> is_Some (m !! a).
Proof. unfold store_byte. destruct (m !! a); [eauto | discriminate]. Qed.

(** Bytes outside the stored range keep their value. *)
Lemma store_le_outside m a n v m' x :
  store_le m a n v = Ok m' -> (x < a \/ a + Z.of_nat n <= x) -> m' !! x = m !! x.
Proof.
  revert m a v. induction n as [|n IH]; intros m a v Hs Hx; simpl in Hs; inv_bind.
  - by subst.
  - rewrite (IH _ _ _ Hs) by lia. rewrite (store_byte_lookup _ _ _ _ _ Ha).
    case_decide; [lia | done].
Qed.

(** A store keeps the set of mapped addresses. *)
Lemma store_le_dom m a n v m' x :
  store_le m a n v = Ok m' -> (is_Some (m' !! x) <-> is_Some (m !! x)).
Proof.
  revert m a v. induction n as [|n IH]; intros m a v Hs; simpl in Hs; inv_bind.
  - by subst.
  - rewrite (IH _ _ _ Hs), (store_byte_lookup _ _ _ _ _ Ha).
    case_decide; subst; [|done]. apply store_byte_mapped in Ha. split; eauto.
Qed.

Lemma store_le_wf m a n v m' : mem_wf m -> store_le m a n v = Ok m' -> mem_wf m'.
Proof.
  revert m a v. induction n as [|n IH]; intros m a v Hwf Hs; simpl in Hs; inv_bind.
  - by subst.
  - eapply IH; [|exact Hs]. intros x b Hx. rewrite (store_byte_lookup _ _ _ _ _ Ha) in Hx.
    case_decide; [injection Hx as <-; apply Z.mod_pos_bound; lia | eauto].
Qed.

#[export] Hint Resolve store_le_wf : mem.

(** A store to a mapped range succeeds. *)
Lemma store_le_mapped m a n v :
  (forall i, 0 <= i < Z.of_nat n -> is_Some (m !! (a + i))) ->
  exists m', store_le m a n v = Ok m'.
Proof.
  revert m a v. induction n as [|n IH]; intros m a v Hm; simpl; [eauto|].
  destruct (Hm 0) as [b Hb]; [lia|]. rewrite Z.add_0_r in Hb.
  unfold store_byte. rewrite Hb. simpl. apply IH.
  intros i Hi. rewrite lookup_insert_ne by lia.
  replace (a + 1 + i) with (a + (1 + i)) by lia. apply Hm. lia.
Qed.

Lemma load_le_ext m m' a n :
  (forall i, 0 <= i < Z.of_nat n -> m' !! (a + i) = m !! (a + i)) ->
  load_le m' a n = load_le m a n.
Proof.
  revert a. induction n as [|n IH]; intros a Hm; simpl; [done|].
  unfold load_byte.
  assert (m' !! a = m !! a) as -> by (rewrite <- (Z.add_0_r a); apply Hm; lia).
  rewrite IH; [done|].
  intros i Hi. replace (a + 1 + i) with (a + (1 + i)) by lia. apply Hm. lia.
Qed.

(** A load of a range disjoint from a store sees the old bytes. *)
Lemma load_store_disjoint m a n v m' b k :
  store_le m a n v = Ok m' ->
  (b + Z.of_nat k <= a \/ a + Z.of_nat n <= b) ->
  load_le m' b k = load_le m b k.
Proof.
  intros Hs Hd. apply load_le_ext. intros i Hi. eapply store_le_outside; [exact Hs | lia].
Qed.

(** Load after store at the same place gives back the stored value,
    truncated to the width. *)
Lemma load_store_same m a n v m' :
  store_le m a n v = Ok m' -> load_le m' a n = Ok (v mod 2 ^ (8 * Z.of_nat n)).
Proof.
  revert m a v m'. induction n as [|n IH]; intros m a v m' Hs; simpl in Hs; inv_bind.
  - simpl. by rewrite Z.mod_1_r.
  - simpl. rewrite (IH _ _ _ _ Hs). unfold load_byte.
    rewrite (store_le_outside _ _ _ _ _ a Hs) by lia.
    rewrite (store_byte_lookup _ _ _ _ _ Ha), decide_True by done. simpl.
    f_equal. replace (8 * Z.of_nat (S n)) with (8 + 8 * Z.of_nat n) by lia.
    rewrite Z.pow_add_r by lia.
    rewrite Z.rem_mul_r by (try apply Z.pow_nonzero; try apply Z.pow_pos_nonneg; lia).
    reflexivity.
Qed.

(** ** Lemmas on [write_bytes] *)
Lemma write_bytes_lookup m a l x :
  write_bytes m a l !! x =
    if decide (a <= x < a + Z.of_nat (length l)) then l !! Z.to_nat (x - a) else m !! x.
Proof.
  revert m a. induction l as [|b l IH]; intros m a; simpl.
  - case_decide; [lia | done].
  - rewrite IH, lookup_insert.
    repeat case_decide; subst; try lia; try done.
    + replace (Z.to_nat (x - a)) with (S (Z.to_nat (x - (a + 1)))) by lia. done.
    + by rewrite Z.sub_diag.
Qed.

Lemma unmap_bytes_lookup m a n x :
  unmap_bytes m a n !! x = if decide (a <= x < a + Z.of_nat n) then None else m !! x.
Proof.
  revert m a. induction n as [|n IH]; intros m a; cbn [unmap_bytes].
  - case_decide; [lia | done].
  - rewrite IH. destruct (decide (x = a)) as [->|Hne].
    + rewrite lookup_delete_eq. repeat case_decide; try lia; done.
    + rewrite lookup_delete_ne by done. repeat case_decide; try lia; done.
Qed.

(** ** Termination of the loops that walk memory *)
(** Addresses [a], [a + s], ..., [a + s (n - 1)] that are all mapped are
    at most as many as the mapped bytes. *)
Lemma mapped_run_bound (m : mem) (a s : Z) (n : nat) :
  0 < s -> (forall i, (i < n)%nat -> is_Some (m !! (a + s * Z.of_nat i))) -> (n <= size m)%nat.
Proof.
  intros Hs Hm.
  set (l := (fun i : nat => a + s * Z.of_nat i) <$> seq 0 n).
  assert (HND : NoDup l).
  { apply NoDup_fmap_2; [|apply NoDup_seq]. intros i j Hij. nia. }
  assert (Hsub : list_to_set l ⊆@{gset Z} dom m).
  { intros x Hx. apply elem_of_list_to_set, list_elem_of_fmap in Hx as (i & -> & Hi).
    apply list_elem_of_In, in_seq in Hi. apply elem_of_dom, Hm. lia. }
  apply subseteq_size in Hsub. rewrite size_list_to_set in Hsub by done.
  rewrite size_dom in Hsub. subst l. by rewrite length_fmap, length_seq in Hsub.
Qed.

(** If the string walk runs out of fuel, every byte it visited was mapped. *)
Lemma read_cstr_fuel_out m a fuel :
  read_cstr_fuel fuel m a = Err OutOfFuel ->
  forall i, (i < fuel)%nat -> is_Some (m !! (a + 1 * Z.of_nat i)).
Proof.
  revert a. induction fuel as [|f IH]; intros a Hr i Hi; [lia|].
  simpl in Hr. unfold load_byte in Hr. destruct (m !! a) as [b|] eqn:Hb; simpl in Hr; [|discriminate].
  destruct i as [|i]; [rewrite Z.add_0_r; eauto|].
  destruct (b =? 0); [discriminate|].
  destruct (read_cstr_fuel f m (a + 1)) eqn:E; simpl in Hr; [discriminate|]. injection Hr as ->.
  replace (a + 1 * Z.of_nat (S i)) with (a + 1 + 1 * Z.of_nat i) by lia. apply IH; [done | lia].
Qed.

(** [strdup] always finishes: it finds the terminator or faults. *)
Theorem strdup_terminates m a : strdup m a <> Err OutOfFuel.
Proof.
  intros H. apply read_cstr_fuel_out with (i := 0%nat) in H as H0; [|lia].
  pose proof (mapped_run_bound m a 1 (S (size m)) ltac:(lia) (read_cstr_fuel_out _ _ _ H)). lia.
Qed.

Lemma strcmp_eq_err m s a e : strcmp_eq m s a = Err e -> exists x, e = Undef (Segv x).
Proof.
  revert a. induction s as [|c s IH]; intros a; cbn [strcmp_eq]; unfold load_byte;
    destruct (m !! a) as [b|]; cbn [of_option bind].
  - discriminate.
  - intros [= <-]; eauto.
  - destruct (b =? c); [apply IH | discriminate].
  - intros [= <-]; eauto.
Qed.

Lemma read_cstr_fuel_S f m a :
  read_cstr_fuel (S f) m a =
    (b <- load_byte m a ;; if b =? 0 then Ok [] else s <- read_cstr_fuel f m (a + 1) ;; Ok (b :: s)).
Proof. reflexivity. Qed.

(** [strcmp] against a string read by [strdup] decides equality. *)
Lemma strcmp_eq_spec m s a t :
  cstring s -> read_cstr_fuel (S (length t)) m a = Ok t ->
  strcmp_eq m s a = Ok (bool_decide (s = t)).
Proof.
  revert s a. induction t as [|c t IH]; intros s a Hs Hr; rewrite read_cstr_fuel_S in Hr.
  - destruct (load_byte m a) as [b|] eqn:Hb; cbn [bind] in Hr; [|discriminate].
    destruct (Z.eqb_spec b 0) as [->|]; [|discriminate].
    destruct s as [|c s]; cbn [strcmp_eq bind]; rewrite Hb; cbn [bind].
    + by rewrite bool_decide_true.
    + inversion Hs; subst. rewrite bool_decide_false by done.
      destruct (Z.eqb_spec 0 c); [lia | done].
  - destruct (load_byte m a) as [b|] eqn:Hb; cbn [bind] in Hr; [|discriminate].
    destruct (Z.eqb_spec b 0) as [->|Hb0]; [discriminate|].
    destruct (read_cstr_fuel (length (c :: t)) m (a + 1)) as [t'|] eqn:Ht; cbn [bind] in Hr; [|discriminate].
    injection Hr as -> ->.
    destruct s as [|d s]; cbn [strcmp_eq bind]; rewrite Hb; cbn [bind].
    + rewrite bool_decide_false by done. destruct (Z.eqb_spec c 0); [lia | done].
    + inversion Hs; subst. destruct (Z.eqb_spec c d) as [->|Hne].
      * rewrite (IH s (a + 1)) by done. f_equal. apply bool_decide_ext.
        split; [by intros -> | intros Heq; by injection Heq].
      * rewrite bool_decide_false; [done | congruence].
Qed.

(** The converse: a successful comparison means the string at [a] is [s]. *)
Lemma strcmp_eq_true m s a :
  cstring s -> strcmp_eq m s a = Ok true -> read_cstr_fuel (S (length s)) m a = Ok s.
Proof.
  revert a. induction s as [|c s IH]; intros a Hs; cbn [strcmp_eq]; rewrite read_cstr_fuel_S;
    destruct (load_byte m a) as [b|]; cbn [bind]; try discriminate.
  - intros [= Hb]. by rewrite Hb.
  - inversion Hs as [|? ? Hc Hs']; subst.
    destruct (Z.eqb_spec b c) as [->|]; [|discriminate]. intros Hm.
    destruct (Z.eqb_spec c 0) as [->|]; [lia|].
    cbn [length]. rewrite (IH _ Hs' Hm). done.
Qed.

(** The strings [read_cstr_fuel] returns have no NUL, and are bytes. *)
Lemma read_cstr_fuel_cstring f m a s : mem_wf m -> read_cstr_fuel f m a = Ok s -> cstring s.
Proof.
  intros Hwf. revert a s. induction f as [|f IH]; intros a s Hr; [discriminate|].
  rewrite read_cstr_fuel_S in Hr.
  destruct (load_byte m a) as [b|] eqn:Hb; cbn [bind] in Hr; [|discriminate].
  destruct (Z.eqb_spec b 0); [injection Hr as <-; constructor|].
  destruct (read_cstr_fuel f m (a + 1)) as [t|] eqn:Ht; cbn [bind] in Hr; [|discriminate].
  injection Hr as <-. constructor; [|exact (IH _ _ Ht)].
  apply load_byte_inv, Hwf in Hb. lia.
Qed.

(** A string read with any fuel is read with exactly its length plus one. *)
Lemma read_cstr_fuel_exact f m a s :
  read_cstr_fuel f m a = Ok s -> read_cstr_fuel (S (length s)) m a = Ok s.
Proof.
  revert a s. induction f as [|f IH]; intros a s Hr; [discriminate|].
  rewrite read_cstr_fuel_S in Hr. rewrite read_cstr_fuel_S.
  destruct (load_byte m a) as [b|]; cbn [bind] in *; [|discriminate].
  destruct (b =? 0); [by injection Hr as <-|].
  destruct (read_cstr_fuel f m (a + 1)) as [t|] eqn:Ht; cbn [bind] in Hr; [|discriminate].
  injection Hr as <-. cbn [length]. by rewrite (IH _ _ Ht).
Qed.

Section Walk.
Context {S R : Type}.
Variable m : mem.
Variable step : Z -> S -> res (S + R).
Hypothesis step_mapped : forall p s s', step p s = Ok (inl s') -> is_Some (m !! p).
Hypothesis step_no_fuel : forall p s, step p s <> Err OutOfFuel.

Lemma walk_S f stride p s :
  walk step (Datatypes.S f) stride p s =
    (r <- step p s ;; match r with inl s' => walk step f stride (p + stride) s' | inr x => Ok x end).
Proof. reflexivity. Qed.

(** A property every continuing iteration preserves, and that every
    stopping iteration turns into [Q], holds of the result. *)
Lemma walk_invariant (P : S -> Prop) (Q : R -> Prop) fuel stride p s r :
  (forall p s s', P s -> step p s = Ok (inl s') -> P s') ->
  (forall p s x, P s -> step p s = Ok (inr x) -> Q x) ->
  P s -> walk step fuel stride p s = Ok r -> Q r.
Proof.
  intros Hc Hs. revert p s. induction fuel as [|f IH]; intros p s Hp Hw; [discriminate|].
  rewrite walk_S in Hw. destruct (step p s) as [[s'|x]|e] eqn:E; cbn [bind] in Hw; [| |discriminate].
  - eapply IH; [eapply Hc|]; eauto.
  - injection Hw as <-. eauto.
Qed.

(** Each iteration that goes on has read a mapped byte at [p], and no
    iteration runs out of fuel itself. *)
Lemma walk_out fuel stride p s :
  walk step fuel stride p s = Err OutOfFuel ->
  forall k, (k < fuel)%nat -> is_Some (m !! (p + stride * Z.of_nat k)).
Proof.
  revert p s. induction fuel as [|f IH]; intros p s Hw k Hk; [lia|].
  rewrite walk_S in Hw. destruct (step p s) as [[s'|x]|e] eqn:Hs; cbn [bind] in Hw.
  - destruct k as [|k]; [rewrite Z.mul_0_r, Z.add_0_r; eapply step_mapped; eauto|].
    replace (p + stride * Z.of_nat (Datatypes.S k)) with (p + stride + stride * Z.of_nat k) by lia.
    apply (IH _ _ Hw). lia.
  - discriminate.
  - injection Hw as ->. by apply step_no_fuel in Hs.
Qed.

(** With a positive stride, [size m + 1] iterations are enough: the loop
    stops or faults before it runs out of fuel. *)
Lemma walk_terminates stride p s :
  0 < stride -> walk step (Datatypes.S (size m)) stride p s <> Err OutOfFuel.
Proof.
  intros Hs Hw. pose proof (mapped_run_bound m p stride _ Hs (walk_out _ _ _ _ Hw)). lia.
Qed.

End Walk.
