(* ===== verification/Elf.v ===== *)
(** * ELF64 structures as the loader reads them

    The constants of [<elf.h>] the code uses, the layout of the structures it
    reads through pointers ([Elf64_Sym], [Elf64_Rela], [Elf64_Dyn]: one load
    per field access, at the field's offset), the program header
    [Elf64_Phdr] and the two fields of [Elf64_Ehdr] that [mapWorker] reads
    from the [fread] buffer, and the little-endian encoders used to build
    concrete images. *)

From Stdlib Require Import ZArith Lia.
From stdpp Require Import base list gmap.
From S2P Require Import Prelude Memory.

Open Scope Z_scope.
Open Scope dl_scope.

(** ** Constants of [<elf.h>] (glibc 2.38 and later: [DT_NUM] is 38) *)
Definition PT_LOAD := 1.

Definition PT_DYNAMIC := 2.

Definition PF_X := 1.

Definition PF_W := 2.

Definition PF_R := 4.

Definition DT_NULL := 0.

Definition DT_NEEDED := 1.

Definition DT_PLTRELSZ := 2.

Definition DT_PLTGOT := 3.

Definition DT_STRTAB := 5.

Definition DT_SYMTAB := 6.

Definition DT_RELA := 7.

Definition DT_RELASZ := 8.

Definition DT_JMPREL := 23.

Definition DT_RUNPATH := 29.

Definition DT_NUM := 38.

Definition DT_GNU_HASH := 1879047925.   (* 0x6ffffef5 *)

Definition DT_RELACOUNT := 1879048185.  (* 0x6ffffff9 *)

Definition R_X86_64_IRELATIVE := 37.

(** [<sys/mman.h>]: [PROT_READ], [PROT_WRITE], [PROT_EXEC]. *)
Definition PROT_READ := 1.

Definition PROT_WRITE := 2.

Definition PROT_EXEC := 4.

(** [src/library.h]: the two slots appended after [DT_NUM]. *)
Definition OS_SPECIFIC_FLAG := 2.

Definition DT_RELACOUNT_NEW := 0.

Definition DT_GNU_HASH_NEW := 1.

(** [sizeof] of the structures. *)
Definition sizeof_Ehdr := 64.

Definition sizeof_Phdr := 56.

Definition sizeof_Dyn := 16.

Definition sizeof_Sym := 24.

Definition sizeof_Rela := 24.

(** ** Field reads through a pointer *)
Definition sym_st_name (m : mem) (p : Z) := load_u32 m p.

Definition sym_st_shndx (m : mem) (p : Z) := load_u16 m (p + 6).

Definition sym_st_value (m : mem) (p : Z) := load_u64 m (p + 8).

Definition rela_r_offset (m : mem) (p : Z) := load_u64 m p.

Definition rela_r_info (m : mem) (p : Z) := load_u64 m (p + 8).

Definition rela_r_addend (m : mem) (p : Z) := load_u64 m (p + 16).

Definition dyn_d_tag (m : mem) (p : Z) := load_u64 m p.

Definition dyn_d_un (m : mem) (p : Z) := load_u64 m (p + 8).

(** [ELF64_R_SYM] and [ELF64_R_TYPE] as the code writes them:
    [idx >> 32] and [r_info & 0xffffffff]. *)
Definition r_sym (info : Z) : Z := Z.shiftr info 32.

Definition r_type (info : Z) : Z := Z.land info (2 ^ 32 - 1).

(** ** Little-endian bytes *)
Fixpoint le_bytes (n : nat) (v : Z) : list Z :=
  match n with
  | O => []
  | S n' => v mod 256 :: le_bytes n' (v / 256)
  end.

Fixpoint le_decode (l : list Z) : Z :=
  match l with
  | [] => 0
  | b :: l' => b + 256 * le_decode l'
  end.

(** The [n]-byte field at offset [off] of a buffer. *)
Definition field (buf : list Z) (off : nat) (n : nat) : Z := le_decode (take n (drop off buf)).

(** ** Program headers and the ELF header *)
Record Elf64_Phdr := mkPhdr {
  p_type : Z; p_flags : Z; p_offset : Z; p_vaddr : Z;
  p_paddr : Z; p_filesz : Z; p_memsz : Z; p_align : Z }.

Definition decode_phdr (buf : list Z) : Elf64_Phdr :=
  mkPhdr (field buf 0 4) (field buf 4 4) (field buf 8 8) (field buf 16 8)
         (field buf 24 8) (field buf 32 8) (field buf 40 8) (field buf 48 8).

Definition encode_phdr (p : Elf64_Phdr) : list Z :=
  le_bytes 4 (p_type p) ++ le_bytes 4 (p_flags p) ++ le_bytes 8 (p_offset p) ++
  le_bytes 8 (p_vaddr p) ++ le_bytes 8 (p_paddr p) ++ le_bytes 8 (p_filesz p) ++
  le_bytes 8 (p_memsz p) ++ le_bytes 8 (p_align p).

(** The program-header table in the [fread] buffer: [phnum] entries. *)
Definition decode_phdrs (buf : list Z) (phnum : nat) : list Elf64_Phdr :=
  (fun i => decode_phdr (drop (56 * i) buf)) <$> seq 0 phnum.

(** [ehdr->e_phoff] and [ehdr->e_phnum]. *)
Definition e_phoff (ehdr : list Z) : Z := field ehdr 32 8.

Definition e_phnum (ehdr : list Z) : Z := field ehdr 56 2.

(** Structures written to memory, to build concrete images. *)
Definition encode_sym (st_name st_info st_other st_shndx st_value st_size : Z) : list Z :=
  le_bytes 4 st_name ++ le_bytes 1 st_info ++ le_bytes 1 st_other ++ le_bytes 2 st_shndx ++
  le_bytes 8 st_value ++ le_bytes 8 st_size.

Definition encode_rela (off info addend : Z) : list Z :=
  le_bytes 8 off ++ le_bytes 8 info ++ le_bytes 8 addend.

Definition encode_dyn (tag val : Z) : list Z := le_bytes 8 tag ++ le_bytes 8 val.

Lemma dyn_d_tag_mapped m p t : dyn_d_tag m p = Ok t -> is_Some (m !! p).
Proof. apply load_le_first_mapped. Qed.

Lemma length_le_bytes n v : length (le_bytes n v) = n.
Proof. revert v. induction n; simpl; auto. Qed.

#[export] Hint Rewrite length_le_bytes : dl_rw.

(** Load from bytes placed in memory. *)
Lemma load_le_write_bytes m a n l :
  length l = n -> load_le (write_bytes m a l) a n = Ok (le_decode l).
Proof.
  intros <-. revert m a. induction l as [|b l IH]; intros m a; simpl; [done|].
  unfold load_byte. rewrite write_bytes_lookup. rewrite decide_False by lia.
  rewrite lookup_insert_eq. simpl. by rewrite IH.
Qed.
