(* ===== verification/Library.v ===== *)
(** * The library record and the loader's state

    [struct libraryInternal] of src/library.h, the state the loader threads
    (process memory, the chain of records, the mapping calls issued), and the
    host collaborators the code calls but does not implement: the native
    loader ([dlopen], [dlsym]) for "fake" libraries and the IFUNC resolvers
    it jumps into.  The chain [openedHead -> next -> ...] is the list
    [st_libs] in discovery order; a [Library *] is an index into it. *)

From Stdlib Require Import ZArith Lia.
From stdpp Require Import base list gmap.
From S2P Require Import Prelude Memory Elf.

Open Scope Z_scope.
Open Scope dl_scope.

(** A slot of the [malloc]ed [search_list] array: a pointer to a record,
    [NULL], or never written. *)
Inductive slot :=
| SlotLib (i : nat)
| SlotNull
| SlotUninit.

(** A [FILE *] opened for reading: the file's bytes and the position. *)
Record stream := mkStream { s_data : list Z; s_pos : nat }.

(** [typedef struct libraryInternal {...} Library;] (its [next] field is
    the order of [st_libs]). *)
Record Library := mkLibrary {
  addr : Z;                          (** [uint64_t addr] *)
  name : list Z;                     (** [char *name] *)
  dyn : Z;                           (** [Elf64_Dyn *dyn] *)
  dyn_info : list Z;                 (** [Elf64_Dyn *dyn_info[DT_NUM + 2]], 0 is [NULL] *)
  dyn_num : Z;                       (** [int dyn_num] *)
  search_list : option (list slot);  (** [Library **search_list], [None] is [NULL] *)
  fs : option stream;                (** [FILE *fs] *)
  relocated : Z;                     (** [int relocated] *)
  fake : bool;                       (** [int fake] *)
  fake_handle : Z;                   (** [void *fake_handle] *)
  l_nbuckets : Z;
  l_gnu_bitmask_idxbits : Z;
  l_gnu_shift : Z;
  l_gnu_bitmask : Z;
  l_gnu_buckets : Z;
  l_gnu_chain_zero : Z }.

Definition dyn_info_size : nat := Z.to_nat (DT_NUM + OS_SPECIFIC_FLAG).

(** [calloc(sizeof(Library), 1)] followed by setting [name] and [fs]. *)
Definition new_library (n : list Z) (f : stream) : Library :=
  mkLibrary 0 n 0 (replicate dyn_info_size 0) 0 None (Some f) 0 false 0 0 0 0 0 0 0.

(** Field assignments [lib->field = v]. *)
Definition set_addr (l : Library) (v : Z) : Library :=
  mkLibrary v (name l) (dyn l) (dyn_info l) (dyn_num l) (search_list l) (fs l) (relocated l)
    (fake l) (fake_handle l) (l_nbuckets l) (l_gnu_bitmask_idxbits l) (l_gnu_shift l)
    (l_gnu_bitmask l) (l_gnu_buckets l) (l_gnu_chain_zero l).

Definition set_dyn (l : Library) (d n : Z) : Library :=
  mkLibrary (addr l) (name l) d (dyn_info l) n (search_list l) (fs l) (relocated l)
    (fake l) (fake_handle l) (l_nbuckets l) (l_gnu_bitmask_idxbits l) (l_gnu_shift l)
    (l_gnu_bitmask l) (l_gnu_buckets l) (l_gnu_chain_zero l).

Definition set_dyn_info (l : Library) (v : list Z) : Library :=
  mkLibrary (addr l) (name l) (dyn l) v (dyn_num l) (search_list l) (fs l) (relocated l)
    (fake l) (fake_handle l) (l_nbuckets l) (l_gnu_bitmask_idxbits l) (l_gnu_shift l)
    (l_gnu_bitmask l) (l_gnu_buckets l) (l_gnu_chain_zero l).

Definition set_search_list (l : Library) (v : list slot) : Library :=
  mkLibrary (addr l) (name l) (dyn l) (dyn_info l) (dyn_num l) (Some v) (fs l) (relocated l)
    (fake l) (fake_handle l) (l_nbuckets l) (l_gnu_bitmask_idxbits l) (l_gnu_shift l)
    (l_gnu_bitmask l) (l_gnu_buckets l) (l_gnu_chain_zero l).

Definition set_fs (l : Library) (v : stream) : Library :=
  mkLibrary (addr l) (name l) (dyn l) (dyn_info l) (dyn_num l) (search_list l) (Some v)
    (relocated l) (fake l) (fake_handle l) (l_nbuckets l) (l_gnu_bitmask_idxbits l)
    (l_gnu_shift l) (l_gnu_bitmask l) (l_gnu_buckets l) (l_gnu_chain_zero l).

Definition set_fake (l : Library) (v : bool) : Library :=
  mkLibrary (addr l) (name l) (dyn l) (dyn_info l) (dyn_num l) (search_list l) (fs l)
    (relocated l) v (fake_handle l) (l_nbuckets l) (l_gnu_bitmask_idxbits l) (l_gnu_shift l)
    (l_gnu_bitmask l) (l_gnu_buckets l) (l_gnu_chain_zero l).

Definition set_fake_handle (l : Library) (v : Z) : Library :=
  mkLibrary (addr l) (name l) (dyn l) (dyn_info l) (dyn_num l) (search_list l) (fs l)
    (relocated l) (fake l) v (l_nbuckets l) (l_gnu_bitmask_idxbits l) (l_gnu_shift l)
    (l_gnu_bitmask l) (l_gnu_buckets l) (l_gnu_chain_zero l).

Definition set_hash (l : Library) (nb idxbits shift bitmask buckets chain_zero : Z) : Library :=
  mkLibrary (addr l) (name l) (dyn l) (dyn_info l) (dyn_num l) (search_list l) (fs l)
    (relocated l) (fake l) (fake_handle l) nb idxbits shift bitmask buckets chain_zero.

(** [lib->dyn_info[i]]. *)
Definition dyn_slot (l : Library) (i : Z) : Z := nth (Z.to_nat i) (dyn_info l) 0.

(** [lib->dyn_info[i]->d_un.d_ptr] (or [d_val]): an absent entry is a
    [NULL] dereference. *)
Definition dyn_ptr (m : mem) (l : Library) (i : Z) : res Z :=
  let p := dyn_slot l i in
  if p =? 0 then Err (Undef NullDeref) else dyn_d_un m p.

(** ** The loader's state *)
(** A mapping call issued to the kernel: a private file mapping of the
    record's file, or anonymous zero pages. *)
Inductive mmap_call :=
| MmapFile (lib : nat) (start len prot off : Z)
| MmapAnon (start len prot : Z).

Record State := mkState {
  st_mem : mem;              (** the process address space *)
  st_libs : list Library;    (** the chain, [openedHead] first *)
  st_mmaps : list mmap_call  (** the mapping calls issued, oldest first *)
}.

Definition set_mem (s : State) (m : mem) : State := mkState m (st_libs s) (st_mmaps s).

Definition set_lib (s : State) (i : nat) (l : Library) : State :=
  mkState (st_mem s) (<[i := l]> (st_libs s)) (st_mmaps s).

(** The record a [Library *] points to. *)
Definition lib_at (s : State) (i : nat) : res Library :=
  of_option (Undef NullDeref) (st_libs s !! i).

(** ** The host collaborators *)
Class Host := {
  (** [dlopen(name, RTLD_LAZY)]: a handle, [0] on failure *)
  host_dlopen : list Z -> Z;
  (** [dlsym(handle, name)]: an address, [0] when absent *)
  host_dlsym : Z -> list Z -> Z;
  (** calling the IFUNC resolver at an address: the address it returns *)
  host_ifunc : Z -> Z
}.

(** ** What relocation and lookup may change *)
(** Two records that differ at most in [fake_handle]. *)
Definition rec_equiv (l l' : Library) : Prop := l' = set_fake_handle l (fake_handle l').

(** [t] is [s] with bytes rewritten in place and fake handles replaced: the
    same mapped addresses, still bytes, the same records otherwise. *)
Definition same_shape (s t : State) : Prop :=
  (forall x, is_Some (st_mem t !! x) <-> is_Some (st_mem s !! x)) /\
  (mem_wf (st_mem s) -> mem_wf (st_mem t)) /\
  Forall2 rec_equiv (st_libs s) (st_libs t) /\
  st_mmaps t = st_mmaps s.

Lemma dyn_info_size_eq : dyn_info_size = 40%nat.
Proof. reflexivity. Qed.

(** ** Lemmas *)
Lemma set_lib_libs_length s i l : length (st_libs (set_lib s i l)) = length (st_libs s).
Proof. apply length_insert. Qed.

Lemma lib_at_set_lib_eq s i l : (i < length (st_libs s))%nat -> lib_at (set_lib s i l) i = Ok l.
Proof. intros H. unfold lib_at, set_lib; simpl. by rewrite list_lookup_insert_eq. Qed.

Lemma lib_at_set_lib_ne s i j l : i <> j -> lib_at (set_lib s i l) j = lib_at s j.
Proof. intros H. unfold lib_at, set_lib; simpl. by rewrite list_lookup_insert_ne. Qed.

#[export] Hint Rewrite set_lib_libs_length lib_at_set_lib_eq lib_at_set_lib_ne using (try lia; done) : dl_rw.

Lemma set_fake_handle_eta l : set_fake_handle l (fake_handle l) = l.
Proof. by destruct l. Qed.

Lemma set_fake_handle_twice l h h' : set_fake_handle (set_fake_handle l h) h' = set_fake_handle l h'.
Proof. by destruct l. Qed.

#[export] Instance rec_equiv_preorder : PreOrder rec_equiv.
Proof.
  split.
  - intros l. unfold rec_equiv. by rewrite set_fake_handle_eta.
  - intros l1 l2 l3 -> ->. unfold rec_equiv. by rewrite set_fake_handle_twice.
Qed.

#[export] Instance same_shape_preorder : PreOrder same_shape.
Proof.
  split.
  - intros s. split; [done|]. split; [done|]. split; [|done].
    reflexivity.
  - intros s1 s2 s3 (D1 & W1 & L1 & M1) (D2 & W2 & L2 & M2). split; [|split; [|split]].
    + intros x. by rewrite D2, D1.
    + auto.
    + etransitivity; eassumption.
    + congruence.
Qed.

Lemma same_shape_set_mem s m :
  (forall x, is_Some (m !! x) <-> is_Some (st_mem s !! x)) ->
  (mem_wf (st_mem s) -> mem_wf m) -> same_shape s (set_mem s m).
Proof.
  intros D W. split; [done|]. split; [done|]. split; [|done].
  reflexivity.
Qed.

Lemma same_shape_store s a n v m :
  store_le (st_mem s) a n v = Ok m -> same_shape s (set_mem s m).
Proof.
  intros Hs. apply same_shape_set_mem; [intros x; eapply store_le_dom; eauto | eauto with mem].
Qed.

Lemma same_shape_set_fake_handle s j l h :
  st_libs s !! j = Some l -> same_shape s (set_lib s j (set_fake_handle l h)).
Proof.
  intros Hj. split; [done|]. split; [done|]. split; [|done].
  unfold set_lib; cbn [st_libs]. apply Forall2_same_length_lookup. split; [by rewrite length_insert|].
  intros i x y Hx Hy. destruct (decide (i = j)) as [->|Hne].
  - rewrite list_lookup_insert_eq in Hy by (eapply lookup_lt_Some; eauto).
    rewrite Hj in Hx. injection Hx as <-. injection Hy as <-. unfold rec_equiv. by destruct l.
  - rewrite list_lookup_insert_ne in Hy by done. rewrite Hx in Hy. injection Hy as <-. reflexivity.
Qed.
