(* ===== verification/Hash.v ===== *)
(** * The GNU hash table and the symbol resolver

    [dl_new_hash], [symbolLookup] (src/relocLibrary.c, lines 11-73) and
    [setup_hash] (src/mapLibrary.c, lines 242-261): the hash of a name, the
    header of the [DT_GNU_HASH] section, and the lookup of a name in one
    library (Bloom filter, bucket, hash chain; or the host loader for a
    "fake" library). *)

From Stdlib Require Import ZArith Lia.
From stdpp Require Import base list gmap.
From S2P Require Import Prelude Memory Elf Library.

Open Scope Z_scope.
Open Scope dl_scope.

(** ** [dl_new_hash] *)
(** [h = h * 33 + c] on [uint_fast32_t], which is [unsigned long] (64 bits)
    on x86-64 glibc: the accumulator wraps modulo 2^64. *)
Fixpoint hash_loop (h : Z) (s : list Z) : Z :=
  match s with
  | [] => h
  | c :: s' => hash_loop (wrap64 (h * 33 + c)) s'
  end.

(** [return h & 0xffffffff]. *)
Definition dl_new_hash (s : list Z) : Z := Z.land (hash_loop 5381 s) (2 ^ 32 - 1).

(** The hash the GNU hash section is built with: Bernstein's hash in exact
    arithmetic, truncated to 32 bits. *)
Definition gnu_hash (s : list Z) : Z := fold_left (fun h c => h * 33 + c) s 5381 mod 2 ^ 32.

(** ** [setup_hash] *)
(** Read the header [nbuckets, symbias, bitmask_nwords, shift] and derive the
    table pointers.  [64 / 32 * bitmask_nwords] and [bitmask_nwords - 1] are
    computed on [Elf32_Word], so they wrap modulo 2^32. *)
Definition setup_hash (m : mem) (l : Library) : res Library :=
  hash32 <- dyn_ptr m l (DT_NUM + DT_GNU_HASH_NEW) ;;
  nbuckets <- load_u32 m hash32 ;;
  symbias <- load_u32 m (hash32 + 4) ;;
  bitmask_nwords <- load_u32 m (hash32 + 8) ;;
  shift <- load_u32 m (hash32 + 12) ;;
  let bitmask := hash32 + 16 in
  let buckets := bitmask + 4 * wrap32 (2 * bitmask_nwords) in
  let chain_zero := buckets + 4 * nbuckets - 4 * symbias in
  Ok (set_hash l nbuckets (wrap32 (bitmask_nwords - 1)) shift bitmask buckets chain_zero).

(** ** [symbolLookup] *)
(** [(bitmask_word >> hashbit1) & (bitmask_word >> hashbit2) & 1]. *)
Definition bloom_test (word h shift : Z) : Z :=
  Z.land (Z.land (Z.shiftr word (Z.land h 63)) (Z.shiftr word (Z.land (Z.shiftr h shift) 63))) 1.

(** The [do ... while (( *hasharr++ & 1u) == 0)] loop from chain index [i]:
    a chain entry whose hash matches (ignoring the low bit) is compared by
    name; the low bit ends the chain.  Returns [NULL] (0) when not found. *)
Fixpoint chain_walk (fuel : nat) (m : mem) (l : Library) (symtab strtab h : Z)
    (nm : list Z) (i : Z) : res Z :=
  match fuel with
  | O => Err OutOfFuel
  | S f =>
      w <- load_u32 m (l_gnu_chain_zero l + 4 * i) ;;
      r <- (if Z.shiftr (Z.lxor w h) 1 =? 0 then
              sn <- sym_st_name m (symtab + 24 * i) ;;
              eq <- strcmp_eq m nm (strtab + sn) ;;
              if eq then v <- sym_st_value m (symtab + 24 * i) ;; Ok (Some (wrap64 (v + addr l)))
              else Ok None
            else Ok None) ;;
      match r with
      | Some a => Ok a
      | None => if Z.land w 1 =? 0 then chain_walk f m l symtab strtab h nm (i + 1) else Ok 0
      end
  end.

(** Past the Bloom filter: [bucket = gnu_buckets[h % nbuckets]], then the
    chain from [bucket] ([NULL] for an empty bucket). *)
Definition gnu_bucket (m : mem) (l : Library) (symtab strtab : Z) (nm : list Z) (h : Z) : res Z :=
  assert! negb (l_nbuckets l =? 0) else Undef DivByZero ;;
  bucket <- load_u32 m (l_gnu_buckets l + 4 * (h mod l_nbuckets l)) ;;
  if bucket =? 0 then Ok 0 else chain_walk (S (size m)) m l symtab strtab h nm bucket.

(** The lookup in a library the loader mapped itself; [name_at] is the
    address of the name.  The chain walk visits distinct mapped words, so
    [size m] iterations are enough (see [chain_walk_terminates]). *)
Definition gnu_lookup (m : mem) (l : Library) (name_at : Z) : res Z :=
  symtab <- dyn_ptr m l DT_SYMTAB ;;
  strtab <- dyn_ptr m l DT_STRTAB ;;
  nm <- strdup m name_at ;;
  let h := dl_new_hash nm in
  word <- load_u64 m (l_gnu_bitmask l + 8 * Z.land (h / 64) (l_gnu_bitmask_idxbits l)) ;;
  assert! (l_gnu_shift l <? 64) else Undef ShiftTooWide ;;
  if bloom_test word h (l_gnu_shift l) =? 0 then Ok 0 else gnu_bucket m l symtab strtab nm h.

Section WithHost.
Context `{Host}.

(** [symbolLookup(dep, name)] for the record at index [j]: a fake record is
    [dlopen]ed again on every call and its handle stored in [fake_handle]. *)
Definition symbolLookup (s : State) (j : nat) (name_at : Z) : res (State * Z) :=
  dep <- lib_at s j ;;
  if fake dep then
    let hd := host_dlopen (name dep) in
    assert! negb (hd =? 0) else Exit FakeOpenFailure ;;
    nm <- strdup (st_mem s) name_at ;;
    Ok (set_lib s j (set_fake_handle dep hd), host_dlsym hd nm)
  else
    r <- gnu_lookup (st_mem s) dep name_at ;; Ok (s, r).

End WithHost.

(** ** The chain walk against a decoded chain *)
(** One hash-chain entry as the table describes it: the stored hash, the
    name of the symbol at that index and its runtime address. *)
Record chain_entry := mkEntry { ce_hash : Z; ce_name : list Z; ce_value : Z }.

(** The reference search: the first entry, up to the first one whose low
    bit is set, whose hash agrees with [h] but for the low bit and whose name
    is [nm]. *)
Fixpoint chain_find (h : Z) (nm : list Z) (es : list chain_entry) : Z :=
  match es with
  | [] => 0
  | e :: es' =>
      if (Z.shiftr (Z.lxor (ce_hash e) h) 1 =? 0) && bool_decide (ce_name e = nm) then ce_value e
      else if Z.land (ce_hash e) 1 =? 0 then chain_find h nm es' else 0
  end.

(** The memory holds the entries [es] from chain index [i] on. *)
Definition chain_decodes (m : mem) (l : Library) (symtab strtab i : Z) (es : list chain_entry) : Prop :=
  forall k e, es !! k = Some e ->
    let j := i + Z.of_nat k in
    load_u32 m (l_gnu_chain_zero l + 4 * j) = Ok (ce_hash e) /\
    exists sn v, sym_st_name m (symtab + 24 * j) = Ok sn /\
      read_cstr_fuel (S (length (ce_name e))) m (strtab + sn) = Ok (ce_name e) /\
      sym_st_value m (symtab + 24 * j) = Ok v /\ ce_value e = wrap64 (v + addr l).

(** The chain ends within [es]. *)
Definition chain_closed (es : list chain_entry) : Prop :=
  exists e, last es = Some e /\ Z.land (ce_hash e) 1 <> 0.

(** ** Properties of the hash *)
Lemma hash_loop_mod h s :
  hash_loop (h mod 2 ^ 64) s = fold_left (fun h c => h * 33 + c) s h mod 2 ^ 64.
Proof.
  revert h. induction s as [|c s IH]; intros h; simpl; [done|].
  rewrite <- IH. f_equal. unfold wrap64.
  rewrite <- Zplus_mod_idemp_l, Z.mul_mod_idemp_l by lia.
  by rewrite Zplus_mod_idemp_l.
Qed.

(** C19: the 64-bit accumulation of [dl_new_hash], masked at the end, is the
    32-bit GNU hash. *)
Theorem dl_new_hash_spec s : dl_new_hash s = gnu_hash s.
Proof.
  unfold dl_new_hash, gnu_hash.
  change (2 ^ 32 - 1) with (Z.ones 32). rewrite Z.land_ones by lia.
  change 5381 with (5381 mod 2 ^ 64) at 1. rewrite hash_loop_mod.
  apply Z.mod_mod_divide. exists (2 ^ 32). reflexivity.
Qed.

Lemma dl_new_hash_range s : 0 <= dl_new_hash s < 2 ^ 32.
Proof.
  unfold dl_new_hash. change (2 ^ 32 - 1) with (Z.ones 32). rewrite Z.land_ones by lia.
  apply Z.mod_pos_bound. lia.
Qed.

(** ** The chain walk *)
(** If the walk runs out of fuel, every chain word it read was mapped. *)
(** A step that fails only by faulting cannot leave the walk out of fuel. *)
Ltac not_fuel H :=
  match goal with
  | E : ?r = Err ?e |- _ =>
      injection H as ->;
      first [ apply load_le_err in E as [? ?] | apply strcmp_eq_err in E as [? ?] ];
      discriminate
  end.

Lemma chain_walk_out fuel m l symtab strtab h nm i :
  chain_walk fuel m l symtab strtab h nm i = Err OutOfFuel ->
  forall k, (k < fuel)%nat -> is_Some (m !! (l_gnu_chain_zero l + 4 * i + 4 * Z.of_nat k)).
Proof.
  revert i. induction fuel as [|f IH]; intros i Hw k Hk; [lia|].
  cbn [chain_walk] in Hw.
  destruct (load_u32 m (l_gnu_chain_zero l + 4 * i)) as [w|] eqn:Hl; cbn [bind] in Hw; [|not_fuel Hw].
  unfold load_u32 in Hl. pose proof (load_le_first_mapped _ _ _ _ Hl) as Hmapped.
  destruct k as [|k]; [by rewrite Z.add_0_r|].
  replace (l_gnu_chain_zero l + 4 * i + 4 * Z.of_nat (S k))
    with (l_gnu_chain_zero l + 4 * (i + 1) + 4 * Z.of_nat k) by lia.
  apply IH; [|lia].
  destruct (Z.shiftr (Z.lxor w h) 1 =? 0); cbn [bind] in Hw.
  - destruct (sym_st_name m (symtab + 24 * i)) as [sn|] eqn:Hn; cbn [bind] in Hw; [|not_fuel Hw].
    destruct (strcmp_eq m nm (strtab + sn)) as [[]|] eqn:Hc; cbn [bind] in Hw; [| |not_fuel Hw].
    + destruct (sym_st_value m (symtab + 24 * i)) eqn:Hv; cbn [bind] in Hw; [discriminate | not_fuel Hw].
    + destruct (Z.land w 1 =? 0); [done | discriminate].
  - destruct (Z.land w 1 =? 0); [done | discriminate].
Qed.

(** C23: the chain walk always finishes with [size m + 1] iterations: it
    finds the symbol, reaches the end-of-chain bit, or faults. *)
Theorem chain_walk_terminates m l symtab strtab h nm i :
  chain_walk (S (size m)) m l symtab strtab h nm i <> Err OutOfFuel.
Proof.
  intros Hw.
  pose proof (mapped_run_bound m (l_gnu_chain_zero l + 4 * i) 4 (S (size m)) ltac:(lia)
                (chain_walk_out _ _ _ _ _ _ _ _ Hw)). lia.
Qed.

Lemma chain_decodes_tail m l symtab strtab i e es :
  chain_decodes m l symtab strtab i (e :: es) -> chain_decodes m l symtab strtab (i + 1) es.
Proof.
  intros Hd k e' Hk. specialize (Hd (S k) e' Hk). cbn zeta in *.
  replace (i + 1 + Z.of_nat k) with (i + Z.of_nat (S k)) by lia. exact Hd.
Qed.

(** C20: the pointer walk over the chain computes the reference search of
    the decoded chain, for any fuel at least as long as the chain. *)
Theorem chain_walk_refines fuel m l symtab strtab h nm i es :
  cstring nm -> chain_decodes m l symtab strtab i es -> chain_closed es ->
  (length es <= fuel)%nat ->
  chain_walk fuel m l symtab strtab h nm i = Ok (chain_find h nm es).
Proof.
  intros Hnm. revert fuel i. induction es as [|e es IH]; intros fuel i Hd Hc Hf.
  { destruct Hc as (? & [=] & _). }
  destruct fuel as [|fuel]; [cbn in Hf; lia|].
  destruct (Hd 0%nat e eq_refl) as (Hw & sn & v & Hsn & Hname & Hv & Hval).
  rewrite Z.add_0_r in Hw, Hsn, Hv.
  cbn [chain_walk chain_find]. rewrite Hw. cbn [bind].
  destruct (Z.shiftr (Z.lxor (ce_hash e) h) 1 =? 0); cbn [bind andb].
  - rewrite Hsn. cbn [bind]. rewrite (strcmp_eq_spec _ _ _ _ Hnm Hname). cbn [bind].
    destruct (bool_decide (nm = ce_name e)) eqn:Eq1.
    + apply bool_decide_eq_true in Eq1. subst. rewrite bool_decide_true by done.
      rewrite Hv. cbn [bind]. by rewrite Hval.
    + rewrite bool_decide_false by (apply bool_decide_eq_false in Eq1; congruence).
      destruct (Z.land (ce_hash e) 1 =? 0) eqn:Hlow; [|done].
      apply IH; [by eapply chain_decodes_tail | | cbn in Hf; lia].
      destruct Hc as (e' & Hl & He'). destruct es as [|e2 es]; [cbn in Hl; injection Hl as <-; lia|].
      exists e'. split; [done | done].
  - destruct (Z.land (ce_hash e) 1 =? 0) eqn:Hlow; [|done].
    apply IH; [by eapply chain_decodes_tail | | cbn in Hf; lia].
    destruct Hc as (e' & Hl & He'). destruct es as [|e2 es]; [cbn in Hl; injection Hl as <-; lia|].
    exists e'. split; [done | done].
Qed.

(** ** Soundness of a lookup, whatever the table holds *)
Lemma chain_walk_sound fuel m l symtab strtab h nm i r :
  cstring nm -> chain_walk fuel m l symtab strtab h nm i = Ok r -> r <> 0 ->
  exists j sn v, sym_st_name m (symtab + 24 * j) = Ok sn /\
    read_cstr_fuel (S (length nm)) m (strtab + sn) = Ok nm /\
    sym_st_value m (symtab + 24 * j) = Ok v /\ r = wrap64 (v + addr l).
Proof.
  intros Hnm. revert i. induction fuel as [|f IH]; intros i Hw Hr; [discriminate|].
  cbn [chain_walk] in Hw.
  destruct (load_u32 m (l_gnu_chain_zero l + 4 * i)) as [w|]; cbn [bind] in Hw; [|discriminate].
  destruct (Z.shiftr (Z.lxor w h) 1 =? 0); cbn [bind] in Hw.
  - destruct (sym_st_name m (symtab + 24 * i)) as [sn|] eqn:Hsn; cbn [bind] in Hw; [|discriminate].
    destruct (strcmp_eq m nm (strtab + sn)) as [[]|] eqn:Hc; cbn [bind] in Hw; [| |discriminate].
    + destruct (sym_st_value m (symtab + 24 * i)) as [v|] eqn:Hv; cbn [bind] in Hw; [|discriminate].
      injection Hw as <-. exists i, sn, v. split; [done|]. split; [by apply strcmp_eq_true|]. done.
    + destruct (Z.land w 1 =? 0); [by eapply IH | by injection Hw as <-].
  - destruct (Z.land w 1 =? 0); [by eapply IH | by injection Hw as <-].
Qed.

(** C21: a non-[NULL] answer of the hash lookup is the runtime address
    [st_value + base] of a symbol-table entry whose name is the requested
    name, whatever the Bloom filter, buckets and chains hold. *)
Theorem gnu_lookup_sound m l a r :
  mem_wf m -> gnu_lookup m l a = Ok r -> r <> 0 ->
  exists symtab strtab nm j sn v,
    dyn_ptr m l DT_SYMTAB = Ok symtab /\ dyn_ptr m l DT_STRTAB = Ok strtab /\
    strdup m a = Ok nm /\ sym_st_name m (symtab + 24 * j) = Ok sn /\
    read_cstr_fuel (S (length nm)) m (strtab + sn) = Ok nm /\
    sym_st_value m (symtab + 24 * j) = Ok v /\ r = wrap64 (v + addr l).
Proof.
  intros Hwf Hl Hr. unfold gnu_lookup, gnu_bucket in Hl. inv_bind.
  destruct (l_gnu_shift l <? 64); [|discriminate].
  destruct (bloom_test _ _ _ =? 0); [by injection Hl as <-|].
  destruct (negb (l_nbuckets l =? 0)); [|discriminate]. inv_bind.
  destruct (a4 =? 0); [by injection Hl as <-|].
  apply chain_walk_sound in Hl as (j & sn & v & H1 & H2 & H3 & H4);
    [| eapply read_cstr_fuel_cstring; eauto | done].
  exists a0, a1, a2, j, sn, v. eauto 10.
Qed.

(** [(word >> b1) & (word >> b2) & 1] tests bits [b1] and [b2] of [word];
    [h & 63] is [h mod 64] and [h >> shift] is [h / 2^shift]. *)
Lemma bloom_test_bits w h sh :
  0 <= sh ->
  (bloom_test w h sh =? 0) = negb (Z.testbit w (h mod 64) && Z.testbit w ((h / 2 ^ sh) mod 64)).
Proof.
  intros Hsh. unfold bloom_test.
  change 1 with (Z.ones 1). change 63 with (Z.ones 6).
  rewrite (Z.land_ones _ 1), (Z.land_ones h 6), (Z.land_ones (Z.shiftr h sh) 6) by lia.
  rewrite (Z.shiftr_div_pow2 h sh) by lia.
  rewrite Zmod_odd, <- Z.bit0_odd, Z.land_spec, !Z.shiftr_spec, !Z.add_0_l by lia.
  change (2 ^ 6) with 64. by destruct (_ && _).
Qed.

(** C22: The Bloom filter as the GNU hash section defines it: with
    [2^k] 64-bit words, the name's hash [h] selects word [(h / 64) mod 2^k]
    and in it the bits [h mod 64] and [(h >> shift) mod 64].  When one of
    them is clear the answer is [NULL] whatever the buckets and chains
    hold; when both are set the lookup goes on to the buckets. *)
Theorem gnu_lookup_bloom m l a symtab strtab nm k w :
  dyn_ptr m l DT_SYMTAB = Ok symtab -> dyn_ptr m l DT_STRTAB = Ok strtab -> strdup m a = Ok nm ->
  0 <= k -> l_gnu_bitmask_idxbits l = 2 ^ k - 1 -> 0 <= l_gnu_shift l < 64 ->
  load_u64 m (l_gnu_bitmask l + 8 * ((dl_new_hash nm / 64) mod 2 ^ k)) = Ok w ->
  gnu_lookup m l a =
    if Z.testbit w (dl_new_hash nm mod 64) && Z.testbit w ((dl_new_hash nm / 2 ^ l_gnu_shift l) mod 64)
    then gnu_bucket m l symtab strtab nm (dl_new_hash nm) else Ok 0.
Proof.
  intros H1 H2 H3 Hk Hidx Hsh Hw. unfold gnu_lookup.
  rewrite H1, H2, H3. cbn [bind]. rewrite Hidx.
  replace (2 ^ k - 1) with (Z.ones k) by (rewrite Z.ones_equiv; lia).
  rewrite Z.land_ones, Hw by lia. cbn [bind]. rewrite (proj2 (Z.ltb_lt _ _)) by lia.
  rewrite bloom_test_bits by lia. by destruct (_ && _).
Qed.

Section WithHost.
Context `{Host}.

(** C24: A lookup in a fake library answers what the host's [dlsym] answers,
    unmodified, and reopens the library on every call. *)
Lemma symbolLookup_fake s j a dep nm :
  lib_at s j = Ok dep -> fake dep = true -> host_dlopen (name dep) <> 0 ->
  strdup (st_mem s) a = Ok nm ->
  symbolLookup s j a =
    Ok (set_lib s j (set_fake_handle dep (host_dlopen (name dep))),
        host_dlsym (host_dlopen (name dep)) nm).
Proof.
  intros Hl Hf Hh Hn. unfold symbolLookup. rewrite Hl. cbn [bind]. rewrite Hf.
  destruct (Z.eqb_spec (host_dlopen (name dep)) 0); [done|]. cbn [negb]. by rewrite Hn.
Qed.

(** A lookup in a library the loader mapped leaves the state unchanged. *)
Lemma symbolLookup_local s j a dep r :
  lib_at s j = Ok dep -> fake dep = false -> gnu_lookup (st_mem s) dep a = Ok r ->
  symbolLookup s j a = Ok (s, r).
Proof. intros Hl Hf Hg. unfold symbolLookup. rewrite Hl. cbn [bind]. rewrite Hf, Hg. done. Qed.

End WithHost.
