(* ===== verification/Reloc.v ===== *)
(** * The relocator

    [relocRela], [relocPLT] and [relocLibrary] (src/relocLibrary.c, lines
    75-168).  The walk over a record's [search_list] is written once, against
    any lookup function (Section [SearchWalk]); the relocations instantiate
    it with [symbolLookup].  Each relocation table is a loop over
    [Elf64_Rela] entries in memory; each entry either rebases a word
    ([base + addend]), resolves a symbol through the search list, or calls an
    IFUNC resolver. *)

From Stdlib Require Import ZArith Lia.
From stdpp Require Import base list gmap.
From S2P Require Import Prelude Memory Elf Library Hash.

Open Scope Z_scope.
Open Scope dl_scope.

(** ** The search-list walk *)
(** [while ( *search) { res = symbolLookup( *search, name); if (res) break;
    search++; }]: the walk stops at the first non-[NULL] answer or at a
    [NULL] slot; reading past the array or an unwritten slot is undefined. *)
Fixpoint search_walk (lookup : State -> nat -> Z -> res (State * Z)) (sl : list slot) (s : State) (name_at : Z)
    : res (State * Z) :=
  match sl with
  | [] => Err (Undef ArrayOverrun)
  | SlotUninit :: _ => Err (Undef UninitRead)
  | SlotNull :: _ => Ok (s, 0)
  | SlotLib j :: rest =>
      p <- lookup s j name_at ;;
      if snd p =? 0 then search_walk lookup rest (fst p) name_at else Ok p
  end.

(** The first non-zero answer of a list of answers, 0 if none. *)
Fixpoint first_hit (rs : list Z) : Z :=
  match rs with
  | [] => 0
  | r :: rs' => if r =? 0 then first_hit rs' else r
  end.

(** The lookups of the walked records leave the state as it is. *)
Definition pure_on (lookup : State -> nat -> Z -> res (State * Z)) (s : State) (a : Z) (js : list nat) (f : nat -> Z) : Prop :=
  Forall (fun j => lookup s j a = Ok (s, f j)) js.

Section WithHost.
Context `{Host}.

(** ** One relocation entry *)
(** A relative relocation: [*(lib->addr + r_offset) = lib->addr + r_addend]. *)
Definition reloc_relative (s : State) (li : nat) (it : Z) : res State :=
  lib <- lib_at s li ;;
  off <- rela_r_offset (st_mem s) it ;;
  addend <- rela_r_addend (st_mem s) it ;;
  m' <- store_u64 (st_mem s) (wrap64 (addr lib + off)) (wrap64 (addr lib + addend)) ;;
  Ok (set_mem s m').

(** The symbol-bound part shared by [relocRela] and [relocPLT]: search the
    name at [real_name] through the record's search list and, on a hit, write
    [res + r_addend]; a miss leaves the word as it is. *)
Definition bind_symbol (s : State) (li : nat) (it real_name : Z) : res State :=
  lib <- lib_at s li ;;
  sl <- of_option (Undef NullDeref) (search_list lib) ;;
  p <- search_walk symbolLookup sl s real_name ;;
  let s' := fst p in
  let r := snd p in
  if r =? 0 then Ok s' else
  off <- rela_r_offset (st_mem s') it ;;
  addend <- rela_r_addend (st_mem s') it ;;
  m' <- store_u64 (st_mem s') (wrap64 (addr lib + off)) (wrap64 (r + addend)) ;;
  Ok (set_mem s' m').

(** The symbol's name: [strtab + symtab[r_info >> 32].st_name]. *)
Definition rela_name (m : mem) (it symtab strtab : Z) : res Z :=
  info <- rela_r_info m it ;;
  sn <- sym_st_name m (symtab + 24 * r_sym info) ;;
  Ok (strtab + sn).

(** One entry of the symbol-bound part of [.rela.dyn]. *)
Definition reloc_glob (s : State) (li : nat) (it symtab strtab : Z) : res State :=
  real_name <- rela_name (st_mem s) it symtab strtab ;;
  bind_symbol s li it real_name.

(** One entry of [.rela.plt]: an [R_X86_64_IRELATIVE] entry calls the
    resolver at [base + addend] and stores its answer; any other entry is
    bound like a [.rela.dyn] entry.  The name is computed first, as in the
    code. *)
Definition reloc_plt_entry (s : State) (li : nat) (it symtab strtab : Z) : res State :=
  real_name <- rela_name (st_mem s) it symtab strtab ;;
  info <- rela_r_info (st_mem s) it ;;
  if r_type info =? R_X86_64_IRELATIVE then
    lib <- lib_at s li ;;
    addend <- rela_r_addend (st_mem s) it ;;
    let value := host_ifunc (wrap64 (addr lib + addend)) in
    off <- rela_r_offset (st_mem s) it ;;
    m' <- store_u64 (st_mem s) (wrap64 (addr lib + off)) value ;;
    Ok (set_mem s m')
  else bind_symbol s li it real_name.

(** ** The tables *)
(** [for (Elf64_Rela *it = r_start; it < r_end; it++) { Elf64_Addr *tmp =
    (void * )(lib->addr + it->r_offset); *tmp = lib->addr + it->r_addend; }]. *)
Definition reloc_relatives (s : State) (li : nat) (start r_end : Z) : res State :=
  loop_n (iterations start r_end 24) (fun k s => reloc_relative s li (start + 24 * Z.of_nat k)) 0 s.

(** [for (Elf64_Rela *it = r_end; it < rela_end; it++) { ... }]: the
    symbol-bound entries. *)
Definition reloc_globs (s : State) (li : nat) (r_end rela_end symtab strtab : Z) : res State :=
  loop_n (iterations r_end rela_end 24) (fun k s => reloc_glob s li (r_end + 24 * Z.of_nat k) symtab strtab) 0 s.

(** The word a relative entry [(r_offset, r_addend)] of a record loaded
    at [base] patches. *)
Definition rel_target (base : Z) (e : Z * Z) : Z := wrap64 (base + e.1).

(** [relocRela(lib)]: the [DT_RELACOUNT] leading relative entries, then the
    rest of [DT_RELA .. DT_RELA + DT_RELASZ] as symbol-bound entries. *)
Definition relocRela (s : State) (li : nat) : res State :=
  lib <- lib_at s li ;;
  start <- dyn_ptr (st_mem s) lib DT_RELA ;;
  size <- dyn_ptr (st_mem s) lib DT_RELASZ ;;
  nrelative <- dyn_ptr (st_mem s) lib (DT_NUM + DT_RELACOUNT_NEW) ;;
  let r_end := start + 24 * nrelative in
  s1 <- reloc_relatives s li start r_end ;;
  let rela_end := wrap64 (start + size) in
  symtab <- dyn_ptr (st_mem s1) lib DT_SYMTAB ;;
  strtab <- dyn_ptr (st_mem s1) lib DT_STRTAB ;;
  reloc_globs s1 li r_end rela_end symtab strtab.

(** [relocPLT(lib, mode)]: every entry of [DT_JMPREL .. DT_JMPREL +
    DT_PLTRELSZ], eagerly, whatever the mode. *)
Definition relocPLT (s : State) (li : nat) (mode : Z) : res State :=
  lib <- lib_at s li ;;
  start <- dyn_ptr (st_mem s) lib DT_JMPREL ;;
  size <- dyn_ptr (st_mem s) lib DT_PLTRELSZ ;;
  let plt_end := wrap64 (start + size) in
  symtab <- dyn_ptr (st_mem s) lib DT_SYMTAB ;;
  strtab <- dyn_ptr (st_mem s) lib DT_STRTAB ;;
  loop_n (iterations start plt_end 24)
    (fun k s => reloc_plt_entry s li (start + 24 * Z.of_nat k) symtab strtab) 0 s.

(** [relocLibrary(lib, mode)]: nothing for a fake record; otherwise its two
    tables.  Only the record it is given is relocated, not its chain. *)
Definition relocLibrary (s : State) (li : nat) (mode : Z) : res State :=
  lib <- lib_at s li ;;
  if fake lib then Ok s else
  s1 <- relocRela s li ;;
  relocPLT s1 li mode.

End WithHost.

Section SearchWalk.
(** The lookup of a name (by its address) in the record at an index. *)
Variable lookup : State -> nat -> Z -> res (State * Z).

(** C25: A list with no terminator answers the first hit if there is one, and
    reads past its end otherwise. *)
Lemma search_walk_unterminated s a js f :
  pure_on lookup s a js f ->
  search_walk lookup (SlotLib <$> js) s a =
    if first_hit (f <$> js) =? 0 then Err (Undef ArrayOverrun) else Ok (s, first_hit (f <$> js)).
Proof.
  induction js as [|j js IH]; intros Hp; [done|].
  inversion Hp as [|? ? Hj Hp']; subst. cbn [fmap list_fmap search_walk first_hit].
  rewrite Hj. cbn [bind fst snd]. destruct (Z.eqb_spec (f j) 0); [by apply IH|].
  destruct (Z.eqb_spec (f j) 0); done.
Qed.

End SearchWalk.

Section Shape.
Variable lookup : State -> nat -> Z -> res (State * Z).
Hypothesis lookup_shape : forall s j a p, lookup s j a = Ok p -> same_shape s (fst p).

(** ** Relocation rewrites memory in place *)
Lemma search_walk_shape sl s a p : search_walk lookup sl s a = Ok p -> same_shape s (fst p).
Proof.
  revert s. induction sl as [|[j| |] sl IH]; intros s Hw; cbn [search_walk] in Hw; try discriminate.
  - inv_bind. apply lookup_shape in Ha.
    destruct (snd a0 =? 0); [etransitivity; [exact Ha | by apply IH] | injection Hw as <-; exact Ha].
  - injection Hw as <-. reflexivity.
Qed.

End Shape.

Section WithHost.
Context `{Host}.

Lemma symbolLookup_shape s j a p : symbolLookup s j a = Ok p -> same_shape s (fst p).
Proof.
  unfold symbolLookup. intros Hl. inv_bind. unfold lib_at in Ha.
  destruct (st_libs s !! j) eqn:Hj; cbn [of_option] in Ha; [injection Ha as <-|discriminate].
  destruct (fake l).
  - destruct (negb (host_dlopen (name l) =? 0)); [|discriminate]. inv_bind. subst.
    by apply same_shape_set_fake_handle.
  - inv_bind. subst. reflexivity.
Qed.

Lemma store_u64_shape s a v m : store_u64 (st_mem s) a v = Ok m -> same_shape s (set_mem s m).
Proof. apply same_shape_store. Qed.

#[local] Hint Resolve store_u64_shape : core.

Lemma bind_symbol_shape s li it nm s' : bind_symbol s li it nm = Ok s' -> same_shape s s'.
Proof.
  unfold bind_symbol. intros Hb. inv_bind.
  pose proof (search_walk_shape _ symbolLookup_shape _ _ _ _ Ha1) as Hs.
  destruct (snd a1 =? 0); [inv_bind; by subst|]. inv_bind. subst. etransitivity; eauto.
Qed.

Lemma reloc_relative_shape s li it s' : reloc_relative s li it = Ok s' -> same_shape s s'.
Proof. unfold reloc_relative. intros Hr. inv_bind. subst. eauto. Qed.

Lemma reloc_glob_shape s li it symtab strtab s' :
  reloc_glob s li it symtab strtab = Ok s' -> same_shape s s'.
Proof. unfold reloc_glob. intros Hr. inv_bind. by eapply bind_symbol_shape. Qed.

Lemma reloc_plt_entry_shape s li it symtab strtab s' :
  reloc_plt_entry s li it symtab strtab = Ok s' -> same_shape s s'.
Proof.
  unfold reloc_plt_entry. intros Hr. inv_bind.
  destruct (r_type a0 =? R_X86_64_IRELATIVE); [inv_bind; subst; eauto | by eapply bind_symbol_shape].
Qed.

#[local] Hint Resolve reloc_relative_shape reloc_glob_shape reloc_plt_entry_shape : core.

(** Relocating a record keeps the mapped addresses, keeps memory made of
    bytes, and changes no record but for the fake handles its lookups
    store. *)
Theorem relocLibrary_shape s li mode s' : relocLibrary s li mode = Ok s' -> same_shape s s'.
Proof.
  unfold relocLibrary, relocRela, reloc_relatives, reloc_globs, relocPLT. intros Hr. inv_bind.
  destruct (fake a); [inv_bind; by subst|]. inv_bind.
  etransitivity; [apply (loop_n_preorder same_shape _ _ _ _ _
                   (fun j t t' Hb => reloc_relative_shape _ _ _ _ Hb) Ha10)|].
  etransitivity; [apply (loop_n_preorder same_shape _ _ _ _ _
                   (fun j t t' Hb => reloc_glob_shape _ _ _ _ _ _ Hb) Ha0)|].
  apply (loop_n_preorder same_shape _ _ _ _ _
           (fun j t t' Hb => reloc_plt_entry_shape _ _ _ _ _ _ Hb) Hr).
Qed.

(** ** What one entry writes *)
Lemma store_u64_load m a v m' : store_u64 m a v = Ok m' -> load_u64 m' a = Ok (wrap64 v).
Proof. apply load_store_same. Qed.

(** A relative entry stores [base + r_addend] at [base + r_offset]. *)
Theorem reloc_relative_spec s li it lib off ad s' :
  lib_at s li = Ok lib -> rela_r_offset (st_mem s) it = Ok off ->
  rela_r_addend (st_mem s) it = Ok ad -> reloc_relative s li it = Ok s' ->
  load_u64 (st_mem s') (wrap64 (addr lib + off)) = Ok (wrap64 (addr lib + ad)).
Proof.
  intros Hl Ho Ha Hr. unfold reloc_relative in Hr. rewrite Hl, Ho, Ha in Hr. cbn [bind] in Hr.
  inv_bind. subst. cbn [st_mem set_mem]. rewrite (store_u64_load _ _ _ _ Ha0). by rewrite wrap64_idem.
Qed.

(** C26: A symbol-bound entry whose name the search list resolves to [r] stores
    [r + r_addend] at [base + r_offset]. *)
Theorem bind_symbol_hit s li it nm lib sl s1 r off ad s' :
  lib_at s li = Ok lib -> search_list lib = Some sl ->
  search_walk symbolLookup sl s nm = Ok (s1, r) -> r <> 0 ->
  rela_r_offset (st_mem s1) it = Ok off -> rela_r_addend (st_mem s1) it = Ok ad ->
  bind_symbol s li it nm = Ok s' ->
  load_u64 (st_mem s') (wrap64 (addr lib + off)) = Ok (wrap64 (r + ad)).
Proof.
  intros Hl Hsl Hw Hr Ho Ha Hb. unfold bind_symbol in Hb.
  rewrite Hl in Hb. cbn [bind] in Hb. rewrite Hsl in Hb. cbn [of_option bind] in Hb.
  rewrite Hw in Hb. cbn [bind fst snd] in Hb. destruct (Z.eqb_spec r 0); [done|].
  rewrite Ho, Ha in Hb. cbn [bind] in Hb. inv_bind. subst. cbn [st_mem set_mem].
  rewrite (store_u64_load _ _ _ _ Ha0). by rewrite wrap64_idem.
Qed.

(** C27: A [.rela.plt] entry of type [R_X86_64_IRELATIVE] calls the IFUNC
    resolver at [base + r_addend] and stores what it returns at
    [base + r_offset], without looking at the search list. *)
Theorem reloc_plt_ifunc s li it symtab strtab lib info ad off s' :
  lib_at s li = Ok lib -> rela_r_info (st_mem s) it = Ok info -> r_type info = R_X86_64_IRELATIVE ->
  rela_r_addend (st_mem s) it = Ok ad -> rela_r_offset (st_mem s) it = Ok off ->
  reloc_plt_entry s li it symtab strtab = Ok s' ->
  load_u64 (st_mem s') (wrap64 (addr lib + off)) = Ok (wrap64 (host_ifunc (wrap64 (addr lib + ad)))) /\
  st_libs s' = st_libs s.
Proof.
  intros Hl Hi Ht Ha Ho Hr. unfold reloc_plt_entry in Hr.
  destruct (rela_name _ _ _ _); cbn [bind] in Hr; [|discriminate].
  rewrite Hi in Hr. cbn [bind] in Hr. rewrite Ht, Z.eqb_refl, Hl in Hr. cbn [bind] in Hr.
  rewrite Ha in Hr. cbn [bind] in Hr. rewrite Ho in Hr. cbn [bind] in Hr.
  destruct (store_u64 _ _ _) as [m'|] eqn:Hs; cbn [bind] in Hr; [|discriminate].
  injection Hr as <-. cbn [st_mem st_libs set_mem]. split; [|done].
  by rewrite (store_u64_load _ _ _ _ Hs).
Qed.

(** C28: the relative loop of [relocRela] over a table of entries [es]
    stores [base + r_addend] at [base + r_offset] for every entry, when the
    targets do not overlap the table or each other. *)
Theorem reloc_relatives_spec s li lib start es s' :
  lib_at s li = Ok lib ->
  (forall k e, es !! k = Some e ->
     rela_r_offset (st_mem s) (start + 24 * Z.of_nat k) = Ok e.1 /\
     rela_r_addend (st_mem s) (start + 24 * Z.of_nat k) = Ok e.2) ->
  (forall k e, es !! k = Some e ->
     rel_target (addr lib) e + 8 <= start \/ start + 24 * Z.of_nat (length es) <= rel_target (addr lib) e) ->
  (forall k k' e e', k <> k' -> es !! k = Some e -> es !! k' = Some e' ->
     rel_target (addr lib) e + 8 <= rel_target (addr lib) e' \/
     rel_target (addr lib) e' + 8 <= rel_target (addr lib) e) ->
  reloc_relatives s li start (start + 24 * Z.of_nat (length es)) = Ok s' ->
  forall k e, es !! k = Some e -> load_u64 (st_mem s') (rel_target (addr lib) e) = Ok (wrap64 (addr lib + e.2)).
Proof.
  intros Hl Hd Ht Hp Hr. unfold reloc_relatives in Hr. rewrite iterations_exact in Hr by lia.
  pose (P := fun j t => lib_at t li = Ok lib /\
    (forall k e, es !! k = Some e ->
       rela_r_offset (st_mem t) (start + 24 * Z.of_nat k) = Ok e.1 /\
       rela_r_addend (st_mem t) (start + 24 * Z.of_nat k) = Ok e.2) /\
    (forall k e, (k < j)%nat -> es !! k = Some e ->
       load_u64 (st_mem t) (rel_target (addr lib) e) = Ok (wrap64 (addr lib + e.2)))).
  assert (HP : P (0 + length es)%nat s').
  { eapply (loop_n_ind P); [| split_and!; [exact Hl | exact Hd | intros; lia] | exact Hr].
    intros j t t' Hj (Hlt & Hdt & Hdone) Hb.
    destruct (lookup_lt_is_Some_2 es j ltac:(lia)) as [e Hej]. destruct (Hdt j e Hej) as [Ho Ha].
    unfold reloc_relative in Hb. rewrite Hlt, Ho, Ha in Hb. cbn [bind] in Hb.
    destruct (store_u64 _ _ _) as [m'|] eqn:Hst; cbn [bind] in Hb; [|discriminate]. injection Hb as <-.
    unfold store_u64 in Hst. pose proof (Ht j e Hej) as Htj. fold (rel_target (addr lib) e) in Hst.
    split_and!; [done| |].
    - intros k e' Hk. apply lookup_lt_Some in Hk as Hkl. destruct (Hdt k e' Hk) as [Ho' Ha'].
      unfold rela_r_offset, rela_r_addend, load_u64 in *. cbn [st_mem set_mem].
      rewrite !(load_store_disjoint _ _ _ _ _ _ _ Hst) by (cbn; lia). done.
    - intros k e' Hk Hk'. unfold load_u64. cbn [st_mem set_mem]. destruct (decide (k = j)) as [->|Hne].
      + rewrite Hej in Hk'. injection Hk' as <-. rewrite (load_store_same _ _ _ _ _ Hst).
        change (8 * Z.of_nat 8) with 64. fold (wrap64 (wrap64 (addr lib + e.2))). by rewrite wrap64_idem.
      + rewrite (load_store_disjoint _ _ _ _ _ _ _ Hst) by (cbn; destruct (Hp k j e' e Hne Hk' Hej); lia).
        apply (Hdone k e'); [lia | done]. }
  destruct HP as (_ & _ & HP). intros k e Hk. apply (HP k e); [apply lookup_lt_Some in Hk; lia | done].
Qed.

End WithHost.
