(* ===== verification/FindSymbol.v ===== *)
(** * The public symbol lookup

    [findSymbol(library, symname)] (src/findSymbol.c, lines 7-27): a linear
    scan of the record's dynamic symbol table, from [DT_SYMTAB] up to the
    start of [DT_STRTAB] (which the code assumes follows it), comparing each
    entry's name with [symname] and answering [st_value + base] for the first
    match.  The scan is compared with a search in the decoded table. *)

From Stdlib Require Import ZArith Lia.
From stdpp Require Import base list gmap.
From S2P Require Import Prelude Memory Elf Library.

Open Scope Z_scope.
Open Scope dl_scope.

(** [while ((void * )curr < (void * )strtab) { ... ++curr; }], with at most
    [n] entries left to visit, [k] the index of [curr]. *)
Fixpoint find_loop (n : nat) (m : mem) (base symtab strtab : Z) (symname : list Z) (k : Z) : res Z :=
  match n with
  | O => Ok 0
  | S n' =>
      let curr := symtab + 24 * k in
      sn <- sym_st_name m curr ;;
      eq <- strcmp_eq m symname (strtab + sn) ;;
      if eq then v <- sym_st_value m curr ;; Ok (wrap64 (v + base))
      else find_loop n' m base symtab strtab symname (k + 1)
  end.

Definition findSymbol (s : State) (li : nat) (symname : list Z) : res Z :=
  lib <- lib_at s li ;;
  symtab <- dyn_ptr (st_mem s) lib DT_SYMTAB ;;
  strtab <- dyn_ptr (st_mem s) lib DT_STRTAB ;;
  find_loop (iterations symtab strtab 24) (st_mem s) (addr lib) symtab strtab symname 0.

(** ** The decoded symbol table *)

(** What the scan sees of one entry: its name and its [st_value]. *)
Record sym_view := mkSym { sv_name : list Z; sv_value : Z }.

(** The reference: the value of the first entry named [symname], plus the
    base; [NULL] if there is none. *)
Fixpoint find_first (base : Z) (symname : list Z) (syms : list sym_view) : Z :=
  match syms with
  | [] => 0
  | e :: syms' => if bool_decide (sv_name e = symname) then wrap64 (sv_value e + base)
                  else find_first base symname syms'
  end.

(** The memory holds the entries [syms] from index [k] on. *)
Definition symtab_decodes (m : mem) (symtab strtab k : Z) (syms : list sym_view) : Prop :=
  forall i e, syms !! i = Some e ->
    exists sn, sym_st_name m (symtab + 24 * (k + Z.of_nat i)) = Ok sn /\
      read_cstr_fuel (S (length (sv_name e))) m (strtab + sn) = Ok (sv_name e) /\
      sym_st_value m (symtab + 24 * (k + Z.of_nat i)) = Ok (sv_value e).

Lemma symtab_decodes_tail m symtab strtab k e syms :
  symtab_decodes m symtab strtab k (e :: syms) -> symtab_decodes m symtab strtab (k + 1) syms.
Proof.
  intros Hd i e' Hi. destruct (Hd (S i) e' Hi) as (sn & H1 & H2 & H3).
  exists sn. replace (k + 1 + Z.of_nat i) with (k + Z.of_nat (S i)) by lia. done.
Qed.

(** The scan over [n] decoded entries is the reference search. *)
Lemma find_loop_refines m base symtab strtab symname k syms :
  cstring symname -> symtab_decodes m symtab strtab k syms ->
  find_loop (length syms) m base symtab strtab symname k = Ok (find_first base symname syms).
Proof.
  intros Hs. revert k. induction syms as [|e syms IH]; intros k Hd; [done|].
  destruct (Hd 0%nat e eq_refl) as (sn & H1 & H2 & H3). rewrite Z.add_0_r in H1, H3.
  cbn [length find_loop find_first]. rewrite H1. cbn [bind].
  rewrite (strcmp_eq_spec _ _ _ _ Hs H2). cbn [bind].
  destruct (bool_decide (symname = sv_name e)) eqn:E.
  - apply bool_decide_eq_true in E. rewrite bool_decide_true by done. rewrite H3. done.
  - rewrite bool_decide_false; [apply IH; by eapply symtab_decodes_tail|].
    apply bool_decide_eq_false in E. congruence.
Qed.

(** C30: [findSymbol] answers the first entry of the decoded table whose name is
    [symname], when the string table starts right after the [length syms]
    entries of the symbol table. *)
Theorem findSymbol_spec s li lib symtab strtab symname syms :
  cstring symname ->
  lib_at s li = Ok lib ->
  dyn_ptr (st_mem s) lib DT_SYMTAB = Ok symtab ->
  dyn_ptr (st_mem s) lib DT_STRTAB = Ok strtab ->
  strtab = symtab + 24 * Z.of_nat (length syms) ->
  symtab_decodes (st_mem s) symtab strtab 0 syms ->
  findSymbol s li symname = Ok (find_first (addr lib) symname syms).
Proof.
  intros Hs Hl H1 H2 Hst Hd. unfold findSymbol.
  rewrite Hl; cbn [bind]. rewrite H1; cbn [bind]. rewrite H2; cbn [bind].
  replace (iterations symtab strtab 24) with (length syms).
  - by apply find_loop_refines.
  - unfold iterations. subst strtab. destruct (Z.ltb_spec symtab (symtab + 24 * Z.of_nat (length syms))).
    + replace (symtab + 24 * Z.of_nat (length syms) - symtab + 24 - 1)
        with (Z.of_nat (length syms) * 24 + 23) by lia.
      rewrite Z.div_add_l, (Z.div_small 23 24), Z.add_0_r, Nat2Z.id by lia. done.
    + destruct syms; simpl in *; lia.
Qed.
