(* ===== verification/Dynamic.v ===== *)
(** * The dynamic-section indexer

    [fill_info] (src/mapLibrary.c, lines 209-240): one scan of the
    [PT_DYNAMIC] array up to [DT_NULL] that stores in [dyn_info] a pointer to
    the last entry of each tag below [DT_NUM] and of [DT_RELACOUNT] and
    [DT_GNU_HASH] (two slots after [DT_NUM]); then the in-place rebase
    [d_ptr += lib->addr] of the entries of six pointer tags.  The theorems
    relate the scan to the decoded array (last entry wins) and show that each
    pointer is rebased exactly once by one call, and twice by two. *)

From Stdlib Require Import ZArith Lia.
From stdpp Require Import base list gmap.
From S2P Require Import Prelude Memory Elf Library.

Open Scope Z_scope.
Open Scope dl_scope.

(** [if (tag < DT_NUM) ... else if (tag == DT_RELACOUNT) ... else if (tag ==
    DT_GNU_HASH) ...]: record the entry at [p] in the slot of its tag. *)
Definition index_entry (info : list Z) (tag p : Z) : list Z :=
  if tag <? DT_NUM then <[Z.to_nat tag := p]> info
  else if tag =? DT_RELACOUNT then <[Z.to_nat (DT_NUM + DT_RELACOUNT_NEW) := p]> info
  else if tag =? DT_GNU_HASH then <[Z.to_nat (DT_NUM + DT_GNU_HASH_NEW) := p]> info
  else info.

(** One iteration of [while (dyn->d_tag != DT_NULL) { ...; ++dyn; }]. *)
Definition fill_step (m : mem) (p : Z) (info : list Z) : res (list Z + list Z) :=
  tag <- dyn_d_tag m p ;;
  if tag =? DT_NULL then Ok (inr info) else Ok (inl (index_entry info tag p)).

Definition fill_scan (m : mem) (start : Z) (info : list Z) : res (list Z) :=
  walk (fill_step m) (S (size m)) 16 start info.

(** [rebase(tag)]: [if (dyn_info[tag]) dyn_info[tag]->d_un.d_ptr += lib->addr]. *)
Definition rebase (m : mem) (info : list Z) (base tag : Z) : res mem :=
  let p := nth (Z.to_nat tag) info 0 in
  if p =? 0 then Ok m else
  v <- dyn_d_un m p ;;
  store_u64 m (p + 8) (wrap64 (v + base)).

Fixpoint rebase_all (m : mem) (info : list Z) (base : Z) (tags : list Z) : res mem :=
  match tags with
  | [] => Ok m
  | t :: ts => m1 <- rebase m info base t ;; rebase_all m1 info base ts
  end.

(** The six pointer tags [fill_info] rebases, in its order. *)
Definition rebased_tags : list Z :=
  [DT_SYMTAB; DT_STRTAB; DT_RELA; DT_JMPREL; DT_NUM + DT_GNU_HASH_NEW; DT_PLTGOT].

Definition fill_info (m : mem) (l : Library) : res (mem * Library) :=
  info <- fill_scan m (dyn l) (dyn_info l) ;;
  m' <- rebase_all m info (addr l) rebased_tags ;;
  Ok (m', set_dyn_info l info).

(** ** The scan *)
(** The slot a tag is recorded in, if any. *)
Definition slot_of (tag : Z) : option nat :=
  if (0 <=? tag) && (tag <? DT_NUM) then Some (Z.to_nat tag)
  else if tag =? DT_RELACOUNT then Some 38%nat
  else if tag =? DT_GNU_HASH then Some 39%nat
  else None.

(** The dynamic array at [start]: the tags [ds] (none of them [DT_NULL])
    then [DT_NULL]. *)
Definition dyn_decodes (m : mem) (start : Z) (ds : list Z) : Prop :=
  (forall k t, ds !! k = Some t -> dyn_d_tag m (start + 16 * Z.of_nat k) = Ok t /\ 0 < t) /\
  dyn_d_tag m (start + 16 * Z.of_nat (length ds)) = Ok 0.

Fixpoint index_all (info : list Z) (p : Z) (ds : list Z) : list Z :=
  match ds with
  | [] => info
  | t :: ds' => index_all (index_entry info t p) (p + 16) ds'
  end.

(** ** The rebase *)
Definition tag_ptr (info : list Z) (t : Z) : Z := nth (Z.to_nat t) info 0.

(** The entries of distinct tags are distinct and at least an entry apart. *)
Definition separated (info : list Z) (tags : list Z) : Prop :=
  NoDup tags /\
  forall t u, t ∈ tags -> u ∈ tags -> t <> u -> tag_ptr info t <> 0 -> tag_ptr info u <> 0 ->
    tag_ptr info t + 16 <= tag_ptr info u \/ tag_ptr info u + 16 <= tag_ptr info t.

(** ** The index: last entry wins *)
(** The address of the last entry of [ds] (from [p] on) recorded in slot [i]. *)
Fixpoint last_hit (i : nat) (p : Z) (ds : list Z) : option Z :=
  match ds with
  | [] => None
  | t :: ds' =>
      match last_hit i (p + 16) ds' with
      | Some q => Some q
      | None => if bool_decide (slot_of t = Some i) then Some p else None
      end
  end.

Definition fresh_index : list Z := replicate dyn_info_size 0.

Lemma index_entry_slot_of info tag p :
  0 <= tag -> index_entry info tag p =
    match slot_of tag with Some i => <[i := p]> info | None => info end.
Proof.
  intros Ht. unfold index_entry, slot_of.
  rewrite (proj2 (Z.leb_le 0 tag) Ht). cbn [andb].
  destruct (tag <? DT_NUM); [done|]. destruct (tag =? DT_RELACOUNT); [done|].
  destruct (tag =? DT_GNU_HASH); done.
Qed.

Lemma dyn_decodes_tail m start t ds :
  dyn_decodes m start (t :: ds) -> dyn_decodes m (start + 16) ds.
Proof.
  intros [Hd Hn]. split.
  - intros k u Hk. replace (start + 16 + 16 * Z.of_nat k) with (start + 16 * Z.of_nat (S k)) by lia.
    by apply (Hd (S k)).
  - replace (start + 16 + 16 * Z.of_nat (length ds)) with (start + 16 * Z.of_nat (length (t :: ds)))
      by (cbn [length]; lia). done.
Qed.

Lemma fill_walk_spec fuel m start ds info :
  dyn_decodes m start ds -> (length ds < fuel)%nat ->
  walk (fill_step m) fuel 16 start info = Ok (index_all info start ds).
Proof.
  revert fuel start info. induction ds as [|t ds IH]; intros fuel start info Hd Hf;
    (destruct fuel as [|fuel]; [cbn in Hf; lia|]); rewrite walk_S; unfold fill_step.
  - destruct Hd as [_ Hn]. cbn [length] in Hn. rewrite Z.add_0_r in Hn. rewrite Hn. done.
  - destruct (proj1 Hd 0%nat t eq_refl) as [Ht Ht0]. rewrite Z.add_0_r in Ht.
    rewrite Ht. cbn [bind]. destruct (Z.eqb_spec t DT_NULL) as [E|]; [unfold DT_NULL in E; lia|].
    cbn [bind index_all]. apply IH; [by eapply dyn_decodes_tail | cbn in Hf; lia].
Qed.

Lemma dyn_decodes_mapped m start ds :
  dyn_decodes m start ds -> forall k, (k < S (length ds))%nat -> is_Some (m !! (start + 16 * Z.of_nat k)).
Proof.
  intros [Hd Hn] k Hk. destruct (decide (k = length ds)) as [->|Hne].
  - exact (dyn_d_tag_mapped _ _ _ Hn).
  - destruct (lookup_lt_is_Some_2 ds k) as [t Ht]; [lia|].
    exact (dyn_d_tag_mapped _ _ _ (proj1 (Hd k t Ht))).
Qed.

(** The scan computes the index of the decoded array. *)
Theorem fill_scan_spec m start ds info :
  dyn_decodes m start ds -> fill_scan m start info = Ok (index_all info start ds).
Proof.
  intros Hd. apply fill_walk_spec; [done|].
  pose proof (mapped_run_bound m start 16 (S (length ds)) ltac:(lia) (dyn_decodes_mapped _ _ _ Hd)).
  lia.
Qed.

(** C31: The scan always finishes: it reaches [DT_NULL] or faults. *)
Theorem fill_scan_terminates m start info : fill_scan m start info <> Err OutOfFuel.
Proof.
  apply (walk_terminates m); [| |lia].
  - intros p s s' Hs. unfold fill_step in Hs. inv_bind.
    exact (dyn_d_tag_mapped _ _ _ Ha).
  - intros p s Hs. unfold fill_step in Hs.
    destruct (dyn_d_tag m p) eqn:E; cbn [bind] in Hs; [destruct (_ =? _); discriminate|].
    injection Hs as ->. apply load_le_err in E as [? ?]. discriminate.
Qed.

Lemma separated_tail info t ts : separated info (t :: ts) -> separated info ts.
Proof.
  intros [Hnd Hs]. inversion Hnd; subst. split; [done|].
  intros u w Hu Hw. apply Hs; by constructor.
Qed.

(** A rebase writes only the [d_un] fields of the entries it rebases. *)
Lemma rebase_all_frame m info base tags m' x :
  rebase_all m info base tags = Ok m' ->
  (forall t, t ∈ tags -> tag_ptr info t <> 0 -> x < tag_ptr info t + 8 \/ tag_ptr info t + 16 <= x) ->
  m' !! x = m !! x.
Proof.
  revert m. induction tags as [|t ts IH]; intros m Hr Hx; cbn [rebase_all] in Hr; inv_bind; [by subst|].
  rewrite (IH _ Hr) by (intros u Hu; apply Hx; by constructor).
  unfold rebase in Ha. fold (tag_ptr info t) in Ha.
  destruct (Z.eqb_spec (tag_ptr info t) 0); [by inv_bind; subst|].
  destruct (dyn_d_un m (tag_ptr info t)) as [v|]; cbn [bind] in Ha; [|discriminate].
  eapply store_le_outside; [exact Ha|]. cbn. destruct (Hx t) as [?|?]; [by constructor|done|lia|lia].
Qed.

Lemma dyn_d_un_frame m m' p :
  (forall i, 0 <= i < 8 -> m' !! (p + 8 + i) = m !! (p + 8 + i)) -> dyn_d_un m' p = dyn_d_un m p.
Proof. intros H. unfold dyn_d_un, load_u64. by apply load_le_ext. Qed.

(** Every pointer entry of separated tags is rebased exactly once. *)
Lemma rebase_all_spec m info base tags m' :
  separated info tags -> rebase_all m info base tags = Ok m' ->
  forall t, t ∈ tags -> tag_ptr info t <> 0 ->
  exists v, dyn_d_un m (tag_ptr info t) = Ok v /\ dyn_d_un m' (tag_ptr info t) = Ok (wrap64 (v + base)).
Proof.
  revert m. induction tags as [|t ts IH]; intros m Hs Hr u Hu Hp; [by apply not_elem_of_nil in Hu|].
  cbn [rebase_all] in Hr. inv_bind. rename a into m1, Ha into H1.
  pose proof Hs as [Hnd Hsep]. inversion Hnd as [|? ? Hnotin Hnd']; subst.
  assert (Hframe : forall q, q ∈ ts -> tag_ptr info q <> 0 ->
            forall i, 0 <= i < 8 -> m1 !! (tag_ptr info q + 8 + i) = m !! (tag_ptr info q + 8 + i)).
  { intros q Hq Hq0 i Hi. unfold rebase in H1. fold (tag_ptr info t) in H1.
    destruct (Z.eqb_spec (tag_ptr info t) 0); [by inv_bind; subst|].
    destruct (dyn_d_un m (tag_ptr info t)) as [v|]; cbn [bind] in H1; [|discriminate].
    eapply store_le_outside; [exact H1|]. cbn.
    assert (t <> q) by (intros ->; contradiction).
    destruct (Hsep t q) as [?|?]; [by constructor|by constructor|done|done|done|lia|lia]. }
  apply elem_of_cons in Hu as [->|Hu].
  - unfold rebase in H1. fold (tag_ptr info t) in H1.
    destruct (Z.eqb_spec (tag_ptr info t) 0); [done|].
    destruct (dyn_d_un m (tag_ptr info t)) as [v|] eqn:Hv; cbn [bind] in H1; [|discriminate].
    exists v. split; [done|].
    rewrite (dyn_d_un_frame m1 m').
    + unfold dyn_d_un, load_u64. rewrite (load_store_same _ _ _ _ _ H1).
      change (wrap64 (v + base) mod 2 ^ (8 * Z.of_nat 8)) with (wrap64 (wrap64 (v + base))).
      by rewrite wrap64_idem.
    + intros i Hi. eapply rebase_all_frame; [exact Hr|]. intros q Hq Hq0.
      assert (t <> q) by (intros ->; contradiction).
      destruct (Hsep t q) as [?|?]; [by constructor|by constructor|done|done|done|lia|lia].
  - destruct (IH m1 (separated_tail _ _ _ Hs) Hr u Hu Hp) as (v & Hv1 & Hv2).
    exists v. split; [|done]. rewrite <- Hv1. symmetry. apply dyn_d_un_frame. by apply Hframe.
Qed.

Lemma slot_of_lt t i : slot_of t = Some i -> (i < 40)%nat.
Proof.
  unfold slot_of, DT_NUM. destruct ((0 <=? t) && (t <? 38)) eqn:E.
  - apply andb_true_iff in E as [E1 E2]. apply Z.leb_le in E1. apply Z.ltb_lt in E2.
    intros [= <-]. lia.
  - destruct (t =? DT_RELACOUNT); [intros [= <-]; lia|].
    destruct (t =? DT_GNU_HASH); [intros [= <-]; lia | discriminate].
Qed.

Lemma index_entry_length info t p : length (index_entry info t p) = length info.
Proof. unfold index_entry. repeat case_match; by rewrite ?length_insert. Qed.

Lemma index_all_length info p ds : length (index_all info p ds) = length info.
Proof. revert info p. induction ds; intros; cbn [index_all]; [done|]. by rewrite IHds, index_entry_length. Qed.

(** Slot [i] of the index holds the last entry recorded there, or what it
    held before. *)
Theorem index_all_nth info p ds i :
  Forall (fun t => 0 <= t) ds -> length info = 40%nat -> (i < 40)%nat ->
  nth i (index_all info p ds) 0 = match last_hit i p ds with Some q => q | None => nth i info 0 end.
Proof.
  revert info p. induction ds as [|t ds IH]; intros info p Hnn Hl Hi; [done|].
  inversion Hnn; subst. cbn [index_all last_hit].
  rewrite IH by (rewrite ?index_entry_length; done).
  destruct (last_hit i (p + 16) ds); [done|].
  rewrite index_entry_slot_of by done. destruct (slot_of t) as [n|] eqn:E.
  - rewrite nth_insert. pose proof (slot_of_lt _ _ E).
    destruct (decide (n = i)) as [->|Hne].
    + rewrite decide_True by lia. by rewrite bool_decide_true.
    + rewrite decide_False by naive_solver. rewrite bool_decide_false; [done | congruence].
  - rewrite bool_decide_false; [done | congruence].
Qed.

Lemma last_hit_some i p ds q :
  last_hit i p ds = Some q -> exists k t, ds !! k = Some t /\ slot_of t = Some i /\ q = p + 16 * Z.of_nat k.
Proof.
  revert p. induction ds as [|t ds IH]; intros p H; [discriminate|]. cbn [last_hit] in H.
  destruct (last_hit i (p + 16) ds) as [q'|] eqn:E.
  - injection H as <-. destruct (IH _ E) as (k & u & Hk & Hu & ->).
    exists (S k), u. split; [done|]. split; [done|]. lia.
  - case_bool_decide; [|discriminate]. injection H as <-. exists 0%nat, t. split; [done|]. split; [done|]. lia.
Qed.

Lemma dyn_decodes_nonneg m start ds : dyn_decodes m start ds -> Forall (fun t => 0 <= t) ds.
Proof.
  intros [Hd _]. apply Forall_lookup. intros k t Hk. destruct (Hd k t Hk). lia.
Qed.

(** A slot of the index built from a fresh [dyn_info] holds [NULL] or the
    address of an entry recorded there. *)
Lemma fresh_index_ptr m start ds i :
  dyn_decodes m start ds -> (i < 40)%nat -> nth i (index_all fresh_index start ds) 0 <> 0 ->
  exists k t, ds !! k = Some t /\ slot_of t = Some i /\
    nth i (index_all fresh_index start ds) 0 = start + 16 * Z.of_nat k.
Proof.
  intros Hd Hi. rewrite index_all_nth by (try eapply dyn_decodes_nonneg; eauto).
  destruct (last_hit i start ds) as [q|] eqn:E.
  - intros _. apply last_hit_some in E as (k & t & ? & ? & ->). eauto.
  - unfold fresh_index. rewrite nth_lookup.
    rewrite (proj2 (lookup_replicate dyn_info_size 0 0 i)); [done|].
    split; [done|]. rewrite dyn_info_size_eq. lia.
Qed.

Lemma rebased_tags_nonneg t : t ∈ rebased_tags -> 0 <= t /\ (Z.to_nat t < 40)%nat.
Proof.
  unfold rebased_tags, DT_SYMTAB, DT_STRTAB, DT_RELA, DT_JMPREL, DT_NUM, DT_GNU_HASH_NEW, DT_PLTGOT.
  intros H. repeat (apply elem_of_cons in H as [->|H]; [simpl; lia|]). by apply not_elem_of_nil in H.
Qed.

Lemma rebased_tags_NoDup : NoDup rebased_tags.
Proof. apply (bool_decide_unpack _). vm_compute. reflexivity. Qed.

(** The rebased entries of an index built from a fresh [dyn_info] are
    separated. *)
Lemma fresh_index_separated m start ds :
  dyn_decodes m start ds -> separated (index_all fresh_index start ds) rebased_tags.
Proof.
  intros Hd. split; [apply rebased_tags_NoDup|].
  intros t u Ht Hu Htu Hpt Hpu. unfold tag_ptr in *.
  apply rebased_tags_nonneg in Ht as [Ht0 Ht40], Hu as [Hu0 Hu40].
  destruct (fresh_index_ptr _ _ _ _ Hd Ht40 Hpt) as (k & a & Hk & Ha & ->).
  destruct (fresh_index_ptr _ _ _ _ Hd Hu40 Hpu) as (k' & b & Hk' & Hb & ->).
  destruct (decide (k = k')) as [<-|Hne]; [|lia].
  rewrite Hk in Hk'. injection Hk' as <-. rewrite Ha in Hb. injection Hb as Hb. lia.
Qed.

(** ** One call rebases every pointer exactly once; two calls, twice *)
Lemma fill_info_inv m l ds m' l' :
  dyn_info l = fresh_index -> dyn_decodes m (dyn l) ds -> fill_info m l = Ok (m', l') ->
  l' = set_dyn_info l (index_all fresh_index (dyn l) ds) /\
  rebase_all m (index_all fresh_index (dyn l) ds) (addr l) rebased_tags = Ok m'.
Proof.
  intros Hf Hd H. unfold fill_info in H. rewrite (fill_scan_spec _ _ _ _ Hd), Hf in H.
  cbn [bind] in H. inv_bind. subst. by split.
Qed.

(** C17: After [fill_info] on a fresh record, the [d_ptr] of every pointer entry
    it indexed is its link-time value plus the load address. *)
Theorem fill_info_rebases m l ds m' l' t :
  dyn_info l = fresh_index -> dyn_decodes m (dyn l) ds -> fill_info m l = Ok (m', l') ->
  t ∈ rebased_tags -> dyn_slot l' t <> 0 ->
  exists v, dyn_d_un m (dyn_slot l' t) = Ok v /\ dyn_d_un m' (dyn_slot l' t) = Ok (wrap64 (v + addr l)).
Proof.
  intros Hf Hd H Ht Hp. destruct (fill_info_inv _ _ _ _ _ Hf Hd H) as [-> Hr].
  exact (rebase_all_spec _ _ _ _ _ (fresh_index_separated _ _ _ Hd) Hr t Ht Hp).
Qed.

(** C16: After [fill_info] on a fresh record, each slot of its index holds the
    address of the last entry recorded there, [NULL] if there is none. *)
Theorem fill_info_last_wins m l ds m' l' i :
  dyn_info l = fresh_index -> dyn_decodes m (dyn l) ds -> fill_info m l = Ok (m', l') -> (i < 40)%nat ->
  nth i (dyn_info l') 0 = match last_hit i (dyn l) ds with Some q => q | None => 0 end.
Proof.
  intros Hf Hd H Hi. destruct (fill_info_inv _ _ _ _ _ Hf Hd H) as [-> _]. cbn [dyn_info set_dyn_info].
  rewrite index_all_nth by (try eapply dyn_decodes_nonneg; eauto; by rewrite length_replicate).
  unfold fresh_index. rewrite nth_lookup, lookup_replicate_2 by (rewrite dyn_info_size_eq; lia).
  by destruct (last_hit i (dyn l) ds).
Qed.

(** The rebase leaves every [d_tag] as it was. *)
Lemma fill_info_keeps_tags m l ds m' l' :
  dyn_info l = fresh_index -> dyn_decodes m (dyn l) ds -> fill_info m l = Ok (m', l') ->
  dyn_decodes m' (dyn l) ds.
Proof.
  intros Hf Hd H. destruct (fill_info_inv _ _ _ _ _ Hf Hd H) as [_ Hr].
  assert (Htag : forall j, dyn_d_tag m' (dyn l + 16 * Z.of_nat j) = dyn_d_tag m (dyn l + 16 * Z.of_nat j)).
  { intros j. unfold dyn_d_tag, load_u64. apply load_le_ext. intros i Hi.
    eapply rebase_all_frame; [exact Hr|]. intros t Ht Hp.
    apply rebased_tags_nonneg in Ht as [_ Ht40]. unfold tag_ptr in *.
    destruct (fresh_index_ptr _ _ _ _ Hd Ht40 Hp) as (k & a & _ & _ & ->).
    destruct (decide (j <= k)%nat); [left | right]; cbn in Hi; lia. }
  destruct Hd as [Hd Hn]. split.
  - intros k t Hk. rewrite Htag. by apply Hd.
  - by rewrite Htag.
Qed.

(** Re-indexing an already indexed array gives the same slots. *)
Lemma index_all_again start ds i :
  Forall (fun t => 0 <= t) ds -> (i < 40)%nat ->
  nth i (index_all (index_all fresh_index start ds) start ds) 0 = nth i (index_all fresh_index start ds) 0.
Proof.
  intros Hnn Hi. assert (Hl : length fresh_index = 40%nat).
  { unfold fresh_index. by rewrite length_replicate, dyn_info_size_eq. }
  rewrite (index_all_nth (index_all _ _ _)) by (rewrite ?index_all_length; done).
  rewrite (index_all_nth fresh_index) by done. by destruct (last_hit i start ds).
Qed.

(** C18: Calling [fill_info] a second time on the same record rebases its
    pointers again: they end up at the link-time value plus twice the load
    address.  Only the single call [mapWorker] makes keeps them right. *)
Theorem fill_info_twice m l ds m1 l1 m2 l2 t :
  dyn_info l = fresh_index -> dyn_decodes m (dyn l) ds ->
  fill_info m l = Ok (m1, l1) -> fill_info m1 l1 = Ok (m2, l2) ->
  t ∈ rebased_tags -> dyn_slot l1 t <> 0 ->
  exists v, dyn_d_un m (dyn_slot l1 t) = Ok v /\
            dyn_d_un m2 (dyn_slot l1 t) = Ok (wrap64 (v + 2 * addr l)).
Proof.
  intros Hf Hd H1 H2 Ht Hp.
  pose proof (fill_info_keeps_tags _ _ _ _ _ Hf Hd H1) as Hd1.
  destruct (fill_info_inv _ _ _ _ _ Hf Hd H1) as [-> Hr1].
  destruct (rebase_all_spec _ _ _ _ _ (fresh_index_separated _ _ _ Hd) Hr1 t Ht Hp) as (v & Hv & Hv1).
  unfold fill_info in H2. cbn [dyn dyn_info addr set_dyn_info] in H2.
  rewrite (fill_scan_spec _ _ _ _ Hd1) in H2. cbn [bind] in H2.
  destruct (rebase_all m1 _ (addr l) rebased_tags) as [m2'|] eqn:Hr2; cbn [bind] in H2; [|discriminate].
  injection H2 as <- <-.
  set (info := index_all fresh_index (dyn l) ds) in *.
  pose proof (rebased_tags_nonneg _ Ht) as [_ Ht40].
  assert (Hsame : forall u, u ∈ rebased_tags -> tag_ptr (index_all info (dyn l) ds) u = tag_ptr info u).
  { intros u Hu. apply rebased_tags_nonneg in Hu as [_ Hu40]. unfold tag_ptr, info.
    apply index_all_again; [eapply dyn_decodes_nonneg; eauto | done]. }
  assert (Hsep : separated (index_all info (dyn l) ds) rebased_tags).
  { destruct (fresh_index_separated _ _ _ Hd) as [Hnd Hs]. split; [done|].
    intros u w Hu Hw Huw. rewrite !Hsame by done. by apply Hs. }
  unfold dyn_slot in *. cbn [dyn_info set_dyn_info] in *.
  destruct (rebase_all_spec _ _ _ _ _ Hsep Hr2 t Ht) as (v' & Hv' & Hv2);
    [by rewrite Hsame|].
  rewrite Hsame in Hv', Hv2 by done. unfold tag_ptr in *.
  rewrite Hv1 in Hv'. injection Hv' as <-.
  exists v. split; [done|]. rewrite Hv2. f_equal. rewrite wrap64_add_l. f_equal. lia.
Qed.
