(* ===== verification/Segments.v ===== *)
(** * The segment mapper

    [mapSegment] (src/mapLibrary.c, lines 130-207): the scan of the program
    headers into [struct loadcmd]s (and the [PT_DYNAMIC] address), the
    reservation mapping of the whole span, one mapping per [PT_LOAD]
    segment, and the zero fill of each segment's [.bss] tail.  The kernel's
    [mmap] is modelled by its Linux semantics for [MAP_FIXED | MAP_PRIVATE]:
    it fails ([MAP_FAILED], [EINVAL]) on an unaligned address or offset or an
    empty length, and otherwise replaces the pages of the range with the
    file's bytes (zero to the end of the page where the file ends; a page
    wholly past the end of the file raises [SIGBUS] on access, so it holds
    no usable byte) or with zeros.  A page keeps the protection of the last
    call that mapped it ([prot_at], read from the log of calls), and the
    [.bss] [memset] faults on a page without [PROT_WRITE].  The code never
    looks at what [mmap] returns, so a failed call leaves memory as it was
    and the mapper goes on.  The theorems: what one segment's mapping
    places in memory, the fault of a read-only segment with a [.bss], that
    at an unaligned base no file byte reaches memory, that the mapper never
    reports a failure, and the page-multiple size it returns. *)

From Stdlib Require Import ZArith Lia.
From stdpp Require Import base list gmap.
From S2P Require Import Prelude Memory Elf Library.

Open Scope Z_scope.
Open Scope dl_scope.

(** ** Load commands *)

(** [struct loadcmd]. *)
Record loadcmd := mkLoadcmd {
  mapstart : Z; mapend : Z; dataend : Z; allocend : Z; mapoff : Z; prot : Z }.

(** [prot |= (p_flags & PF_R) >> 2; prot |= p_flags & PF_W;
    prot |= (p_flags & PF_X) << 2]. *)
Definition prot_of (flags : Z) : Z :=
  Z.lor (Z.lor (Z.shiftr (Z.land flags PF_R) 2) (Z.land flags PF_W)) (Z.shiftl (Z.land flags PF_X) 2).

Definition loadcmd_of (ph : Elf64_Phdr) : loadcmd :=
  mkLoadcmd (ALIGN_DOWN (p_vaddr ph) pagesize)
            (ALIGN_UP (wrap64 (p_vaddr ph + p_filesz ph)) pagesize)
            (wrap64 (p_vaddr ph + p_filesz ph))
            (wrap64 (p_vaddr ph + p_memsz ph))
            (ALIGN_DOWN (p_offset ph) pagesize)
            (prot_of (p_flags ph)).

(** The [for (ph = phdr; ph < &phdr[phnum]; ph++) switch (ph->p_type)]
    loop: the load commands in order, and the last [PT_DYNAMIC]'s
    [(addr + p_vaddr, p_memsz / sizeof(Elf64_Dyn))]. *)
Fixpoint scan_phdrs (phs : list Elf64_Phdr) (base : Z) (dynv : option (Z * Z))
    : list loadcmd * option (Z * Z) :=
  match phs with
  | [] => ([], dynv)
  | ph :: rest =>
      if p_type ph =? PT_LOAD then
        let r := scan_phdrs rest base dynv in (loadcmd_of ph :: fst r, snd r)
      else if p_type ph =? PT_DYNAMIC then
        scan_phdrs rest base (Some (wrap64 (p_vaddr ph + base), p_memsz ph / sizeof_Dyn))
      else scan_phdrs rest base dynv
  end.

(** ** The kernel's [mmap] *)

(** [MAP_FIXED] needs a page-aligned address and offset and a non-empty
    length; otherwise the call fails with [EINVAL]. *)
Definition mmap_valid (start len off : Z) : bool :=
  (start mod pagesize =? 0) && (off mod pagesize =? 0) && (0 <? len).

(** The bytes of a file mapping of [len] bytes from offset [off] that the
    file backs: the whole pages that start before the end of the file. *)
Definition file_backed (data : list Z) (len off : Z) : nat :=
  Nat.min (Z.to_nat (ALIGN_UP len pagesize))
          (Z.to_nat ((Z.of_nat (length data) - off + 4095) / 4096 * 4096)).

(** The pages [start .. start + ALIGN_UP(len)) after the call.  A file
    mapping holds the file's bytes from [off], zero to the end of the page
    where the file ends; an access to a page wholly past the end of the
    file raises [SIGBUS], so those pages hold no byte the program can use.
    An anonymous mapping holds zeros. *)
Definition mmap_effect (data : list Z) (m : mem) (c : mmap_call) : mem :=
  match c with
  | MmapFile _ start len _ off =>
      if mmap_valid start len off then
        let n := Z.to_nat (ALIGN_UP len pagesize) in
        let k := file_backed data len off in
        write_bytes (unmap_bytes m (start + Z.of_nat k) (n - k)) start
                    (take k (drop (Z.to_nat off) data ++ replicate k 0))
      else m
  | MmapAnon start len _ =>
      if mmap_valid start len 0 then
        write_bytes m start (replicate (Z.to_nat (ALIGN_UP len pagesize)) 0)
      else m
  end.

(** Whether the kernel accepts a call, and the range and protection of the
    pages it maps. *)
Definition call_valid (c : mmap_call) : bool :=
  match c with
  | MmapFile _ start len _ off => mmap_valid start len off
  | MmapAnon start len _ => mmap_valid start len 0
  end.

Definition call_range (c : mmap_call) : Z * Z :=
  match c with MmapFile _ start len _ _ | MmapAnon start len _ => (start, len) end.

Definition call_prot (c : mmap_call) : Z :=
  match c with MmapFile _ _ _ pr _ | MmapAnon _ _ pr => pr end.

Definition covers (c : mmap_call) (a : Z) : bool :=
  call_valid c && ((call_range c).1 <=? a) && (a <? (call_range c).1 + ALIGN_UP (call_range c).2 pagesize).

(** The protection of the page holding [a]: that of the last accepted call
    that mapped it. *)
Definition prot_at (log : list mmap_call) (a : Z) : option Z :=
  fold_left (fun acc c => if covers c a then Some (call_prot c) else acc) log None.

(** [PROT_WRITE] is bit 1 of the protection. *)
Definition writable (log : list mmap_call) (a : Z) : bool :=
  match prot_at log a with Some p => Z.testbit p 1 | None => false end.

(** [memset(a, 0, n)]: each byte written must be mapped, on a page mapped
    with [PROT_WRITE]; a write to a read-only page faults ([SIGSEGV]). *)
Fixpoint memset0 (log : list mmap_call) (m : mem) (a : Z) (n : nat) : res mem :=
  match n with
  | O => Ok m
  | S n' =>
      if writable log a then m' <- store_byte m a 0 ;; memset0 log m' (a + 1) n'
      else Err (Undef (Segv a))
  end.

(** Issue a call: log it and apply its effect to memory. *)
Definition do_mmap (s : State) (data : list Z) (c : mmap_call) : State :=
  mkState (mmap_effect data (st_mem s) c) (st_libs s) (st_mmaps s ++ [c]).

(** The memory [m'] holds what [m] held, or zero. *)
Definition zero_or_same (m m' : mem) : Prop := forall x, m' !! x = m !! x \/ m' !! x = Some 0.

(** ** [mapSegment] *)

(** The [.bss] block of the second loop's body: zero the rest of the last
    file page with [memset] and map anonymous pages for the remainder. *)
Definition map_bss (data : list Z) (base : Z) (s1 : State) (c : loadcmd) : res State :=
  if allocend c >? dataend c then
    let bss_start := wrap64 (base + dataend c) in
    let bss_end := wrap64 (base + allocend c) in
    let bss_page0 := ALIGN_UP bss_start pagesize in
    let bss_page := if bss_end <? bss_page0 then bss_end else bss_page0 in
    m2 <- (if bss_page >? bss_start then memset0 (st_mmaps s1) (st_mem s1) bss_start (Z.to_nat (bss_page - bss_start))
           else Ok (st_mem s1)) ;;
    let s2 := set_mem s1 m2 in
    if bss_end >? bss_page then
      Ok (do_mmap s2 data (MmapAnon bss_page (wrap64 (ALIGN_UP bss_end pagesize - bss_page)) (prot c)))
    else Ok s2
  else Ok s1.

(** The second loop's body for one load command. *)
Definition map_one (li : nat) (data : list Z) (base : Z) (s : State) (c : loadcmd) : res State :=
  map_bss data base
    (do_mmap s data (MmapFile li (wrap64 (mapstart c + base)) (wrap64 (mapend c - mapstart c)) (prot c) (mapoff c))) c.

Fixpoint map_all (li : nat) (data : list Z) (base : Z) (s : State) (cs : list loadcmd) : res State :=
  match cs with
  | [] => Ok s
  | c :: cs' => s' <- map_one li data base s c ;; map_all li data base s' cs'
  end.

(** [mapSegment(lib, phdr, addr, phnum)] for the record at [li]: the state
    after the calls, and [ALIGN_UP(maplength, pagesize)]. *)
Definition mapSegment (s : State) (li : nat) (phs : list Elf64_Phdr) (base : Z) : res (State * Z) :=
  lib <- lib_at s li ;;
  let '(cmds, dynv) := scan_phdrs phs base None in
  let lib1 := match dynv with Some (d, n) => set_dyn lib d n | None => lib end in
  let s0 := set_lib s li lib1 in
  match cmds, last cmds with
  | c0 :: _, Some cl =>
      let maplength := wrap64 (allocend cl - mapstart c0) in
      data <- of_option (Undef NullDeref) (s_data <$> fs lib1) ;;
      let s1 := do_mmap s0 data (MmapFile li base maplength (prot c0) (mapoff c0)) in
      s2 <- map_all li data base s1 cmds ;;
      Ok (s2, ALIGN_UP maplength pagesize)
  | _, _ => Err (Undef NoLoadSegment)
  end.

(** ** The protection bits *)

Ltac is_ground t := lazymatch t with Z0 => idtac | Zpos _ => idtac | Zneg _ => idtac end.

Ltac btauto_lite :=
  repeat match goal with |- context [Z.testbit ?f ?k] => is_var f; destruct (Z.testbit f k) end; done.

(** Evaluate [Z.testbit] of a constant. *)
Ltac eval_const_bits :=
  repeat match goal with
  | |- context [?a + ?b] => is_ground a; is_ground b;
      let v := eval vm_compute in (a + b) in change (a + b) with v
  | |- context [?a - ?b] => is_ground a; is_ground b;
      let v := eval vm_compute in (a - b) in change (a - b) with v
  | |- context [Z.testbit (Zpos ?c) ?k] =>
      let v := eval vm_compute in (Z.testbit (Zpos c) k) in change (Z.testbit (Zpos c) k) with v
  end.

(** C33: The ELF flag bits R=4, W=2, X=1 become the [mmap] bits READ=1,
    WRITE=2, EXEC=4: bit 0 and bit 2 are exchanged, bit 1 is kept, every
    other bit is dropped. *)
Theorem prot_of_bits flags n :
  0 <= n -> Z.testbit (prot_of flags) n =
    match n with 0 => Z.testbit flags 2 | 1 => Z.testbit flags 1 | 2 => Z.testbit flags 0 | _ => false end.
Proof.
  intros Hn. unfold prot_of, PF_R, PF_W, PF_X.
  rewrite !Z.lor_spec, Z.shiftr_spec, !Z.land_spec by lia.
  assert (n = 0 \/ n = 1 \/ n = 2 \/ 3 <= n) as [->|[->|[->|H3]]] by lia.
  1-2: rewrite Z.shiftl_spec_low by lia; eval_const_bits; btauto_lite.
  - rewrite Z.shiftl_spec, Z.land_spec by lia. eval_const_bits. btauto_lite.
  - rewrite Z.shiftl_spec, Z.land_spec, (Z.bits_above_log2 4), (Z.bits_above_log2 2), (Z.bits_above_log2 1)
      by (cbn; lia).
    rewrite !andb_false_r. destruct n as [|p|p]; try lia. destruct p as [[]|[]|]; cbn in *; lia || done.
Qed.

(** ** Page arithmetic *)

Lemma ALIGN_DOWN_page x : is_u64 x -> ALIGN_DOWN x pagesize = x - x mod 4096.
Proof. intros Hx. exact (ALIGN_DOWN_spec x 12 ltac:(lia) Hx). Qed.

Lemma ALIGN_UP_page x : 0 <= x -> x + 4095 < 2 ^ 64 ->
  ALIGN_UP x pagesize = x + 4095 - (x + 4095) mod 4096.
Proof.
  intros H0 H1. unfold ALIGN_UP. rewrite wrap64_small by (unfold is_u64, pagesize; lia).
  rewrite ALIGN_DOWN_page by (unfold is_u64, pagesize; lia). unfold pagesize. f_equal; f_equal; lia.
Qed.

Lemma round_down_aligned x : (x - x mod 4096) mod 4096 = 0.
Proof. rewrite Zminus_mod, Z.mod_mod, Z.sub_diag by lia. done. Qed.

Lemma ALIGN_UP_aligned x : 0 <= x -> x + 4095 < 2 ^ 64 -> x mod 4096 = 0 -> ALIGN_UP x pagesize = x.
Proof.
  intros H0 H1 H2. rewrite ALIGN_UP_page by done.
  rewrite Zplus_mod, H2, Z.add_0_l, (Z.mod_small 4095) by lia. lia.
Qed.

Lemma ALIGN_UP_nonneg x : 0 <= ALIGN_UP x pagesize.
Proof.
  unfold ALIGN_UP, ALIGN_DOWN. apply Z.land_nonneg. left. apply wrap64_range.
Qed.

(** ** The effect of the calls on memory *)

Lemma page_of_bound a r : 0 <= a -> a - a mod 4096 < r -> a < (r + 4095) / 4096 * 4096.
Proof. intros H0 H1. Z.div_mod_to_equations. lia. Qed.

Lemma mmap_file_lookup data m li start len pr off x :
  0 <= off -> mmap_valid start len off = true ->
  start <= x < start + ALIGN_UP len pagesize ->
  off + (x - start) - (x - start) mod 4096 < Z.of_nat (length data) ->
  mmap_effect data m (MmapFile li start len pr off) !! x = Some (nth (Z.to_nat (off + (x - start))) data 0).
Proof.
  intros Ho Hv Hx Hf. cbn [mmap_effect]. rewrite Hv, write_bytes_lookup, length_take, length_app, length_replicate.
  pose proof (ALIGN_UP_nonneg len).
  assert (Hk : x - start < Z.of_nat (file_backed data len off)).
  { unfold file_backed.
    pose proof (page_of_bound (x - start) (Z.of_nat (length data) - off) ltac:(lia) ltac:(lia)).
    rewrite Nat2Z.inj_min, !Z2Nat.id by lia. lia. }
  rewrite Nat.min_l by lia. rewrite decide_True by lia. rewrite lookup_take_lt by lia.
  destruct (decide (Z.to_nat (x - start) < length (drop (Z.to_nat off) data))%nat) as [Hl|Hl].
  - rewrite lookup_app_l, lookup_drop by done. rewrite nth_lookup, Z2Nat.inj_add by lia.
    rewrite length_drop in Hl. destruct (lookup_lt_is_Some_2 data (Z.to_nat off + Z.to_nat (x - start))) as [v ->];
      [lia | done].
  - rewrite lookup_app_r, lookup_replicate_2 by lia. rewrite length_drop in Hl.
    rewrite nth_overflow; [done|lia].
Qed.

Lemma mmap_anon_lookup data m start len pr x :
  mmap_valid start len 0 = true ->
  mmap_effect data m (MmapAnon start len pr) !! x =
    if decide (start <= x < start + ALIGN_UP len pagesize) then Some 0 else m !! x.
Proof.
  intros Hv. cbn [mmap_effect]. rewrite Hv, write_bytes_lookup, length_replicate.
  rewrite Z2Nat.id by apply ALIGN_UP_nonneg.
  case_decide; [|done]. rewrite lookup_replicate_2; [done | lia].
Qed.

Lemma mmap_invalid data m c : call_valid c = false -> mmap_effect data m c = m.
Proof. destruct c; cbn; by intros ->. Qed.

Lemma prot_at_snoc log c a :
  prot_at (log ++ [c]) a = if covers c a then Some (call_prot c) else prot_at log a.
Proof. unfold prot_at. by rewrite fold_left_app. Qed.

Lemma writable_snoc log c a : covers c a = true -> writable (log ++ [c]) a = Z.testbit (call_prot c) 1.
Proof. intros H. unfold writable. by rewrite prot_at_snoc, H. Qed.

Lemma memset0_spec log m a n m' x :
  memset0 log m a n = Ok m' -> m' !! x = if decide (a <= x < a + Z.of_nat n) then Some 0 else m !! x.
Proof.
  revert m a. induction n as [|n IH]; intros m a Hs; cbn [memset0] in Hs.
  - injection Hs as <-. case_decide; [lia | done].
  - destruct (writable log a); [|discriminate].
    destruct (store_byte m a 0) as [m1|] eqn:E; cbn [bind] in Hs; [|discriminate].
    rewrite (IH _ _ Hs), (store_byte_lookup _ _ _ _ _ E).
    repeat case_decide; subst; try lia; done.
Qed.

(** [memset] succeeds on mapped, writable memory. *)
Lemma memset0_ok log m a n :
  (forall x, a <= x < a + Z.of_nat n -> is_Some (m !! x) /\ writable log x = true) ->
  exists m', memset0 log m a n = Ok m'.
Proof.
  revert m a. induction n as [|n IH]; intros m a Hm; cbn [memset0]; [eauto|].
  destruct (Hm a ltac:(lia)) as [[b Hb] ->]. unfold store_byte. rewrite Hb; cbn [bind].
  apply IH. intros x Hx. rewrite lookup_insert_is_Some'. split; [right|]; apply Hm; lia.
Qed.

(** The [memset] of the [.bss] head, when its bytes are mapped and writable. *)
Lemma memset_step log m bs bp :
  (forall z, bs <= z < bp -> is_Some (m !! z) /\ writable log z = true) ->
  exists m2, (if bp >? bs then memset0 log m bs (Z.to_nat (bp - bs)) else Ok m) = Ok m2 /\
    forall z, m2 !! z = if decide (bs <= z < bp) then Some 0 else m !! z.
Proof.
  intros Hm. destruct (Z.gtb_spec bp bs).
  - destruct (memset0_ok log m bs (Z.to_nat (bp - bs))) as [m2 E]; [intros z Hz; apply Hm; lia|].
    exists m2. split; [done|]. intros z. rewrite (memset0_spec _ _ _ _ _ _ E), Z2Nat.id by lia.
    repeat case_decide; try lia; done.
  - exists m. split; [done|]. intros z. case_decide; [lia|done].
Qed.

(** The [.bss] block leaves every byte below the end of the file data as it
    was and zeroes [base + dataend .. base + allocend), provided the bytes of
    the last file page it clears with [memset] are mapped and writable. *)
Lemma map_bss_zero data base s c :
  0 <= base + dataend c -> dataend c <= allocend c -> base + allocend c + 8192 < 2 ^ 64 ->
  (forall z, base + dataend c <= z < base + allocend c -> z < ALIGN_UP (base + dataend c) pagesize ->
     is_Some (st_mem s !! z) /\ writable (st_mmaps s) z = true) ->
  exists s', map_bss data base s c = Ok s' /\
    (forall z, z < base + dataend c -> st_mem s' !! z = st_mem s !! z) /\
    (forall z, base + dataend c <= z < base + allocend c -> st_mem s' !! z = Some 0).
Proof.
  intros H0 H1 H2 Hm. unfold map_bss.
  destruct (Z.gtb_spec (allocend c) (dataend c)) as [Hgt|Hle].
  2:{ exists s. split; [done|]. split; intros; [done|lia]. }
  rewrite !wrap64_small by (unfold is_u64; lia).
  rewrite ALIGN_UP_page in Hm |- * by lia.
  remember (base + dataend c) as bs eqn:Ebs. remember (base + allocend c) as be eqn:Ebe.
  pose proof (Z.mod_pos_bound (bs + 4095) 4096 ltac:(lia)).
  pose proof (Z.mod_pos_bound (be + 4095) 4096 ltac:(lia)).
  remember (bs + 4095 - (bs + 4095) mod 4096) as bp0 eqn:Ebp0.
  assert (Hbp : exists bp, (if be <? bp0 then be else bp0) = bp /\ bs <= bp <= be /\
                  (bp < be -> bp = bp0) /\ bp <= bp0).
  { destruct (Z.ltb_spec be bp0); [exists be | exists bp0]; (split; [reflexivity|]); lia. }
  destruct Hbp as (bp & -> & Hb1 & Hb2 & Hb3).
  destruct (memset_step (st_mmaps s) (st_mem s) bs bp) as (m2 & -> & Hm2); [intros; apply Hm; lia|].
  cbn [bind].
  destruct (Z.gtb_spec be bp) as [Hlt|Hge]; (eexists; split; [reflexivity|]); cbn [do_mmap st_mem set_mem].
  - specialize (Hb2 Hlt). rewrite ALIGN_UP_page, wrap64_small by (unfold is_u64; lia).
    assert (Hal : (be + 4095 - (be + 4095) mod 4096 - bp) mod 4096 = 0).
    { rewrite Zminus_mod, round_down_aligned, Hb2, Ebp0, round_down_aligned. done. }
    assert (Hv : mmap_valid bp (be + 4095 - (be + 4095) mod 4096 - bp) 0 = true).
    { unfold mmap_valid, pagesize. rewrite Hb2 at 1. rewrite Ebp0, round_down_aligned.
      apply andb_true_intro; split; [done | apply Z.ltb_lt; lia]. }
    split; intros z Hz; rewrite (mmap_anon_lookup _ _ _ _ _ _ Hv), Hm2, ALIGN_UP_aligned by (assumption || lia);
      repeat case_decide; try lia; done.
  - split; intros z Hz; rewrite Hm2; case_decide; try lia; done.
Qed.

Lemma mod_shift b y : b mod 4096 = 0 -> (b + y) mod 4096 = y mod 4096.
Proof. intros H. by rewrite Zplus_mod, H, Z.add_0_l, Z.mod_mod by lia. Qed.

Lemma aligned_sub a b : a mod 4096 = 0 -> b mod 4096 = 0 -> (a - b) mod 4096 = 0.
Proof. intros Ha Hb. by rewrite Zminus_mod, Ha, Hb. Qed.

(** The segment's own [mmap], at a page-aligned base, is accepted and
    maps exactly [base + mapstart .. base + mapend). *)
Lemma seg_call_valid base c :
  0 <= base -> base mod 4096 = 0 -> mapstart c mod 4096 = 0 -> mapend c mod 4096 = 0 ->
  mapoff c mod 4096 = 0 -> 0 <= mapstart c < mapend c -> base + mapend c + 4096 < 2 ^ 64 ->
  mmap_valid (mapstart c + base) (mapend c - mapstart c) (mapoff c) = true /\
  ALIGN_UP (mapend c - mapstart c) pagesize = mapend c - mapstart c.
Proof.
  intros Hb0 Hb Hs He Ho Hse Htop. split.
  - unfold mmap_valid, pagesize. rewrite Z.add_comm, mod_shift, Hs, Ho by done. cbn. apply Z.ltb_lt. lia.
  - apply ALIGN_UP_aligned; [lia | lia | by apply aligned_sub].
Qed.

(** It places the file's bytes from [mapoff] at [base + mapstart ..
    base + mapend), on the pages the file backs. *)
Lemma map_file_lookup li data base s c z :
  0 <= base -> base mod 4096 = 0 -> mapstart c mod 4096 = 0 -> mapend c mod 4096 = 0 ->
  mapoff c mod 4096 = 0 -> 0 <= mapoff c -> 0 <= mapstart c < mapend c -> base + mapend c + 4096 < 2 ^ 64 ->
  base + mapstart c <= z < base + mapend c ->
  mapoff c + (z - (base + mapstart c)) - (z - (base + mapstart c)) mod 4096 < Z.of_nat (length data) ->
  st_mem (do_mmap s data (MmapFile li (wrap64 (mapstart c + base)) (wrap64 (mapend c - mapstart c)) (prot c) (mapoff c))) !! z
  = Some (nth (Z.to_nat (mapoff c + (z - (base + mapstart c)))) data 0).
Proof.
  intros Hb0 Hb Hs He Ho Ho0 Hse Htop Hz Hf. cbn [do_mmap st_mem].
  rewrite !wrap64_small by (unfold is_u64; lia).
  destruct (seg_call_valid base c) as [Hv Hal]; try lia.
  rewrite mmap_file_lookup; [do 3 f_equal; lia | lia | exact Hv | rewrite Hal; lia |].
  replace (z - (mapstart c + base)) with (z - (base + mapstart c)) by lia. exact Hf.
Qed.

(** and gives those pages the segment's protection. *)
Lemma map_file_writable li data base s c z :
  0 <= base -> base mod 4096 = 0 -> mapstart c mod 4096 = 0 -> mapend c mod 4096 = 0 ->
  mapoff c mod 4096 = 0 -> 0 <= mapstart c < mapend c -> base + mapend c + 4096 < 2 ^ 64 ->
  base + mapstart c <= z < base + mapend c ->
  writable (st_mmaps (do_mmap s data (MmapFile li (wrap64 (mapstart c + base)) (wrap64 (mapend c - mapstart c)) (prot c) (mapoff c)))) z
  = Z.testbit (prot c) 1.
Proof.
  intros Hb0 Hb Hs He Ho Hse Htop Hz. cbn [do_mmap st_mmaps]. apply writable_snoc.
  unfold covers; cbn [call_valid call_range fst snd]. rewrite !wrap64_small by (unfold is_u64; lia).
  destruct (seg_call_valid base c) as [-> ->]; lia.
Qed.

(** The fields of a [PT_LOAD] entry's load command, without wrap-around. *)
Lemma loadcmd_of_fields ph :
  0 <= p_vaddr ph -> 0 <= p_offset ph < 2 ^ 64 -> 0 <= p_filesz ph <= p_memsz ph ->
  p_vaddr ph + p_memsz ph + 4096 < 2 ^ 64 ->
  mapstart (loadcmd_of ph) = p_vaddr ph - p_vaddr ph mod 4096 /\
  mapend (loadcmd_of ph) = p_vaddr ph + p_filesz ph + 4095 - (p_vaddr ph + p_filesz ph + 4095) mod 4096 /\
  dataend (loadcmd_of ph) = p_vaddr ph + p_filesz ph /\
  allocend (loadcmd_of ph) = p_vaddr ph + p_memsz ph /\
  mapoff (loadcmd_of ph) = p_offset ph - p_offset ph mod 4096.
Proof.
  intros Hv Ho Hf Htop. cbn [loadcmd_of mapstart mapend dataend allocend mapoff].
  rewrite !wrap64_small by (unfold is_u64; lia).
  rewrite !ALIGN_DOWN_page, ALIGN_UP_page by (unfold is_u64; lia). done.
Qed.

(** [prot |= p_flags & PF_W]: bit 1 ([PROT_WRITE]) of the protection is
    bit 1 ([PF_W]) of the flags. *)
Lemma prot_of_write flags : Z.testbit (prot_of flags) 1 = Z.testbit flags 1.
Proof.
  unfold prot_of, PF_R, PF_W, PF_X.
  rewrite !Z.lor_spec, Z.shiftr_spec, !Z.land_spec, Z.shiftl_spec_low by lia.
  eval_const_bits. btauto_lite.
Qed.

(** The load command of a [PT_LOAD] entry at a page-aligned [base], with
    its fields in exact arithmetic and its page alignment. *)
Lemma loadcmd_of_aligned ph :
  0 <= p_vaddr ph -> 0 <= p_offset ph < 2 ^ 64 -> 0 <= p_filesz ph <= p_memsz ph ->
  p_vaddr ph + p_memsz ph + 4096 < 2 ^ 64 ->
  mapstart (loadcmd_of ph) = p_vaddr ph - p_vaddr ph mod 4096 /\
  mapend (loadcmd_of ph) = p_vaddr ph + p_filesz ph + 4095 - (p_vaddr ph + p_filesz ph + 4095) mod 4096 /\
  dataend (loadcmd_of ph) = p_vaddr ph + p_filesz ph /\
  allocend (loadcmd_of ph) = p_vaddr ph + p_memsz ph /\
  mapoff (loadcmd_of ph) = p_offset ph - p_offset ph mod 4096 /\
  mapstart (loadcmd_of ph) mod 4096 = 0 /\ mapend (loadcmd_of ph) mod 4096 = 0 /\
  mapoff (loadcmd_of ph) mod 4096 = 0.
Proof.
  intros Hv Ho Hf Htop. destruct (loadcmd_of_fields ph) as (-> & -> & -> & -> & ->); [lia..|].
  split_and!; auto using round_down_aligned.
Qed.

(** C15: One [PT_LOAD] entry mapped at a page-aligned [base]: the mapping
    succeeds, the file's bytes [p_offset .. p_offset + p_filesz) appear at
    [base + p_vaddr ..], and the [.bss] tail up to [p_memsz] reads as zero.
    This needs the segment's bytes to lie in the file (a page wholly past
    its end raises [SIGBUS]) and, when part of the [.bss] shares the last
    file page (which the code zeroes with [memset]), the segment to be
    writable ([PF_W]).  The ELF rule that [p_vaddr] and [p_offset] agree
    modulo the page size is what makes the page-rounded mapping line up. *)
Theorem map_one_loads li data base s ph :
  0 <= base -> base mod 4096 = 0 ->
  p_vaddr ph mod 4096 = p_offset ph mod 4096 ->
  0 <= p_vaddr ph -> 0 <= p_offset ph < 2 ^ 64 -> 0 <= p_filesz ph <= p_memsz ph ->
  base + p_vaddr ph + p_memsz ph + 8192 < 2 ^ 64 ->
  p_offset ph + p_filesz ph <= Z.of_nat (length data) ->
  (p_filesz ph < p_memsz ph -> (p_vaddr ph + p_filesz ph) mod 4096 <> 0 -> Z.testbit (p_flags ph) 1 = true) ->
  exists s', map_one li data base s (loadcmd_of ph) = Ok s' /\
    (forall x, p_vaddr ph <= x < p_vaddr ph + p_filesz ph ->
       st_mem s' !! (base + x) = Some (nth (Z.to_nat (p_offset ph + (x - p_vaddr ph))) data 0)) /\
    (forall x, p_vaddr ph + p_filesz ph <= x < p_vaddr ph + p_memsz ph ->
       st_mem s' !! (base + x) = Some 0).
Proof.
  intros Hb0 Hb Hcong Hv Ho Hf Htop Hlen Hw.
  destruct (loadcmd_of_aligned ph) as (Hms & Hme & Hde & Hae & Hmo & Hal1 & Hal2 & Hal3); try lia.
  pose proof (Z.mod_pos_bound (p_vaddr ph) 4096 ltac:(lia)).
  pose proof (Z.mod_pos_bound (p_offset ph) 4096 ltac:(lia)).
  pose proof (Z.mod_pos_bound (p_vaddr ph + p_filesz ph + 4095) 4096 ltac:(lia)).
  pose proof (Z.mod_le (p_vaddr ph) 4096 ltac:(lia) ltac:(lia)).
  pose proof (Z.mod_le (p_offset ph) 4096 ltac:(lia) ltac:(lia)).
  set (c := loadcmd_of ph) in *.
  set (t := do_mmap s data (MmapFile li (wrap64 (mapstart c + base)) (wrap64 (mapend c - mapstart c))
                                 (prot c) (mapoff c))).
  (* a byte of the segment's pages whose page starts before the end of its file data is the file's *)
  assert (Hin : forall z, base + mapstart c <= z < base + mapend c ->
             z - (z - (base + mapstart c)) mod 4096 < base + p_vaddr ph + p_filesz ph ->
             st_mem t !! z = Some (nth (Z.to_nat (mapoff c + (z - (base + mapstart c)))) data 0)).
  { intros z Hz Hp. apply map_file_lookup; try lia. }
  unfold map_one. fold t.
  destruct (map_bss_zero data base t c) as (s' & E & Hlow & Hzero); try lia.
  { intros z Hz1 Hz2. rewrite Hde, ALIGN_UP_page in Hz2 by lia.
    replace (base + (p_vaddr ph + p_filesz ph) + 4095) with (base + (p_vaddr ph + p_filesz ph + 4095)) in Hz2 by lia.
    rewrite mod_shift in Hz2 by done.
    assert (Hpg : (p_vaddr ph + p_filesz ph) mod 4096 <> 0).
    { intros E0. rewrite Hde in Hz1. Z.div_mod_to_equations. lia. }
    split.
    - rewrite Hin; [eauto | lia |]. rewrite Hde in Hz1. Z.div_mod_to_equations. lia.
    - unfold t. rewrite map_file_writable by lia. change (prot c) with (prot_of (p_flags ph)). rewrite prot_of_write.
      apply Hw; [lia | done]. }
  exists s'. split; [exact E|]. split.
  - intros x Hx. rewrite Hlow by lia. rewrite Hin by (Z.div_mod_to_equations; lia). do 3 f_equal. lia.
  - intros x Hx. apply Hzero. lia.
Qed.

(** C14: The code zeroes the part of the [.bss] that shares the last file
    page with [memset] on the pages it has just mapped with the segment's
    own protection: a [PT_LOAD] entry without [PF_W] whose file data ends
    inside a page and which has a [.bss] makes [mapSegment] fault at the
    first byte of that [.bss] (the kernel's loaders make the page writable
    first). *)
Theorem map_one_readonly_bss li data base s ph :
  0 <= base -> base mod 4096 = 0 ->
  0 <= p_vaddr ph -> 0 <= p_offset ph < 2 ^ 64 -> 0 <= p_filesz ph < p_memsz ph ->
  base + p_vaddr ph + p_memsz ph + 8192 < 2 ^ 64 ->
  (p_vaddr ph + p_filesz ph) mod 4096 <> 0 -> Z.testbit (p_flags ph) 1 = false ->
  map_one li data base s (loadcmd_of ph) = Err (Undef (Segv (base + (p_vaddr ph + p_filesz ph)))).
Proof.
  intros Hb0 Hb Hv Ho Hf Htop Hpg Hro.
  destruct (loadcmd_of_aligned ph) as (Hms & Hme & Hde & Hae & Hmo & Hal1 & Hal2 & Hal3); try lia.
  pose proof (Z.mod_pos_bound (p_vaddr ph) 4096 ltac:(lia)).
  pose proof (Z.mod_pos_bound (p_vaddr ph + p_filesz ph + 4095) 4096 ltac:(lia)).
  pose proof (Z.mod_le (p_vaddr ph) 4096 ltac:(lia) ltac:(lia)).
  set (c := loadcmd_of ph) in *.
  assert (Hmid : p_vaddr ph + p_filesz ph < mapend c) by (rewrite Hme; Z.div_mod_to_equations; lia).
  unfold map_one, map_bss. rewrite Hae, Hde, (proj2 (Z.gtb_lt _ _)) by lia.
  rewrite (wrap64_small (base + (p_vaddr ph + p_filesz ph))), (wrap64_small (base + (p_vaddr ph + p_memsz ph)))
    by (unfold is_u64; lia).
  rewrite (ALIGN_UP_page (base + (p_vaddr ph + p_filesz ph))) by lia.
  replace (base + (p_vaddr ph + p_filesz ph) + 4095) with (base + (p_vaddr ph + p_filesz ph + 4095)) by lia.
  rewrite mod_shift by done.
  set (bp0 := base + (p_vaddr ph + p_filesz ph + 4095) - (p_vaddr ph + p_filesz ph + 4095) mod 4096).
  set (bs := base + (p_vaddr ph + p_filesz ph)).
  assert (Hbp : bs < bp0) by (unfold bs, bp0; Z.div_mod_to_equations; lia).
  assert (Hsel : exists bp, (if base + (p_vaddr ph + p_memsz ph) <? bp0 then base + (p_vaddr ph + p_memsz ph) else bp0) = bp /\
                   bs < bp) by (destruct (Z.ltb_spec (base + (p_vaddr ph + p_memsz ph)) bp0); eexists; split; [reflexivity| |reflexivity|]; unfold bs in *; lia).
  destruct Hsel as (bp & -> & Hlt). rewrite (proj2 (Z.gtb_lt _ _) Hlt).
  destruct (Z.to_nat (bp - bs)) eqn:En; [lia|]. cbn [memset0].
  rewrite map_file_writable by (unfold bs; lia). change (prot c) with (prot_of (p_flags ph)).
  by rewrite prot_of_write, Hro.
Qed.

(** ** [mapSegment] as a whole *)

(** The first loop keeps the [PT_LOAD] entries, in order. *)
Lemma scan_phdrs_loads phs base d :
  fst (scan_phdrs phs base d) = loadcmd_of <$> filter (fun ph => p_type ph = PT_LOAD) phs.
Proof.
  revert d. induction phs as [|ph phs IH]; intros d; [done|]. cbn [scan_phdrs].
  rewrite filter_cons. destruct (Z.eqb_spec (p_type ph) PT_LOAD) as [E|E].
  - rewrite decide_True by done. cbn. by rewrite IH.
  - rewrite decide_False by done. destruct (p_type ph =? PT_DYNAMIC); apply IH.
Qed.

Lemma ALIGN_UP_page_multiple x : ALIGN_UP x pagesize mod 4096 = 0.
Proof.
  unfold ALIGN_UP. rewrite ALIGN_DOWN_page by apply wrap64_range. apply round_down_aligned.
Qed.

Lemma memset0_err log m a n e : memset0 log m a n = Err e -> exists u, e = Undef u.
Proof.
  revert m a. induction n as [|n IH]; intros m a H; cbn [memset0] in H; [discriminate|].
  destruct (writable log a); [|injection H as <-; eauto].
  unfold store_byte in H. destruct (m !! a); cbn [bind] in H; [eauto | injection H as <-; eauto].
Qed.

Lemma map_all_err li data base s cs e : map_all li data base s cs = Err e -> exists u, e = Undef u.
Proof.
  revert s. induction cs as [|c cs IH]; intros s H; cbn [map_all] in H; [discriminate|].
  destruct (map_one li data base s c) as [s1|e1] eqn:E; cbn [bind] in H; [eauto|].
  injection H as ->. unfold map_one, map_bss in E.
  repeat match type of E with
  | context [if ?b then _ else _] => destruct b
  | context [bind ?r _] => destruct r eqn:?; cbn [bind] in E
  end; try discriminate.
  all: try injection E as ->; eauto using memset0_err.
Qed.

(** C12: Whatever the kernel answers, [mapSegment] never reports a failed
    mapping: its only failures are faults of the C code itself (no
    [PT_LOAD] entry, a missing stream, a [memset] on an unmapped page). *)
Theorem mapSegment_never_exits s li phs base e :
  mapSegment s li phs base = Err e -> exists u, e = Undef u.
Proof.
  unfold mapSegment. destruct (lib_at s li) as [lib|e0] eqn:El; cbn [bind].
  2:{ intros [= <-]. unfold lib_at, of_option in El. case_match; [discriminate|]. injection El as <-. eauto. }
  destruct (scan_phdrs phs base None) as [cmds dynv].
  destruct cmds as [|c0 cmds']; [intros [= <-]; eauto|].
  destruct (last (c0 :: cmds')) as [cl|]; [|intros [= <-]; eauto].
  destruct (of_option _ _) as [data|e1] eqn:Ed; cbn [bind].
  - destruct (map_all _ _ _ _ _) as [s2|e2] eqn:Em; cbn [bind]; [discriminate|].
    intros [= <-]. by eapply map_all_err.
  - intros [= <-]. unfold of_option in Ed. case_match; [discriminate|]. injection Ed as <-. eauto.
Qed.

(** C32: The size it returns, by which [mapLibrary] moves the next base, is a
    whole number of pages. *)
Lemma mapSegment_size s li phs base s' n :
  mapSegment s li phs base = Ok (s', n) -> 0 <= n /\ n mod 4096 = 0.
Proof.
  unfold mapSegment. intros H. inv_bind.
  destruct (scan_phdrs phs base None) as [cmds dynv].
  destruct cmds as [|c0 cmds']; [discriminate|].
  destruct (last (c0 :: cmds')); [|discriminate]. inv_bind. subst n.
  split; [apply ALIGN_UP_nonneg | apply ALIGN_UP_page_multiple].
Qed.

(** ** At a base that is not page-aligned *)

#[export] Instance zero_or_same_preorder : PreOrder zero_or_same.
Proof.
  split; [intros m x; by left|].
  intros m1 m2 m3 H12 H23 x. destruct (H23 x) as [->|]; [apply H12 | by right].
Qed.

Lemma ALIGN_DOWN_page_aligned x : ALIGN_DOWN x pagesize mod 4096 = 0.
Proof.
  unfold ALIGN_DOWN. change 4096 with (2 ^ 12). rewrite <- Z.land_ones, <- Z.land_assoc by lia.
  change (Z.land (wrap64 (- pagesize)) (Z.ones 12)) with 0. apply Z.land_0_r.
Qed.

Lemma wrap64_mod_page x : wrap64 x mod 4096 = x mod 4096.
Proof. unfold wrap64. apply Z.mod_mod_divide. exists (2 ^ 52). reflexivity. Qed.

Lemma mmap_anon_zero data m start len pr : zero_or_same m (mmap_effect data m (MmapAnon start len pr)).
Proof.
  intros x. destruct (mmap_valid start len 0) eqn:Hv.
  - rewrite mmap_anon_lookup by done. case_decide; auto.
  - left. by rewrite mmap_invalid.
Qed.

(** The [.bss] block writes nothing but zeros. *)
Lemma map_bss_zero_or_same data base s c s' :
  map_bss data base s c = Ok s' -> zero_or_same (st_mem s) (st_mem s').
Proof.
  unfold map_bss. destruct (allocend c >? dataend c); [|intros [= <-]; reflexivity].
  set (bs := wrap64 (base + dataend c)). set (be := wrap64 (base + allocend c)).
  set (bp := if be <? ALIGN_UP bs pagesize then be else ALIGN_UP bs pagesize).
  destruct (if bp >? bs then _ else _) as [m2|] eqn:E; cbn [bind]; [|discriminate].
  assert (H2 : zero_or_same (st_mem s) m2).
  { destruct (bp >? bs) in E; [|injection E as <-; reflexivity].
    intros x. rewrite (memset0_spec _ _ _ _ _ _ E). case_decide; auto. }
  destruct (be >? bp); intros [= <-]; cbn [do_mmap set_mem st_mem]; [|done].
  etransitivity; [exact H2 | apply mmap_anon_zero].
Qed.

(** A segment's file mapping at such a base is refused. *)
Lemma map_one_unaligned li data base s c s' :
  base mod 4096 <> 0 -> mapstart c mod 4096 = 0 ->
  map_one li data base s c = Ok s' -> zero_or_same (st_mem s) (st_mem s').
Proof.
  intros Hb Hc Hm. apply map_bss_zero_or_same in Hm. cbn [do_mmap st_mem] in Hm.
  rewrite mmap_invalid in Hm; [done|]. cbn [call_valid]. unfold mmap_valid. change pagesize with 4096.
  rewrite wrap64_mod_page, mod_shift, (proj2 (Z.eqb_neq _ _) Hb) by done. done.
Qed.

Lemma map_all_unaligned li data base s cs s' :
  base mod 4096 <> 0 -> Forall (fun c => mapstart c mod 4096 = 0) cs ->
  map_all li data base s cs = Ok s' -> zero_or_same (st_mem s) (st_mem s').
Proof.
  intros Hb Hcs. revert s. induction Hcs as [|c cs Hc Hcs IH]; intros s Hm; cbn [map_all] in Hm.
  - by injection Hm as <-.
  - destruct (map_one li data base s c) as [s1|] eqn:E; cbn [bind] in Hm; [|discriminate].
    etransitivity; [exact (map_one_unaligned _ _ _ _ _ _ Hb Hc E) | exact (IH _ Hm)].
Qed.

(** C13: At a base that is not a multiple of the page size the kernel
    refuses every file mapping [mapSegment] asks for ([MAP_FIXED] needs an
    aligned address), and the code does not notice: when it returns, no
    byte of the file has reached memory, which holds what it held or the
    zeros of the [.bss] pages and [memset]. *)
Theorem mapSegment_unaligned s li phs base s' n :
  base mod 4096 <> 0 -> mapSegment s li phs base = Ok (s', n) ->
  forall x, st_mem s' !! x = st_mem s !! x \/ st_mem s' !! x = Some 0.
Proof.
  intros Hb. unfold mapSegment. destruct (lib_at s li) as [lib|] eqn:El; cbn [bind]; [|discriminate].
  pose proof (scan_phdrs_loads phs base None) as Hl.
  destruct (scan_phdrs phs base None) as [cmds dynv]. cbn [fst] in Hl.
  destruct cmds as [|c0 cmds']; [discriminate|]. destruct (last (c0 :: cmds')); [|discriminate].
  destruct (of_option _ _) as [data|]; cbn [bind]; [|discriminate].
  destruct (map_all _ _ _ _ _) as [s2|] eqn:Em; cbn [bind]; [|discriminate]. intros [= <- _].
  apply map_all_unaligned in Em; [| done |].
  - cbn [do_mmap st_mem set_lib] in Em. rewrite mmap_invalid in Em; [exact Em|].
    cbn [call_valid]. unfold mmap_valid. change pagesize with 4096. by rewrite (proj2 (Z.eqb_neq _ _) Hb).
  - rewrite Hl. apply Forall_fmap, Forall_forall. intros ph _. apply ALIGN_DOWN_page_aligned.
Qed.
