(* ===== verification/Paths.v ===== *)
(** * The path resolver

    [openFile], [openDep] and [doFakeLoad] (src/mapLibrary.c, lines 14-99):
    turning a library name into an open stream, through the fixed tables
    [sys_path] and [fake_so], the [RUNPATH] directories split by
    [strtok_r], and fixed 128-byte buffers filled with [strcat].  The two
    tables end with an empty string where the loops expect a [NULL]
    pointer, so a loop that gets past that entry reads beyond the array; the
    model makes that read [Undef ArrayOverrun], and a [strcat] past the
    128th byte [Undef BufferOverflow].  [fopen] is a class: the file
    system's answer for a path. *)

From Stdlib Require Import ZArith Lia String Ascii.
From stdpp Require Import base list sets.
From S2P Require Import Prelude Memory Library.

Open Scope Z_scope.
Open Scope dl_scope.

(** A C string literal, as its bytes. *)
Fixpoint lit (s : string) : list Z :=
  match s with
  | EmptyString => []
  | String c s' => Z.of_nat (nat_of_ascii c) :: lit s'
  end.

(** [fopen(path, "rb")]: the file's contents, or [NULL]. *)
Class FileSystem := { fs_lookup : list Z -> option (list Z) }.

Section WithFS.
Context `{FileSystem}.

Definition fopen (path : list Z) : option stream := (fun d => mkStream d 0) <$> fs_lookup path.

(** A table of [const char *]: [None] is a [NULL] entry. *)
Definition sys_path : list (option (list Z)) :=
  [Some (lit "/usr/lib/x86_64-linux-gnu/"); Some (lit "/lib/x86_64-linux-gnu/"); Some []].

Definition fake_so : list (option (list Z)) :=
  [Some (lit "libc.so.6"); Some (lit "ld-linux.so.2"); Some []].

(** [strcat(buf, src)] into a [char[128]] holding the string [buf]. *)
Definition strcat_buf (buf src : list Z) : res (list Z) :=
  if 128 <? Z.of_nat (length buf + length src) + 1 then Err (Undef BufferOverflow) else Ok (buf ++ src).

(** [strchr(name, '/')]. *)
Definition has_slash (name : list Z) : bool := existsb (Z.eqb 47) name.

(** [for (s = sys_path; *s; s++) { strcat(tmp, *s); strcat(tmp, name); ... }]. *)
Fixpoint openFile_loop (arr : list (option (list Z))) (name : list Z) : res (option stream) :=
  match arr with
  | [] => Err (Undef ArrayOverrun)
  | None :: _ => Ok None
  | Some d :: rest =>
      tmp <- strcat_buf [] d ;;
      tmp <- strcat_buf tmp name ;;
      match fopen tmp with
      | Some f => Ok (Some f)
      | None => openFile_loop rest name
      end
  end.

Definition openFile (name : list Z) : res (option stream) :=
  if has_slash name then Ok (fopen name) else openFile_loop sys_path name.

(** The pieces of [s] between separators, empty ones included. *)
Fixpoint split_on (sep : Z) (s : list Z) : list (list Z) :=
  match s with
  | [] => [[]]
  | c :: s' =>
      let r := split_on sep s' in
      if c =? sep then [] :: r
      else match r with t :: r' => (c :: t) :: r' | [] => [[c]] end
  end.

(** The tokens [strtok_r] returns: the non-empty pieces. *)
Definition strtok_tokens (sep : Z) (s : list Z) : list (list Z) :=
  filter (fun t => t <> []) (split_on sep s).

(** The [strtok_r] loop of [openDep]: [p "/" name] for each directory. *)
Fixpoint try_runpath (toks : list (list Z)) (name : list Z) : res (option stream) :=
  match toks with
  | [] => Ok None
  | p :: rest =>
      tmp <- strcat_buf [] p ;;
      tmp <- strcat_buf tmp (lit "/") ;;
      tmp <- strcat_buf tmp name ;;
      match fopen tmp with
      | Some f => Ok (Some f)
      | None => try_runpath rest name
      end
  end.

Definition openDep (name : list Z) (runpath : option (list Z)) : res (option stream) :=
  match runpath with
  | None => openFile name
  | Some rp =>
      r <- try_runpath (strtok_tokens (Z.of_nat (nat_of_ascii ":")) rp) name ;;
      match r with
      | Some f => Ok (Some f)
      | None => openFile name
      end
  end.

(** [for (s = fake_so; *s; s++) if (strcmp( *s, libname) == 0) return 1;
    return 0;]. *)
Fixpoint doFakeLoad_loop (arr : list (option (list Z))) (libname : list Z) : res bool :=
  match arr with
  | [] => Err (Undef ArrayOverrun)
  | None :: _ => Ok false
  | Some s :: rest => if bool_decide (s = libname) then Ok true else doFakeLoad_loop rest libname
  end.

Definition doFakeLoad (libname : list Z) : res bool := doFakeLoad_loop fake_so libname.

(** The reference: the first of [paths] the file system can open. *)
Fixpoint first_open (paths : list (list Z)) : option stream :=
  match paths with
  | [] => None
  | p :: rest => match fopen p with Some f => Some f | None => first_open rest end
  end.

End WithFS.

(** ** [strtok_r] *)
Fixpoint join_on (sep : Z) (ls : list (list Z)) : list Z :=
  match ls with
  | [] => []
  | [t] => t
  | t :: r => t ++ sep :: join_on sep r
  end.

Section WithFS.
Context `{FileSystem}.

(** [strcat]s that fit. *)
Lemma strcat_buf_fits buf src :
  (length buf + length src < 128)%nat -> strcat_buf buf src = Ok (buf ++ src).
Proof. intros Hl. unfold strcat_buf. destruct (Z.ltb_spec 128 (Z.of_nat (length buf + length src) + 1)); [lia|done]. Qed.

Lemma strcat_buf_overflow buf src :
  (128 <= length buf + length src)%nat -> strcat_buf buf src = Err (Undef BufferOverflow).
Proof. intros Hl. unfold strcat_buf. destruct (Z.ltb_spec 128 (Z.of_nat (length buf + length src) + 1)); [done|lia]. Qed.

#[local] Hint Rewrite strcat_buf_fits strcat_buf_overflow using (cbn; lia) : dl_rw.

(** C8: A name without a [/] of at most 101 bytes is looked up in the two
    system directories and then, through the table's empty last entry, in
    the current directory; when none of the three opens, the loop reads
    past the end of [sys_path]. *)
Theorem openFile_spec name :
  has_slash name = false -> (length name <= 101)%nat ->
  openFile name =
    match first_open [lit "/usr/lib/x86_64-linux-gnu/" ++ name; lit "/lib/x86_64-linux-gnu/" ++ name; name] with
    | Some f => Ok (Some f)
    | None => Err (Undef ArrayOverrun)
    end.
Proof.
  intros Hs Hl. unfold openFile. rewrite Hs. cbn [openFile_loop sys_path first_open].
  autorewrite with dl_rw. cbn [app].
  destruct (fopen (lit "/usr/lib/x86_64-linux-gnu/" ++ name)); [done|].
  destruct (fopen (lit "/lib/x86_64-linux-gnu/" ++ name)); [done|].
  by destruct (fopen name).
Qed.

(** C9: A name of 102 bytes or more overflows [tmp[128]] at the first
    directory, whatever the file system holds. *)
Theorem openFile_overflow name :
  has_slash name = false -> (102 <= length name)%nat -> openFile name = Err (Undef BufferOverflow).
Proof.
  intros Hs Hl. unfold openFile. rewrite Hs. cbn [openFile_loop sys_path].
  rewrite strcat_buf_fits by (cbn; lia). cbn [bind app].
  by rewrite strcat_buf_overflow by (cbn; lia).
Qed.

(** C34: With a [RUNPATH], its directories come first, in order, then the
    system search. *)
Theorem openDep_spec name rp :
  Forall (fun p => (length p + length name < 127)%nat) (strtok_tokens 58 rp) ->
  openDep name (Some rp) =
    match first_open ((fun p => p ++ lit "/" ++ name) <$> strtok_tokens 58 rp) with
    | Some f => Ok (Some f)
    | None => openFile name
    end.
Proof.
  intros Hl. unfold openDep. change (Z.of_nat (nat_of_ascii ":")) with 58.
  induction (strtok_tokens 58 rp) as [|p toks IH]; [done|]. apply Forall_cons in Hl as [Hp Hl].
  cbn [try_runpath fmap list_fmap first_open].
  rewrite strcat_buf_fits by (cbn; lia). cbn [bind app].
  rewrite strcat_buf_fits by (rewrite ?length_app; cbn; lia). cbn [bind].
  rewrite strcat_buf_fits by (rewrite ?length_app; cbn; lia). cbn [bind].
  rewrite <- app_assoc. destruct (fopen (p ++ lit "/" ++ name)); [done|]. by apply IH.
Qed.

(** Every stream the resolver returns is one [fopen] returned. *)
Lemma openFile_opened nm f : openFile nm = Ok (Some f) -> exists p, fopen p = Some f.
Proof.
  unfold openFile. destruct (has_slash nm); [intros [= ?]; eauto|].
  induction sys_path as [|[d|] arr IH]; cbn [openFile_loop]; [discriminate| |discriminate].
  intros Hr. inv_bind. destruct (fopen a0) eqn:E; [injection Hr as <-; eauto | auto].
Qed.

Lemma openDep_opened nm rp f : openDep nm rp = Ok (Some f) -> exists p, fopen p = Some f.
Proof.
  destruct rp as [rp|]; cbn [openDep]; [|apply openFile_opened].
  intros Hr. inv_bind. destruct a as [g|]; [injection Hr as <-|eauto using openFile_opened].
  revert Ha. induction (strtok_tokens _ rp) as [|p toks IH]; cbn [try_runpath]; [discriminate|].
  intros Hr. inv_bind. destruct (fopen a1) eqn:E; [injection Hr as <-; eauto | auto].
Qed.

(** ... and is freshly opened. *)
Lemma fopen_fresh p f : fopen p = Some f -> s_pos f = 0%nat.
Proof. unfold fopen. destruct (fs_lookup p); cbn; [by intros [= <-] | discriminate]. Qed.

Lemma openFile_fresh nm f : openFile nm = Ok (Some f) -> s_pos f = 0%nat.
Proof. intros (p & Hp)%openFile_opened. eauto using fopen_fresh. Qed.

Lemma openDep_fresh nm rp f : openDep nm rp = Ok (Some f) -> s_pos f = 0%nat.
Proof. intros (p & Hp)%openDep_opened. eauto using fopen_fresh. Qed.

End WithFS.

(** C5: Only the three names of [fake_so] (the empty one included) are
    delegated; for any other name the loop reads past the end of the
    table. *)
Theorem doFakeLoad_spec libname :
  doFakeLoad libname =
    if bool_decide (libname ∈ [lit "libc.so.6"; lit "ld-linux.so.2"; []]) then Ok true
    else Err (Undef ArrayOverrun).
Proof.
  unfold doFakeLoad. cbn [doFakeLoad_loop fake_so].
  destruct (decide (libname = lit "libc.so.6")) as [->|N1]; [reflexivity|].
  destruct (decide (libname = lit "ld-linux.so.2")) as [->|N2]; [reflexivity|].
  destruct (decide (libname = [])) as [->|N3]; [reflexivity|].
  rewrite !bool_decide_false by (rewrite ?elem_of_cons, ?elem_of_nil; intuition congruence). done.
Qed.

(** Splitting at the separators loses nothing: the pieces, none of which
    holds the separator, joined back give the string. *)
Lemma split_on_join sep s :
  join_on sep (split_on sep s) = s /\ Forall (fun t => sep ∉ t) (split_on sep s).
Proof.
  induction s as [|c s [IHj IHf]]; [split; [done | apply Forall_singleton, not_elem_of_nil]|].
  cbn [split_on]. destruct (Z.eqb_spec c sep) as [->|Hc].
  - split; [|by constructor; [apply not_elem_of_nil|]].
    destruct (split_on sep s) as [|t r] eqn:E; [destruct s; discriminate|]. by rewrite <- IHj.
  - destruct (split_on sep s) as [|t r] eqn:E; [destruct s; discriminate|].
    apply Forall_cons in IHf as [Ht Hr]. split.
    + rewrite <- IHj. by destruct r.
    + constructor; [|done]. rewrite elem_of_cons. intros [?|?]; [lia | done].
Qed.
