(* ===== verification/Chain.v ===== *)
(** * The chain builder

    [mapWorker] and [mapLibrary] (src/mapLibrary.c, lines 30-41 and
    100-127, 230-352): the loader keeps every library it has opened in one
    chain, [openedHead .. openedTail], here the list [st_libs] (index 0 is
    the head, a [Library *] is an index).  [mapLibrary] opens the root and
    walks the chain, calling [mapWorker] on each record at a base address
    that grows by the size of the previous mapping; [mapWorker] reads the
    ELF and program headers, maps the segments, indexes the dynamic
    section, reads the hash table, and appends each [DT_NEEDED] library not
    yet in the chain, recording the dependencies in the record's search
    list.

    The search list is [malloc]ed with [nneeded + 1] uninitialised slots,
    and the dependency loop declares its counter [need_processed] inside the
    loop body, so every dependency is written to slot 1.  The model keeps
    that: the final list is [self; last dependency; uninitialised ...],
    with no [NULL] terminator, and slot 1 holds the record named by the
    last [DT_NEEDED] entry of the dynamic array (Section [LastWins]).  The
    mapping calls [mapWorker] issues are followed in Section [Log]: every
    record of the chain, the delegated ones too, is mapped at its base. *)

From Stdlib Require Import ZArith Lia.
From stdpp Require Import base list gmap.
From S2P Require Import Prelude Memory Elf Library Hash Reloc Dynamic Segments Paths.

Open Scope Z_scope.
Open Scope dl_scope.

(** ** Helpers *)
(** [fread(buf, n, 1, fs)]: the [n] bytes at the position and the advanced
    stream, or [None] when fewer than [n] remain or [n = 0] ([fread]
    returns 0 then). *)
Definition fread (st : stream) (n : Z) : option (list Z * stream) :=
  if (0 <? n) && (Z.of_nat (s_pos st) + n <=? Z.of_nat (length (s_data st))) then
    Some (take (Z.to_nat n) (drop (s_pos st) (s_data st)), mkStream (s_data st) (s_pos st + Z.to_nat n))
  else None.

(** [isLibraryOpen(name)]: the first record of the chain with that name. *)
Fixpoint isLibraryOpen_from (libs : list Library) (nm : list Z) (i : nat) : option nat :=
  match libs with
  | [] => None
  | l :: rest => if bool_decide (nm = name l) then Some i else isLibraryOpen_from rest nm (S i)
  end.

Definition isLibraryOpen (s : State) (nm : list Z) : option nat := isLibraryOpen_from (st_libs s) nm 0.

(** [openedTail->next = dep_addr; openedTail = dep_addr]. *)
Definition append_lib (s : State) (l : Library) : State :=
  mkState (st_mem s) (st_libs s ++ [l]) (st_mmaps s).

(** [lib->search_list[k] = v], out of range an overrun. *)
Definition set_slot (s : State) (li k : nat) (v : slot) : res State :=
  lib <- lib_at s li ;;
  sl <- of_option (Undef NullDeref) (search_list lib) ;;
  if (k <? length sl)%nat then Ok (set_lib s li (set_search_list lib (<[k := v]> sl)))
  else Err (Undef ArrayOverrun).

(** ** [mapWorker] *)
(** [while (dyn->d_tag != DT_NULL) { if (dyn->d_tag == DT_NEEDED) nneeded++; dyn++; }]. *)
Definition count_step (m : mem) (p : Z) (n : nat) : res (nat + nat) :=
  tag <- dyn_d_tag m p ;;
  if tag =? DT_NULL then Ok (inr n) else Ok (inl (if tag =? DT_NEEDED then S n else n)).

Definition count_needed (m : mem) (d : Z) : res nat := walk (count_step m) (S (size m)) 16 d O.

Section WithFS.
Context `{FileSystem}.

(** The [DT_NEEDED] branch for the entry at [p]: [strdup] the name, reuse
    the record of that name or open the file, append a new record and flag
    it fake; [lib->search_list[++need_processed] = dep_addr] with
    [need_processed] just set to 0. *)
Definition add_needed (m : mem) (strtab : Z) (runpath : option (list Z)) (li : nat) (p : Z) (s : State)
    : res State :=
  v <- dyn_d_un m p ;;
  depname <- strdup m (wrap64 (v + strtab)) ;;
  match isLibraryOpen s depname with
  | Some j => set_slot s li 1 (SlotLib j)
  | None =>
      dep_fs <- openDep depname runpath ;;
      match dep_fs with
      | None => Err (Exit DepOpenFailure)
      | Some f =>
          let j := length (st_libs s) in
          s1 <- set_slot (append_lib s (new_library depname f)) li 1 (SlotLib j) ;;
          fk <- doFakeLoad depname ;;
          if fk then
            dep <- lib_at s1 j ;; Ok (set_lib s1 j (set_fake dep true))
          else Ok s1
      end
  end.

(** One iteration of the dependency loop: [int need_processed = 0;
    if (need_processed == nneeded) break;] then the [DT_NEEDED] branch. *)
Definition needed_step (m : mem) (strtab : Z) (runpath : option (list Z)) (li : nat) (nneeded : nat)
    (p : Z) (s : State) : res (State + State) :=
  tag <- dyn_d_tag m p ;;
  if tag =? DT_NULL then Ok (inr s)
  else if (nneeded =? 0)%nat then Ok (inr s)
  else if tag =? DT_NEEDED then s' <- add_needed m strtab runpath li p s ;; Ok (inl s')
  else Ok (inl s).

Definition needed_loop (m : mem) (strtab : Z) (runpath : option (list Z)) (li : nat) (nneeded : nat)
    (d : Z) (s : State) : res State :=
  walk (needed_step m strtab runpath li nneeded) (S (size m)) 16 d s.

(** [runpath = dyn_info[DT_RUNPATH] ? strdup(d_val + strtab) : NULL]. *)
Definition read_runpath (m : mem) (l : Library) (strtab : Z) : res (option (list Z)) :=
  let p := dyn_slot l DT_RUNPATH in
  if p =? 0 then Ok None
  else v <- dyn_d_un m p ;; r <- strdup m (wrap64 (v + strtab)) ;; Ok (Some r).

(** [mapWorker(lib, addr)] for the record at [li]: the new state and the
    mapped length. *)
Definition mapWorker (s : State) (li : nat) (base : Z) : res (State * Z) :=
  lib0 <- lib_at s li ;;
  let lib := set_addr lib0 base in
  st <- of_option (Undef NullDeref) (fs lib) ;;
  r1 <- of_option (Exit EhdrReadFailure) (fread st 64) ;;
  let phnum := e_phnum (fst r1) in
  r2 <- of_option (Exit PhdrReadFailure) (fread (snd r1) (wrap64 (phnum * 56))) ;;
  let s1 := set_lib s li (set_fs lib (snd r2)) in
  r3 <- mapSegment s1 li (decode_phdrs (fst r2) (Z.to_nat phnum)) base ;;
  let s2 := fst r3 in
  lib2 <- lib_at s2 li ;;
  r4 <- fill_info (st_mem s2) lib2 ;;
  let m3 := fst r4 in
  lib4 <- setup_hash m3 (snd r4) ;;
  strtab <- dyn_ptr m3 lib4 DT_STRTAB ;;
  runpath <- read_runpath m3 lib4 strtab ;;
  nneeded <- count_needed m3 (dyn lib4) ;;
  let s4 := set_lib (set_mem s2 m3) li (set_search_list lib4 (replicate (S nneeded) SlotUninit)) in
  s5 <- needed_loop m3 strtab runpath li nneeded (dyn lib4) s4 ;;
  s6 <- set_slot s5 li 0 (SlotLib li) ;;
  Ok (s6, snd r3).

(** ** [mapLibrary] *)
(** [while (curr != NULL) { curr_addr += mapWorker(curr, curr_addr);
    curr = curr->next; }], with [fuel] a bound on the number of records. *)
Fixpoint map_chain (fuel : nat) (s : State) (cur : nat) (curr_addr : Z) : res State :=
  match fuel with
  | O => Err OutOfFuel
  | S f =>
      if (cur <? length (st_libs s))%nat then
        r <- mapWorker s cur curr_addr ;;
        map_chain f (fst r) (S cur) (wrap64 (curr_addr + snd r))
      else Ok s
  end.

(** [mapLibrary(name, addr)] in a process whose memory is [m]. *)
Definition mapLibrary (fuel : nat) (m : mem) (nm : list Z) (base : Z) : res State :=
  f <- openFile nm ;;
  match f with
  | None => Err (Exit FileNotFound)
  | Some st => map_chain fuel (mkState m [new_library nm st] []) 0 base
  end.

(** One iteration of [mapLibrary]'s loop, as a transition on
    [(chain, curr, curr_addr)]. *)
Inductive chain_step : State * nat * Z -> State * nat * Z -> Prop :=
| chain_map s cur a s' n :
    (cur < length (st_libs s))%nat -> mapWorker s cur a = Ok (s', n) ->
    chain_step (s, cur, a) (s', S cur, wrap64 (a + n)).

End WithFS.

(** The base the loop has given, or will give next, to record [i]. *)
Definition base_of (s : State) (cur : nat) (a : Z) (i : nat) : option Z :=
  if (i =? cur)%nat then Some a else addr <$> st_libs s !! i.

(** ** The size of an image *)
(** [ALIGN_UP(maplength, pagesize)] for a list of load commands. *)
Definition span_of (cmds : list loadcmd) : option Z :=
  match cmds, last cmds with
  | c0 :: _, Some cl => Some (ALIGN_UP (wrap64 (allocend cl - mapstart c0)) pagesize)
  | _, _ => None
  end.

(** What [mapWorker] returns for a file, read from the file alone: the
    page-rounded span of its [PT_LOAD] segments, as the headers right after
    the ELF header describe them. *)
Definition image_span (d : list Z) : option Z :=
  r1 ← fread (mkStream d 0) 64 ;
  r2 ← fread (snd r1) (wrap64 (e_phnum (fst r1) * 56)) ;
  span_of (fst (scan_phdrs (decode_phdrs (fst r2) (Z.to_nat (e_phnum (fst r1)))) 0 None)).

(** ** The dynamic array as a list *)
(** The memory holds the dynamic entries [es] (tag and value) from [d] on. *)
Definition dyn_entries_at (m : mem) (d : Z) (es : list (Z * Z)) : Prop :=
  forall i e, es !! i = Some e ->
    dyn_d_tag m (d + 16 * Z.of_nat i) = Ok e.1 /\ dyn_d_un m (d + 16 * Z.of_nat i) = Ok e.2.

(** The value of the last [DT_NEEDED] entry of [es]. *)
Fixpoint last_needed (es : list (Z * Z)) : option Z :=
  match es with
  | [] => None
  | e :: es' =>
      match last_needed es' with
      | Some v => Some v
      | None => if e.1 =? DT_NEEDED then Some e.2 else None
      end
  end.

(** ** The search list [mapWorker] builds *)
(** Slots [1 .. k] of a list whose slot 1 holds [x]. *)
Definition dep_slots (k : nat) (x : slot) : list slot :=
  match k with O => [] | S k' => x :: replicate k' SlotUninit end.

(** During the dependency loop: the record at [li] keeps its dynamic
    section, memory is [m], and its list is slot 0 unwritten, slot 1 some
    non-[NULL] value, the rest unwritten. *)
Definition sl_inv (m : mem) (li k : nat) (d : Z) (s : State) : Prop :=
  st_mem s = m /\
  exists lib x, lib_at s li = Ok lib /\ dyn lib = d /\ x <> SlotNull /\
    search_list lib = Some (SlotUninit :: dep_slots k x).

(** ** What [mapWorker] changes in the chain *)
(** A record keeps its base address, its name and its file. *)
Definition keeps_id (l l' : Library) : Prop :=
  addr l' = addr l /\ name l' = name l /\ s_data <$> fs l' = s_data <$> fs l.

Definition names (s : State) : list (list Z) := name <$> st_libs s.

(** The record at [j] has a freshly opened file. *)
Definition fresh_at (s : State) (j : nat) : Prop :=
  exists l d, lib_at s j = Ok l /\ fs l = Some (mkStream d 0).

(** [s'] is [s] with the record at [li] changed at most outside its base and
    name, the others before it as they were, and new records appended, of
    names not in the chain when [s] had none twice. *)
Definition grows (li : nat) (s s' : State) : Prop :=
  (forall j, j <> li -> (j < length (st_libs s))%nat -> lib_at s' j = lib_at s j) /\
  (exists suf, names s' = names s ++ suf) /\
  (NoDup (names s) -> NoDup (names s')) /\
  (forall l, lib_at s li = Ok l -> exists l', lib_at s' li = Ok l' /\ keeps_id l l') /\
  (forall j, j <> li -> (length (st_libs s) <= j < length (st_libs s'))%nat -> fresh_at s' j).

(** ** The chain [mapLibrary] builds *)
(** What holds of [(chain, curr, curr_addr)] at each turn of the loop: the
    root is first and names are distinct; the root starts at [base]; each record mapped so far ends
    where the next one starts, its file's [image_span] further; each has its
    search list; the records not yet mapped have fresh files. *)
Definition chain_inv (root : list Z) (base : Z) (c : State * nat * Z) : Prop :=
  let '(s, cur, a) := c in
  names s !! 0%nat = Some root /\ NoDup (names s) /\ (cur <= length (st_libs s))%nat /\ base_of s cur a 0 = Some base /\
  (forall i, (i < cur)%nat -> exists l d n, lib_at s i = Ok l /\ s_data <$> fs l = Some d /\
     image_span d = Some n /\ base_of s cur a (S i) = Some (wrap64 (addr l + n))) /\
  (forall i, (i < cur)%nat -> exists l k x, lib_at s i = Ok l /\ x <> SlotNull /\
     search_list l = Some (SlotLib i :: dep_slots k x)) /\
  (forall j, (cur <= j < length (st_libs s))%nat -> fresh_at s j).

Lemma lib_at_lt s i l : lib_at s i = Ok l -> (i < length (st_libs s))%nat.
Proof. unfold lib_at, of_option. case_match eqn:E; [|discriminate]. intros _. by apply lookup_lt_Some in E. Qed.

Lemma lib_at_append_lt s l i : (i < length (st_libs s))%nat -> lib_at (append_lib s l) i = lib_at s i.
Proof. intros Hi. unfold lib_at, append_lib. cbn. by rewrite lookup_app_l. Qed.

Lemma lib_at_append_new s l : lib_at (append_lib s l) (length (st_libs s)) = Ok l.
Proof. unfold lib_at, append_lib. cbn. by rewrite lookup_app_r, Nat.sub_diag. Qed.

#[local] Hint Rewrite lib_at_append_lt lib_at_append_new using (try lia; done) : dl_rw.

Lemma set_slot_ok s li k v s' :
  set_slot s li k v = Ok s' ->
  exists lib sl, lib_at s li = Ok lib /\ search_list lib = Some sl /\ (k < length sl)%nat /\
    s' = set_lib s li (set_search_list lib (<[k := v]> sl)).
Proof.
  unfold set_slot. intros H. inv_bind. apply of_option_ok in Ha0.
  destruct (Nat.ltb_spec k (length a0)); [|discriminate]. injection H as <-. eauto 7.
Qed.

(** Writing a dependency to slot 1 keeps the shape. *)
Lemma sl_inv_set_slot m li k d s j s' :
  (1 <= k)%nat -> sl_inv m li k d s -> set_slot s li 1 (SlotLib j) = Ok s' -> sl_inv m li k d s'.
Proof.
  intros Hk (Hm & lib & x & Hl & Hd & Hx & Hsl) Hs.
  destruct (set_slot_ok _ _ _ _ _ Hs) as (lib' & sl & Hl' & Hsl' & _ & ->).
  rewrite Hl in Hl'. injection Hl' as <-. rewrite Hsl in Hsl'. injection Hsl' as <-.
  split; [done|]. exists (set_search_list lib (<[1%nat := SlotLib j]> (SlotUninit :: dep_slots k x))), (SlotLib j).
  rewrite lib_at_set_lib_eq by eauto using lib_at_lt.
  destruct k as [|k]; [lia|]. done.
Qed.

Lemma sl_inv_append m li k d s l : sl_inv m li k d s -> sl_inv m li k d (append_lib s l).
Proof.
  intros (Hm & lib & x & Hl & Hrest). split; [done|]. exists lib, x.
  rewrite lib_at_append_lt by eauto using lib_at_lt. auto.
Qed.

Lemma sl_inv_set_other m li k d s j l :
  j <> li -> sl_inv m li k d s -> sl_inv m li k d (set_lib s j l).
Proof.
  intros Hj (Hm & lib & x & Hl & Hrest). split; [done|]. exists lib, x.
  rewrite lib_at_set_lib_ne by done. auto.
Qed.

Section Needed.
Context `{FileSystem}.

Lemma add_needed_inv m strtab rp li k d p s s' :
  (1 <= k)%nat -> sl_inv m li k d s -> add_needed m strtab rp li p s = Ok s' -> sl_inv m li k d s'.
Proof.
  intros Hk Hi Ha. unfold add_needed in Ha. inv_bind.
  destruct (isLibraryOpen s a0) as [j|]; [eauto using sl_inv_set_slot|].
  inv_bind. destruct a1 as [f|]; [|discriminate]. inv_bind.
  assert (Hli : (li < length (st_libs s))%nat) by (destruct Hi as (_ & ? & ? & Hl & _); eauto using lib_at_lt).
  assert (Hs1 : sl_inv m li k d a1) by eauto using sl_inv_set_slot, sl_inv_append.
  destruct a2; inv_bind; [|by subst].
  subst s'. apply sl_inv_set_other; [lia|done].
Qed.

(** The dependency loop keeps the shape. *)
Lemma needed_loop_inv m strtab rp li k d s s' :
  sl_inv m li k d s -> needed_loop m strtab rp li k d s = Ok s' -> sl_inv m li k d s'.
Proof.
  unfold needed_loop. apply walk_invariant.
  - intros p t t' Ht Hs. unfold needed_step in Hs. inv_bind.
    destruct (a =? DT_NULL); [discriminate|]. destruct (Nat.eqb_spec k 0); [discriminate|].
    destruct (a =? DT_NEEDED); inv_bind; [|by subst].
    subst t'. eapply add_needed_inv; eauto. lia.
  - intros p t x Ht Hs. unfold needed_step in Hs.
    destruct (dyn_d_tag m p) as [tag|]; cbn [bind] in Hs; [|discriminate].
    destruct (tag =? DT_NULL); [by injection Hs as <-|]. destruct (k =? 0)%nat; [by injection Hs as <-|].
    destruct (tag =? DT_NEEDED); inv_bind; discriminate.
Qed.

End Needed.

#[export] Instance keeps_id_preorder : PreOrder keeps_id.
Proof. split; [by intros l | intros l1 l2 l3 (? & ? & ?) (? & ? & ?); split_and!; congruence]. Qed.

Lemma names_length s : length (names s) = length (st_libs s).
Proof. apply length_fmap. Qed.

#[export] Instance grows_preorder li : PreOrder (grows li).
Proof.
  split.
  - intros s. split_and!; [done | exists []; by rewrite app_nil_r | done | | intros; lia].
    intros l ->. exists l. split; [done | reflexivity].
  - intros s t u (F1 & [suf1 N1] & D1 & K1 & R1) (F2 & [suf2 N2] & D2 & K2 & R2).
    assert (L1 := f_equal length N1). assert (L2 := f_equal length N2).
    rewrite length_app, !names_length in L1, L2. split_and!.
    + intros j Hj Hl. rewrite F2, F1; [done..|]. lia.
    + exists (suf1 ++ suf2). by rewrite N2, N1, app_assoc.
    + auto.
    + intros l Hl. destruct (K1 _ Hl) as (l' & Hl' & Hk). destruct (K2 _ Hl') as (l'' & ? & ?).
      exists l''. split; [done | etransitivity; eauto].
    + intros j Hj Hr. destruct (Nat.lt_ge_cases j (length (st_libs t))) as [Ht|Ht]; [|apply R2; lia].
      destruct (R1 j Hj ltac:(lia)) as (l & d & Hl & Hf). exists l, d. rewrite F2 by done. auto.
Qed.

Lemma names_set_lib s i l l' : lib_at s i = Ok l -> name l' = name l -> names (set_lib s i l') = names s.
Proof.
  unfold names, lib_at, set_lib, of_option. cbn. case_match eqn:E; [|discriminate]. intros [= ->] Hn.
  rewrite list_fmap_insert, Hn. apply list_insert_id. by rewrite list_lookup_fmap, E.
Qed.

Lemma grows_set_lib li s l l' : lib_at s li = Ok l -> keeps_id l l' -> grows li s (set_lib s li l').
Proof.
  intros Hl (Ha & Hn & Hf). unfold grows. rewrite (names_set_lib _ _ _ _ Hl Hn). split_and!.
  - intros j Hj _. by rewrite lib_at_set_lib_ne by done.
  - exists []. by rewrite app_nil_r.
  - done.
  - intros l0 Hl0. rewrite Hl in Hl0. injection Hl0 as <-. exists l'.
    rewrite lib_at_set_lib_eq by eauto using lib_at_lt. by split.
  - rewrite set_lib_libs_length. intros; lia.
Qed.

Lemma grows_set_mem li s m : grows li s (set_mem s m).
Proof.
  split; [done|]. split; [exists []; symmetry; apply app_nil_r|]. split; [done|]. split; [|cbn; intros; lia].
  intros l Hl. exists l. split; [done | reflexivity].
Qed.

Lemma set_slot_grows s li k v s' : set_slot s li k v = Ok s' -> grows li s s'.
Proof.
  intros Hs. destruct (set_slot_ok _ _ _ _ _ Hs) as (lib & sl & Hl & _ & _ & ->).
  apply (grows_set_lib _ _ _ _ Hl). by split.
Qed.

Lemma isLibraryOpen_from_none libs nm i : isLibraryOpen_from libs nm i = None -> nm ∉ name <$> libs.
Proof.
  revert i. induction libs as [|l libs IH]; intros i; cbn; [intros _; apply not_elem_of_nil|].
  case_bool_decide; [discriminate|]. intros Hn. rewrite elem_of_cons. intros [->|?]; [done | by eapply IH].
Qed.

Lemma grows_append li s l d :
  name l ∉ names s -> fs l = Some (mkStream d 0) -> grows li s (append_lib s l).
Proof.
  intros Hn Hf. split; [|split; [|split; [|split]]].
  - intros j _ Hj. by apply lib_at_append_lt.
  - exists [name l]. unfold names, append_lib. cbn. by rewrite fmap_app.
  - unfold names, append_lib. cbn. rewrite fmap_app. intros Hd. apply NoDup_app. split; [done|].
    split; [|apply NoDup_singleton]. intros x Hx ->%list_elem_of_singleton. contradiction.
  - intros l0 Hl0. exists l0. rewrite lib_at_append_lt by eauto using lib_at_lt. split; [done | reflexivity].
  - intros j _ Hj. cbn in Hj. rewrite length_app in Hj. cbn in Hj. assert (j = length (st_libs s)) as -> by lia.
    exists l, d. by rewrite lib_at_append_new.
Qed.

(** Changing a record appended since [s], keeping its name. *)
Lemma grows_set_new li s t j d d' :
  grows li s t -> (length (st_libs s) <= j)%nat -> lib_at t j = Ok d -> name d' = name d -> fs d' = fs d ->
  grows li s (set_lib t j d').
Proof.
  intros (F & [suf N] & D & K & R) Hj Hd Hn Hf. split; [|split; [|split; [|split]]].
  - intros j' Hj' Hl. rewrite lib_at_set_lib_ne by lia. auto.
  - exists suf. by rewrite (names_set_lib _ _ _ _ Hd Hn).
  - by rewrite (names_set_lib _ _ _ _ Hd Hn).
  - intros l Hl. destruct (K _ Hl) as (l' & Hl' & Hk). exists l'.
    apply lib_at_lt in Hl. by rewrite lib_at_set_lib_ne by lia.
  - intros j' Hj' Hr. rewrite set_lib_libs_length in Hr.
    destruct (R j' Hj' Hr) as (l & e & Hl & Hfl).
    destruct (decide (j' = j)) as [->|Hne].
    + rewrite Hd in Hl. injection Hl as <-. exists d', e.
      rewrite lib_at_set_lib_eq by eauto using lib_at_lt. by rewrite Hf.
    + exists l, e. by rewrite lib_at_set_lib_ne by done.
Qed.

Lemma grows_same_libs li s t : st_libs t = st_libs s -> grows li s t.
Proof.
  intros E. split; [|split; [|split; [|split]]].
  - intros j _ _. unfold lib_at. by rewrite E.
  - exists []. unfold names. by rewrite E, app_nil_r.
  - unfold names. by rewrite E.
  - intros l Hl. exists l. unfold lib_at in *. rewrite E. split; [done | reflexivity].
  - rewrite E. intros; lia.
Qed.

Lemma map_all_libs li data base s cs s' : map_all li data base s cs = Ok s' -> st_libs s' = st_libs s.
Proof.
  revert s. induction cs as [|c cs IH]; intros s H; cbn [map_all] in H; inv_bind; [by subst|].
  rewrite (IH _ H). unfold map_one, map_bss in Ha.
  repeat match type of Ha with
  | context [if ?b then _ else _] => destruct b
  | context [bind ?r _] => destruct r eqn:?; cbn [bind] in Ha
  end; try discriminate; inv_bind; by subst.
Qed.

Lemma mapSegment_grows s li phs base s' n : mapSegment s li phs base = Ok (s', n) -> grows li s s'.
Proof.
  unfold mapSegment. intros H. inv_bind. destruct (scan_phdrs phs base None) as [cmds dynv].
  destruct cmds as [|c0 cmds']; [discriminate|]. destruct (last (c0 :: cmds')); [|discriminate].
  inv_bind. subst s'.
  transitivity (set_lib s li (match dynv with Some (d, n) => set_dyn a d n | None => a end)).
  - apply (grows_set_lib _ _ _ _ Ha). destruct dynv as [[]|]; by split.
  - apply grows_same_libs. rewrite (map_all_libs _ _ _ _ _ _ Ha1). done.
Qed.

Lemma scan_phdrs_base phs b b' d d' : fst (scan_phdrs phs b d) = fst (scan_phdrs phs b' d').
Proof. by rewrite !scan_phdrs_loads. Qed.

Lemma mapSegment_span s li phs base s' n :
  mapSegment s li phs base = Ok (s', n) -> span_of (fst (scan_phdrs phs 0 None)) = Some n.
Proof.
  unfold mapSegment. intros H. inv_bind. rewrite (scan_phdrs_base _ 0 base None None).
  destruct (scan_phdrs phs base None) as [cmds dynv]. cbn [fst].
  destruct cmds as [|c0 cmds']; [discriminate|]. unfold span_of.
  destruct (last (c0 :: cmds')); [|discriminate]. inv_bind. by subst n.
Qed.

Lemma fread_data st n b st' : fread st n = Some (b, st') -> s_data st' = s_data st.
Proof. unfold fread. case_match; [|discriminate]. by intros [= _ <-]. Qed.

Lemma fill_info_id m l m' l' : fill_info m l = Ok (m', l') -> keeps_id l l'.
Proof. unfold fill_info. intros H. inv_bind. subst. by split. Qed.

Lemma setup_hash_id m l l' : setup_hash m l = Ok l' -> keeps_id l l'.
Proof. unfold setup_hash. intros H. inv_bind. subst l'. by split. Qed.

Section Worker.
Context `{FileSystem}.

Lemma add_needed_grows m strtab rp li p s s' :
  add_needed m strtab rp li p s = Ok s' -> grows li s s'.
Proof.
  intros Ha. unfold add_needed in Ha. inv_bind.
  destruct (isLibraryOpen s a0) as [j|] eqn:Eo; [eauto using set_slot_grows|].
  inv_bind. destruct a1 as [f|]; [|discriminate]. inv_bind.
  assert (G : grows li s a1).
  { etransitivity; [apply (grows_append _ _ (new_library a0 f) (s_data f)) | eapply set_slot_grows; eauto].
    - by apply isLibraryOpen_from_none in Eo.
    - cbn. apply openDep_fresh in Ha2. destruct f; cbn in *. by subst. }
  destruct a2; inv_bind; [|by subst].
  subst s'. eapply grows_set_new; eauto.
Qed.

Lemma needed_loop_grows m strtab rp li k d s s' :
  needed_loop m strtab rp li k d s = Ok s' -> grows li s s'.
Proof.
  unfold needed_loop. apply (walk_invariant _ (grows li s) (grows li s)); [| |reflexivity].
  - intros p t t' Ht Hs. unfold needed_step in Hs. inv_bind.
    destruct (a =? DT_NULL); [discriminate|]. destruct (k =? 0)%nat; [discriminate|].
    destruct (a =? DT_NEEDED); inv_bind; [|by subst].
    subst t'. etransitivity; [exact Ht | eauto using add_needed_grows].
  - intros p t x Ht Hs. unfold needed_step in Hs.
    destruct (dyn_d_tag m p) as [tag|]; cbn [bind] in Hs; [|discriminate].
    destruct (tag =? DT_NULL); [by injection Hs as <-|]. destruct (k =? 0)%nat; [by injection Hs as <-|].
    destruct (tag =? DT_NEEDED); inv_bind; discriminate.
Qed.

(** [mapWorker] leaves the record's search list as [self], then one slot
    per [DT_NEEDED] entry of its dynamic section, of which only the first
    has been written: no slot is [NULL]. *)
Theorem mapWorker_search_list s li base s' n :
  mapWorker s li base = Ok (s', n) ->
  exists lib k x, lib_at s' li = Ok lib /\ count_needed (st_mem s') (dyn lib) = Ok k /\
    x <> SlotNull /\ search_list lib = Some (SlotLib li :: dep_slots k x).
Proof.
  unfold mapWorker. intros Hw. inv_bind. subst s'.
  assert (Hi : sl_inv a5.1 li a9 (dyn a6)
     (set_lib (set_mem a3.1 a5.1) li (set_search_list a6 (replicate (S a9) SlotUninit)))).
  { split; [done|]. exists (set_search_list a6 (replicate (S a9) SlotUninit)), SlotUninit.
    rewrite lib_at_set_lib_eq by (apply lib_at_lt in Ha4; done). by destruct a9. }
  destruct (needed_loop_inv _ _ _ _ _ _ _ _ Hi Ha10) as (Hm & lib & x & Hl & Hd & Hx & Hsl).
  destruct (set_slot_ok _ _ _ _ _ Ha11) as (lib' & sl & Hl' & Hsl' & _ & ->).
  rewrite Hl in Hl'. injection Hl' as <-. rewrite Hsl in Hsl'. injection Hsl' as <-.
  exists (set_search_list lib (<[0%nat := SlotLib li]> (SlotUninit :: dep_slots a9 x))), a9, x.
  rewrite lib_at_set_lib_eq by (eapply lib_at_lt; eauto).
  cbn [st_mem set_lib dyn set_search_list]. rewrite Hm, Hd. auto.
Qed.
(** C1: The search list [mapWorker] leaves has no [NULL] terminator: it starts
    with the record itself, no slot is [NULL], and every slot from index 2
    on is uninitialised. *)
Corollary mapWorker_no_terminator s li base s' n :
  mapWorker s li base = Ok (s', n) ->
  exists l sl, lib_at s' li = Ok l /\ search_list l = Some sl /\ sl !! 0%nat = Some (SlotLib li) /\
    SlotNull ∉ sl /\ forall i, (2 <= i < length sl)%nat -> sl !! i = Some SlotUninit.
Proof.
  intros Hw. destruct (mapWorker_search_list _ _ _ _ _ Hw) as (l & k & x & Hl & _ & Hx & Hsl).
  exists l, (SlotLib li :: dep_slots k x). split_and!; [done..| |].
  - rewrite elem_of_cons. intros [[=]|Hin]. destruct k as [|k]; cbn in Hin; [by apply not_elem_of_nil in Hin|].
    apply elem_of_cons in Hin as [<-|Hin]; [done|]. by apply elem_of_replicate in Hin as [[=] _].
  - intros i Hi. destruct k as [|k]; cbn in Hi; [lia|]. rewrite length_replicate in Hi.
    destruct i as [|[|i]]; [lia..|]. cbn. apply lookup_replicate_2. lia.
Qed.

(** [mapWorker] sets the record's base address, leaves every other record
    of the chain as it was, and appends records whose names are new. *)
Theorem mapWorker_frame s li base s' n :
  mapWorker s li base = Ok (s', n) ->
  (forall j, j <> li -> (j < length (st_libs s))%nat -> lib_at s' j = lib_at s j) /\
  (exists suf, names s' = names s ++ suf) /\ (NoDup (names s) -> NoDup (names s')) /\
  (forall j, (length (st_libs s) <= j < length (st_libs s'))%nat -> fresh_at s' j) /\
  exists l l', lib_at s li = Ok l /\ lib_at s' li = Ok l' /\ addr l' = base /\ name l' = name l /\
    s_data <$> fs l' = s_data <$> fs l.
Proof.
  unfold mapWorker. intros Hw. inv_bind. subst s'.
  destruct a3 as [s2 n2]. cbn [fst snd] in *.
  assert (G : grows li (set_lib s li (set_fs (set_addr a base) a2.2)) a11).
  { transitivity s2; [eapply mapSegment_grows; eauto|].
    transitivity (set_mem s2 a5.1); [apply grows_set_mem|].
    transitivity (set_lib (set_mem s2 a5.1) li (set_search_list a6 (replicate (S a9) SlotUninit))).
    - apply (grows_set_lib _ _ _ _ Ha4). transitivity a5.2; [|transitivity a6].
      + destruct a5; eauto using fill_info_id.
      + eauto using setup_hash_id.
      + by split.
    - transitivity a10; eauto using needed_loop_grows, set_slot_grows. }
  destruct G as (F & [suf N] & D & K & R).
  assert (Hli : (li < length (st_libs s))%nat) by eauto using lib_at_lt.
  rewrite (names_set_lib _ _ _ _ Ha) in N, D by done. rewrite set_lib_libs_length in R.
  split; [|split; [eauto|split; [auto|split; [intros j Hj; apply R; lia|]]]].
  - intros j Hj Hl. rewrite F by (rewrite ?set_lib_libs_length; done). by rewrite lib_at_set_lib_ne by done.
  - destruct (K (set_fs (set_addr a base) a2.2)) as (l' & Hl' & Ha' & Hn' & Hf').
    { by rewrite lib_at_set_lib_eq. }
    exists a, l'. split_and!; auto. rewrite Hf'. cbn.
    apply of_option_ok in Ha0, Ha1, Ha2. cbn in Ha0. rewrite Ha0. cbn.
    destruct a1, a2. cbn [snd] in *. by rewrite (fread_data _ _ _ _ Ha2), (fread_data _ _ _ _ Ha1).
Qed.
(** The size [mapWorker] returns is the file's [image_span]. *)
Theorem mapWorker_size s li base s' n l d :
  lib_at s li = Ok l -> fs l = Some (mkStream d 0) ->
  mapWorker s li base = Ok (s', n) -> image_span d = Some n.
Proof.
  intros Hl Hf. unfold mapWorker. rewrite Hl. cbn [bind]. intros Hw. inv_bind.
  apply of_option_ok in Ha, Ha0, Ha1. cbn in Ha. rewrite Hf in Ha. injection Ha as <-.
  unfold image_span. rewrite Ha0. cbn [mbind option_bind]. rewrite Ha1. cbn [mbind option_bind].
  destruct a2 as [s2 n2]. cbn [fst snd] in *. subst n. eapply mapSegment_span; eauto.
Qed.

End Worker.

Lemma base_of_lib s cur a i l : i <> cur -> lib_at s i = Ok l -> base_of s cur a i = Some (addr l).
Proof.
  intros Hi Hl. unfold base_of, lib_at in *. apply of_option_ok in Hl.
  destruct (Nat.eqb_spec i cur); [done|]. by rewrite Hl.
Qed.

Lemma base_of_cur s cur a : base_of s cur a cur = Some a.
Proof. unfold base_of. by rewrite Nat.eqb_refl. Qed.

(** A mapped record's base is the one the loop had for it. *)
Lemma base_of_step s cur a s' a' i :
  (i <= cur)%nat -> (cur < length (st_libs s))%nat ->
  (forall j, j <> cur -> (j < length (st_libs s))%nat -> lib_at s' j = lib_at s j) ->
  (exists l', lib_at s' cur = Ok l' /\ addr l' = a) ->
  base_of s' (S cur) a' i = base_of s cur a i.
Proof.
  intros Hi Hc F (l' & Hl' & Ha). destruct (decide (i = cur)) as [->|Hne].
  - rewrite base_of_cur, (base_of_lib s' (S cur) a' cur l' ltac:(lia) Hl'). by subst.
  - unfold base_of. destruct (Nat.eqb_spec i (S cur)); [lia|]. destruct (Nat.eqb_spec i cur); [lia|].
    specialize (F i Hne ltac:(lia)). unfold lib_at in F.
    destruct (st_libs s' !! i), (st_libs s !! i); cbn in F; congruence.
Qed.

Section Log.
Context `{FileSystem}.

(** ** The mapping calls issued *)
(** Only [mapSegment] issues calls; the rest of [mapWorker] leaves the log
    as it is. *)
Lemma set_slot_mmaps s li k v s' : set_slot s li k v = Ok s' -> st_mmaps s' = st_mmaps s.
Proof. intros (lib & sl & _ & _ & _ & ->)%set_slot_ok. done. Qed.

Lemma add_needed_mmaps m strtab rp li p s s' :
  add_needed m strtab rp li p s = Ok s' -> st_mmaps s' = st_mmaps s.
Proof.
  intros Ha. unfold add_needed in Ha.
  destruct (dyn_d_un m p) as [v|]; cbn [bind] in Ha; [|discriminate].
  destruct (strdup m _) as [dn|]; cbn [bind] in Ha; [|discriminate].
  destruct (isLibraryOpen s dn) as [j|]; [by apply set_slot_mmaps in Ha|].
  destruct (openDep dn rp) as [[f|]|]; cbn [bind] in Ha; try discriminate.
  destruct (set_slot _ _ _ _) as [s1|] eqn:E1; cbn [bind] in Ha; [|discriminate].
  apply set_slot_mmaps in E1.
  destruct (doFakeLoad dn) as [[]|]; cbn [bind] in Ha; [| by injection Ha as <- | discriminate].
  destruct (lib_at s1 _); cbn [bind] in Ha; [|discriminate]. by injection Ha as <-.
Qed.

Lemma needed_loop_mmaps m strtab rp li k d s s' :
  needed_loop m strtab rp li k d s = Ok s' -> st_mmaps s' = st_mmaps s.
Proof.
  unfold needed_loop.
  apply (walk_invariant _ (fun t => st_mmaps t = st_mmaps s) (fun t => st_mmaps t = st_mmaps s)); [| |done].
  - intros p t t' Ht Hs. unfold needed_step in Hs.
    destruct (dyn_d_tag m p) as [tag|]; cbn [bind] in Hs; [|discriminate].
    destruct (tag =? DT_NULL); [discriminate|]. destruct (k =? 0)%nat; [discriminate|].
    destruct (tag =? DT_NEEDED); [|by injection Hs as <-].
    destruct (add_needed _ _ _ _ _ _) as [t1|] eqn:E; cbn [bind] in Hs; [|discriminate].
    injection Hs as <-. rewrite (add_needed_mmaps _ _ _ _ _ _ _ E). done.
  - intros p t x Ht Hs. unfold needed_step in Hs.
    destruct (dyn_d_tag m p) as [tag|]; cbn [bind] in Hs; [|discriminate].
    destruct (tag =? DT_NULL); [by injection Hs as <-|]. destruct (k =? 0)%nat; [by injection Hs as <-|].
    destruct (tag =? DT_NEEDED); [|discriminate].
    destruct (add_needed _ _ _ _ _ _); cbn [bind] in Hs; discriminate.
Qed.

Lemma map_all_log li data base s cs s' :
  map_all li data base s cs = Ok s' -> exists suf, st_mmaps s' = st_mmaps s ++ suf.
Proof.
  revert s. induction cs as [|c cs IH]; intros s Hs; cbn [map_all] in Hs.
  - injection Hs as <-. exists []. by rewrite app_nil_r.
  - destruct (map_one li data base s c) as [s1|] eqn:E; cbn [bind] in Hs; [|discriminate].
    destruct (IH _ Hs) as [suf ->].
    assert (Hs1 : exists suf1, st_mmaps s1 = st_mmaps s ++ suf1).
    { unfold map_one, map_bss in E. cbn [do_mmap st_mmaps] in E.
      repeat match type of E with
      | context [if ?b then _ else _] => destruct b
      | context [bind ?r _] => destruct r eqn:?; cbn [bind] in E
      end; try discriminate; injection E as <-; cbn; rewrite <- ?app_assoc; eauto. }
    destruct Hs1 as [suf1 ->]. exists (suf1 ++ suf). by rewrite app_assoc.
Qed.

(** [mapSegment] first asks for the whole image at [addr]. *)
Lemma mapSegment_log s li phs base s' n :
  mapSegment s li phs base = Ok (s', n) ->
  exists len pr off suf, st_mmaps s' = st_mmaps s ++ MmapFile li base len pr off :: suf.
Proof.
  unfold mapSegment. intros Hs. destruct (lib_at s li) as [lib|]; cbn [bind] in Hs; [|discriminate].
  destruct (scan_phdrs phs base None) as [cmds dynv].
  destruct cmds as [|c0 cmds']; [discriminate|]. destruct (last (c0 :: cmds')) as [cl|]; [|discriminate].
  destruct (of_option _ _) as [data|]; cbn [bind] in Hs; [|discriminate].
  destruct (map_all _ _ _ _ _) as [s2|] eqn:Em; cbn [bind] in Hs; [|discriminate].
  injection Hs as <- _. destruct (map_all_log _ _ _ _ _ _ Em) as [suf ->].
  cbn [do_mmap set_lib st_mmaps]. eexists _, _, _, suf. by rewrite <- app_assoc.
Qed.

(** [mapWorker] issues the whole-image mapping of its record at [addr]. *)
Lemma mapWorker_log s li base s' n :
  mapWorker s li base = Ok (s', n) ->
  exists len pr off suf, st_mmaps s' = st_mmaps s ++ MmapFile li base len pr off :: suf.
Proof.
  unfold mapWorker. intros Hw.
  destruct (lib_at s li) as [lib0|]; cbn [bind] in Hw; [|discriminate].
  destruct (of_option _ (fs _)) as [st|]; cbn [bind] in Hw; [|discriminate].
  destruct (of_option _ (fread st 64)) as [r1|]; cbn [bind] in Hw; [|discriminate].
  destruct (of_option _ (fread (snd r1) _)) as [r2|]; cbn [bind] in Hw; [|discriminate].
  destruct (mapSegment _ _ _ _) as [[s2 n2]|] eqn:Hm; cbn [bind fst snd] in Hw; [|discriminate].
  destruct (mapSegment_log _ _ _ _ _ _ Hm) as (len & pr & off & suf & Hlog).
  exists len, pr, off, suf. cbn [set_lib st_mmaps] in Hlog. rewrite <- Hlog.
  destruct (lib_at s2 li); cbn [bind] in Hw; [|discriminate].
  destruct (fill_info _ _) as [[m3 l3]|]; cbn [bind fst snd] in Hw; [|discriminate].
  destruct (setup_hash _ _) as [l4|]; cbn [bind] in Hw; [|discriminate].
  destruct (dyn_ptr _ _ _); cbn [bind] in Hw; [|discriminate].
  destruct (read_runpath _ _ _); cbn [bind] in Hw; [|discriminate].
  destruct (count_needed _ _); cbn [bind] in Hw; [|discriminate].
  destruct (needed_loop _ _ _ _ _ _ _) as [s5|] eqn:Hn; cbn [bind] in Hw; [|discriminate].
  destruct (set_slot s5 li 0 _) as [s6|] eqn:Hs; cbn [bind] in Hw; [|discriminate].
  injection Hw as <- _. rewrite (set_slot_mmaps _ _ _ _ _ Hs), (needed_loop_mmaps _ _ _ _ _ _ _ _ Hn). done.
Qed.

End Log.

Section LastWins.
Context `{FileSystem}.

Lemma isLibraryOpen_from_some libs nm i j :
  isLibraryOpen_from libs nm i = Some j -> (i <= j)%nat /\ exists l, libs !! (j - i)%nat = Some l /\ name l = nm.
Proof.
  revert i. induction libs as [|l libs IH]; intros i; cbn; [discriminate|].
  case_bool_decide as E; [intros [= <-]; split; [lia|]; rewrite Nat.sub_diag; eauto|].
  intros Hj. destruct (IH _ Hj) as [Hle (l' & Hl' & Hn)]. split; [lia|].
  exists l'. replace (j - i)%nat with (S (j - S i)) by lia. done.
Qed.

Lemma set_slot_names s li k v s' j l :
  set_slot s li k v = Ok s' -> lib_at s j = Ok l -> exists l', lib_at s' j = Ok l' /\ name l' = name l.
Proof.
  intros (lib & sl & Hlib & _ & _ & ->)%set_slot_ok Hl. destruct (decide (j = li)) as [->|Hne].
  - rewrite lib_at_set_lib_eq by eauto using lib_at_lt. rewrite Hl in Hlib. injection Hlib as <-. by eexists.
  - rewrite lib_at_set_lib_ne by done. eauto.
Qed.

Lemma set_slot_slot s li k v s' :
  set_slot s li k v = Ok s' -> exists l sl, lib_at s' li = Ok l /\ search_list l = Some sl /\ sl !! k = Some v.
Proof.
  intros (lib & sl & Hlib & Hsl & Hk & ->)%set_slot_ok. do 2 eexists. rewrite lib_at_set_lib_eq by eauto using lib_at_lt.
  split; [done|]. split; [done|]. by rewrite list_lookup_insert_eq.
Qed.

(** The [DT_NEEDED] branch writes to slot 1 a record named by the entry. *)
Lemma add_needed_slot1 m strtab rp li p s s' v nm :
  add_needed m strtab rp li p s = Ok s' -> dyn_d_un m p = Ok v -> strdup m (wrap64 (v + strtab)) = Ok nm ->
  exists l j l', lib_at s' li = Ok l /\ (exists sl, search_list l = Some sl /\ sl !! 1%nat = Some (SlotLib j)) /\ lib_at s' j = Ok l' /\ name l' = nm.
Proof.
  intros Ha Hv Hn. unfold add_needed in Ha. rewrite Hv in Ha. cbn [bind] in Ha. rewrite Hn in Ha. cbn [bind] in Ha.
  destruct (isLibraryOpen s nm) as [j|] eqn:Eo.
  - destruct (isLibraryOpen_from_some _ _ _ _ Eo) as [_ (l0 & Hl0 & Hn0)]. rewrite Nat.sub_0_r in Hl0.
    destruct (set_slot_slot _ _ _ _ _ Ha) as (l & sl & Hl & Hsl & Hs).
    destruct (set_slot_names _ _ _ _ _ j l0 Ha) as (l' & Hl' & Hn'); [unfold lib_at; by rewrite Hl0|].
    exists l, j, l'. split_and!; [done | eauto | done | congruence].
  - destruct (openDep nm rp) as [[f|]|]; cbn [bind] in Ha; try discriminate.
    destruct (set_slot _ _ _ _) as [s1|] eqn:E1; cbn [bind] in Ha; [|discriminate].
    destruct (set_slot_slot _ _ _ _ _ E1) as (l & sl & Hl & Hsl & Hs).
    destruct (set_slot_names _ _ _ _ _ (length (st_libs s)) (new_library nm f) E1) as (l' & Hl' & Hn');
      [apply lib_at_append_new|].
    assert (Hli : li <> length (st_libs s)).
    { intros ->. destruct (set_slot_ok _ _ _ _ _ E1) as (lib & sl0 & Hlib & Hsl0 & _).
      rewrite lib_at_append_new in Hlib. injection Hlib as <-. discriminate. }
    destruct (doFakeLoad nm) as [[]|]; cbn [bind] in Ha; [| injection Ha as <- | discriminate].
    + rewrite Hl' in Ha. cbn [bind] in Ha. injection Ha as <-.
      exists l, (length (st_libs s)), (set_fake l' true).
      rewrite lib_at_set_lib_ne, lib_at_set_lib_eq by (done || eauto using lib_at_lt). split_and!; [done | eauto | done |].
      transitivity (name l'); [by destruct l' | exact Hn'].
    + exists l, (length (st_libs s)), l'. split_and!; [done | eauto | done | exact Hn'].
Qed.

Lemma dyn_entries_at_tail m p e es : dyn_entries_at m p (e :: es) -> dyn_entries_at m (p + 16) es.
Proof.
  intros Hd i e' Hi. replace (p + 16 + 16 * Z.of_nat i) with (p + 16 * Z.of_nat (S i)) by lia. exact (Hd (S i) e' Hi).
Qed.

(** The dependency loop over a dynamic array [body] then [DT_NULL]: the
    state is unchanged when [body] has no [DT_NEEDED] entry, and slot 1
    holds a record named by the last one otherwise. *)
Lemma needed_walk_last m strtab rp li k z body :
  (k <> 0)%nat -> Forall (fun e => e.1 <> DT_NULL) body ->
  forall fuel p s s', dyn_entries_at m p (body ++ [(DT_NULL, z)]) ->
  walk (needed_step m strtab rp li k) fuel 16 p s = Ok s' ->
  match last_needed body with
  | Some v => forall nm, strdup m (wrap64 (v + strtab)) = Ok nm ->
      exists l j l', lib_at s' li = Ok l /\ (exists sl, search_list l = Some sl /\ sl !! 1%nat = Some (SlotLib j)) /\
        lib_at s' j = Ok l' /\ name l' = nm
  | None => s' = s
  end.
Proof.
  intros Hk Hb. induction Hb as [|e body He Hb IH]; intros fuel p s s' Hd Hw;
    (destruct fuel as [|fuel]; [discriminate|]); rewrite walk_S in Hw.
  - destruct (Hd 0%nat _ eq_refl) as [Ht _]. rewrite Z.add_0_r in Ht.
    assert (Hs : needed_step m strtab rp li k p s = Ok (inr s)) by (unfold needed_step; by rewrite Ht).
    rewrite Hs in Hw. by injection Hw as <-.
  - destruct (Hd 0%nat _ eq_refl) as [Ht Hu]. rewrite Z.add_0_r in Ht, Hu.
    assert (Hs : needed_step m strtab rp li k p s =
              if e.1 =? DT_NEEDED then (s1 <- add_needed m strtab rp li p s ;; Ok (inl s1)) else Ok (inl s)).
    { unfold needed_step. rewrite Ht. cbn [bind].
      by rewrite (proj2 (Z.eqb_neq _ _) He), (proj2 (Nat.eqb_neq _ _) Hk). }
    rewrite Hs in Hw. apply dyn_entries_at_tail in Hd. cbn [last_needed].
    destruct (e.1 =? DT_NEEDED) eqn:En.
    + destruct (add_needed m strtab rp li p s) as [s1|] eqn:Ea; cbn [bind] in Hw; [|discriminate].
      specialize (IH _ _ _ _ Hd Hw). destruct (last_needed body) as [v|]; [exact IH|].
      subst s'. intros nm Hn. exact (add_needed_slot1 _ _ _ _ _ _ _ _ _ Ea Hu Hn).
    + cbn [bind] in Hw. specialize (IH _ _ _ _ Hd Hw). by destruct (last_needed body).
Qed.

(** C3: [mapWorker]'s dependency loop writes every [DT_NEEDED] entry to
    slot 1 of the search list ([need_processed] is reset on each turn), so
    after it slot 1 holds the record of the last [DT_NEEDED] name of the
    dynamic array: a symbol that several dependencies define binds to the
    last one's definition (the spec says the first one in [DT_NEEDED] order
    wins). *)
Theorem needed_loop_last_wins m strtab rp li k d s s' body z v nm :
  (k <> 0)%nat -> dyn_entries_at m d (body ++ [(DT_NULL, z)]) -> Forall (fun e => e.1 <> DT_NULL) body ->
  last_needed body = Some v -> strdup m (wrap64 (v + strtab)) = Ok nm ->
  needed_loop m strtab rp li k d s = Ok s' ->
  exists l j l', lib_at s' li = Ok l /\ (exists sl, search_list l = Some sl /\ sl !! 1%nat = Some (SlotLib j)) /\
    lib_at s' j = Ok l' /\ name l' = nm.
Proof.
  intros Hk Hd Hb Hv Hn Hl. unfold needed_loop in Hl.
  pose proof (needed_walk_last m strtab rp li k z body Hk Hb _ _ _ _ Hd Hl) as H1. rewrite Hv in H1. auto.
Qed.

End LastWins.

Section ChainInv.
Context `{FileSystem}.

(** Each turn of the loop keeps the invariant. *)
Lemma chain_step_inv root base c c' : chain_inv root base c -> chain_step c c' -> chain_inv root base c'.
Proof.
  intros Inv Hs. destruct Hs as [s cur a s' n Hc Hw].
  destruct Inv as (N0 & D & C & B0 & P & SL & R).
  destruct (mapWorker_frame _ _ _ _ _ Hw) as (F & [suf N] & D' & R' & l & l' & Hl & Hl' & Ha' & _ & Hd').
  destruct (R cur ltac:(lia)) as (l0 & d & Hl0 & Hf0). rewrite Hl in Hl0. injection Hl0 as <-.
  pose proof (mapWorker_size _ _ _ _ _ _ _ Hl Hf0 Hw) as Hsz.
  destruct (mapWorker_search_list _ _ _ _ _ Hw) as (lsl & k & x & Hlsl & _ & Hx & Hsl).
  rewrite Hl' in Hlsl. injection Hlsl as <-.
  assert (Hlen := f_equal length N). rewrite length_app, !names_length in Hlen.
  assert (Hb : forall i, (i <= cur)%nat -> base_of s' (S cur) (wrap64 (a + n)) i = base_of s cur a i)
    by (intros; apply base_of_step; eauto).
  split_and!; [rewrite N; by apply lookup_app_l_Some | auto | lia | rewrite Hb by lia; done | | |].
  - intros i Hi. destruct (decide (i = cur)) as [->|Hne].
    + exists l', d, n. rewrite Hd', Hf0, base_of_cur, Ha'. auto.
    + destruct (P i ltac:(lia)) as (li & di & ni & Hli & Hdi & Hni & Hbi).
      exists li, di, ni. rewrite F, Hb by lia. auto.
  - intros i Hi. destruct (decide (i = cur)) as [->|Hne]; [eauto 7|].
    destruct (SL i ltac:(lia)) as (li & ki & xi & ?). rewrite F by lia. eauto.
  - intros j Hj. destruct (Nat.lt_ge_cases j (length (st_libs s))); [|apply R'; lia].
    destruct (R j ltac:(lia)) as (lj & dj & Hlj & Hfj). exists lj, dj. rewrite F by lia. auto.
Qed.

Lemma chain_rtc_inv root base c c' : chain_inv root base c -> rtc chain_step c c' -> chain_inv root base c'.
Proof. intros Hi Hr. induction Hr; eauto using chain_step_inv. Qed.

(** The loop runs [chain_step]s until [curr] is past the chain. *)
Lemma map_chain_steps fuel s cur a s' :
  map_chain fuel s cur a = Ok s' ->
  exists c' a', rtc chain_step (s, cur, a) (s', c', a') /\ (length (st_libs s') <= c')%nat.
Proof.
  revert s cur a. induction fuel as [|f IH]; intros s cur a Hm; [discriminate|].
  cbn [map_chain] in Hm. destruct (Nat.ltb_spec cur (length (st_libs s))) as [Hc|Hc].
  - inv_bind. destruct a0 as [s1 n1]. destruct (IH _ _ _ Hm) as (c' & a' & Hr & Hl).
    exists c', a'. split; [|done]. eapply rtc_l; [|exact Hr]. by constructor.
  - injection Hm as <-. exists cur, a. split; [constructor | done].
Qed.

(** [mapLibrary] builds a chain whose first record is the root, placed at
    [base]; whose records have distinct names; in which each record starts
    where the previous one ends, the previous file's [image_span] after its
    base; and in which every record's search list is itself, then one slot
    per [DT_NEEDED] entry with only the first written, and no [NULL]. *)
Theorem mapLibrary_layout fuel m nm base s :
  mapLibrary fuel m nm base = Ok s ->
  names s !! 0%nat = Some nm /\ NoDup (names s) /\
  (exists l, lib_at s 0 = Ok l /\ addr l = base) /\
  (forall i l l', lib_at s i = Ok l -> lib_at s (S i) = Ok l' ->
     exists d n, s_data <$> fs l = Some d /\ image_span d = Some n /\ addr l' = wrap64 (addr l + n)) /\
  (forall i l, lib_at s i = Ok l ->
     exists k x, x <> SlotNull /\ search_list l = Some (SlotLib i :: dep_slots k x)).
Proof.
  unfold mapLibrary. intros Hm. inv_bind. destruct a as [st|]; [|discriminate].
  destruct (map_chain_steps _ _ _ _ _ Hm) as (c' & a' & Hr & Hc').
  assert (I0 : chain_inv nm base (mkState m [new_library nm st] [], 0%nat, base)).
  { split_and!; cbn; try done; try lia. { apply NoDup_singleton. }
    intros j Hj. assert (j = 0%nat) as -> by lia. exists (new_library nm st), (s_data st).
    apply openFile_fresh in Ha. destruct st; cbn in *. by subst. }
  destruct (chain_rtc_inv _ _ _ _ I0 Hr) as (N0 & D & C & B0 & P & SL & _).
  assert (c' = length (st_libs s)) as -> by lia.
  assert (Hlen : (0 < length (st_libs s))%nat).
  { rewrite <- names_length. apply lookup_lt_Some in N0. lia. }
  split_and!; [done | done | | |].
  - destruct (lookup_lt_is_Some_2 (st_libs s) 0 Hlen) as [l Hl]. exists l.
    unfold lib_at. rewrite Hl. split; [done|]. unfold base_of in B0.
    destruct (Nat.eqb_spec 0 (length (st_libs s))); [lia|]. rewrite Hl in B0. by injection B0.
  - intros i l l' Hl Hl'. apply lib_at_lt in Hl' as Hi.
    destruct (P i ltac:(lia)) as (l0 & d & n & Hl0 & Hd & Hn & Hb). rewrite Hl in Hl0. injection Hl0 as <-.
    exists d, n. split_and!; [done | done|].
    rewrite (base_of_lib s (length (st_libs s)) a' (S i) l' ltac:(lia) Hl') in Hb. by injection Hb.
  - intros i l Hl. apply lib_at_lt in Hl as Hi. destruct (SL i Hi) as (l0 & k & x & Hl0 & Hx & Hsl).
    rewrite Hl in Hl0. injection Hl0 as <-. eauto.
Qed.

Lemma image_span_aligned d n : image_span d = Some n -> n mod 4096 = 0.
Proof.
  unfold image_span. intros Hs. destruct (fread _ 64) as [r1|]; [|discriminate]. cbn in Hs.
  destruct (fread _ _) as [r2|]; [|discriminate]. cbn in Hs. unfold span_of in Hs.
  repeat case_match; try discriminate. injection Hs as <-. apply ALIGN_UP_page_multiple.
Qed.

Lemma wrap64_aligned x y : x mod 4096 = 0 -> y mod 4096 = 0 -> wrap64 (x + y) mod 4096 = 0.
Proof.
  intros Hx Hy. unfold wrap64. rewrite Z.mod_mod_divide by (exists (2 ^ 52); reflexivity).
  by rewrite Zplus_mod, Hx, Hy.
Qed.

(** C11: At a page-aligned [base], every record of the chain is page-aligned. *)
Corollary mapLibrary_aligned fuel m nm base s :
  base mod 4096 = 0 -> mapLibrary fuel m nm base = Ok s ->
  forall i l, lib_at s i = Ok l -> addr l mod 4096 = 0.
Proof.
  intros Hb Hm. destruct (mapLibrary_layout _ _ _ _ _ Hm) as (_ & _ & [l0 [Hl0 Ha0]] & P & _).
  induction i as [|i IH]; intros l Hl.
  - rewrite Hl0 in Hl. injection Hl as <-. by rewrite Ha0.
  - apply lib_at_lt in Hl as Hi. destruct (lookup_lt_is_Some_2 (st_libs s) i ltac:(lia)) as [li Hli].
    assert (Hli' : lib_at s i = Ok li) by (unfold lib_at; by rewrite Hli).
    destruct (P _ _ _ Hli' Hl) as (d & n & _ & Hn & ->).
    apply wrap64_aligned; [by apply IH | eauto using image_span_aligned].
Qed.

(** Each turn of the loop keeps, for the records already mapped, the
    whole-image call at their base in the log. *)
Lemma chain_step_mapped c c' :
  chain_step c c' ->
  (let '(s, cur, _) := c in forall i, (i < cur)%nat ->
     exists l len pr off, lib_at s i = Ok l /\ MmapFile i (addr l) len pr off ∈ st_mmaps s) ->
  (let '(s, cur, _) := c' in forall i, (i < cur)%nat ->
     exists l len pr off, lib_at s i = Ok l /\ MmapFile i (addr l) len pr off ∈ st_mmaps s).
Proof.
  intros [s cur a s' n Hc Hw] P i Hi.
  destruct (mapWorker_frame _ _ _ _ _ Hw) as (F & _ & _ & _ & l & l' & _ & Hl' & Ha' & _).
  destruct (mapWorker_log _ _ _ _ _ Hw) as (len & pr & off & suf & Hlog).
  rewrite Hlog. destruct (decide (i = cur)) as [->|Hne].
  - exists l', len, pr, off. rewrite Ha'. split; [done|]. apply elem_of_app. right. apply elem_of_cons. by left.
  - destruct (P i ltac:(lia)) as (li & len' & pr' & off' & Hli & Hin).
    exists li, len', pr', off'. rewrite F by (eauto using lib_at_lt). split; [done|].
    apply elem_of_app. by left.
Qed.

(** C7: [mapLibrary] asks the kernel to map every record of the chain at
    its base, the delegated dependencies as well as the root (the spec says
    a delegated library receives no segments). *)
Theorem mapLibrary_maps_every_record fuel m nm base s :
  mapLibrary fuel m nm base = Ok s ->
  forall i l, lib_at s i = Ok l -> exists len pr off, MmapFile i (addr l) len pr off ∈ st_mmaps s.
Proof.
  unfold mapLibrary. intros Hm i l Hl.
  destruct (openFile nm) as [[st|]|]; cbn [bind] in Hm; try discriminate.
  destruct (map_chain_steps _ _ _ _ _ Hm) as (c' & a' & Hr & Hc').
  assert (Inv : forall c c', rtc chain_step c c' ->
     (let '(s, cur, _) := c in forall i, (i < cur)%nat ->
        exists l len pr off, lib_at s i = Ok l /\ MmapFile i (addr l) len pr off ∈ st_mmaps s) ->
     (let '(s, cur, _) := c' in forall i, (i < cur)%nat ->
        exists l len pr off, lib_at s i = Ok l /\ MmapFile i (addr l) len pr off ∈ st_mmaps s)).
  { intros c0 c1 Hr'. induction Hr' as [|c0 c2 c1 Hs _ IH]; [done|]. intros P. apply IH. exact (chain_step_mapped _ _ Hs P). }
  specialize (Inv _ _ Hr ltac:(intros j Hj; lia) i ltac:(apply lib_at_lt in Hl; lia)).
  destruct Inv as (l0 & len & pr & off & Hl0 & Hin). rewrite Hl in Hl0. injection Hl0 as <-. eauto.
Qed.

End ChainInv.

Section Miss.
Variable lookup : State -> nat -> Z -> res (State * Z).

(** ** Relocating against the lists [mapWorker] builds *)
(** When the record itself and the dependency in slot 1 miss, the walk
    reads an unwritten slot or past the end of the list: it never answers
    "not found". *)
Lemma search_walk_miss i k x s s1 a :
  x <> SlotNull -> lookup s i a = Ok (s1, 0) ->
  (forall j, dep_slots k x !! 0%nat = Some (SlotLib j) -> exists s2, lookup s1 j a = Ok (s2, 0)) ->
  exists u, search_walk lookup (SlotLib i :: dep_slots k x) s a = Err (Undef u).
Proof.
  intros Hx Hi Hj. cbn [search_walk]. rewrite Hi. cbn [bind fst snd Z.eqb].
  destruct k as [|k]; cbn [dep_slots search_walk]; [eauto|].
  destruct x as [j| |]; [|done|eauto].
  destruct (Hj j eq_refl) as [s2 E]. rewrite E. cbn [bind fst snd Z.eqb].
  destruct k; cbn; eauto.
Qed.

End Miss.

Section Bind.
Context `{Host} `{FileSystem}.

(** C2: in a chain built by [mapLibrary], a symbol-bound relocation of a
    record whose name neither the record nor the dependency in its slot 1
    defines is undefined behaviour: the search reads an unwritten slot or
    past the list (spec section 7 says the word is left as it is). *)
Theorem bind_symbol_miss fuel m nm base s li l it a s1 :
  mapLibrary fuel m nm base = Ok s -> lib_at s li = Ok l -> symbolLookup s li a = Ok (s1, 0) ->
  (forall sl j, search_list l = Some sl -> sl !! 1%nat = Some (SlotLib j) ->
     exists s2, symbolLookup s1 j a = Ok (s2, 0)) ->
  exists u, bind_symbol s li it a = Err (Undef u).
Proof.
  intros Hm Hl Hi Hj. destruct (mapLibrary_layout _ _ _ _ _ Hm) as (_ & _ & _ & _ & SL).
  destruct (SL _ _ Hl) as (k & x & Hx & Hsl).
  destruct (search_walk_miss _ li k x s s1 a Hx Hi (fun j => Hj _ j Hsl)) as [u Hu].
  exists u. unfold bind_symbol. rewrite Hl. cbn [bind]. rewrite Hsl. cbn [bind of_option]. by rewrite Hu.
Qed.

End Bind.
