(* ===== verification/Records.v ===== *)
(** * What the chain builder does to the records

    [mapWorker] changes the record it maps only in fields it fills in
    (base, dynamic section, index, hash table, search list, the position of
    its stream) and appends one record per dependency it cannot find in the
    chain.  Section [Projection] states this once, for any view [proj] of a
    record that those writes leave alone: along [mapWorker] and
    [mapLibrary]'s loop, the views of the records already in the chain are
    kept, and every record appended has a view satisfying [ok], given that
    a freshly opened dependency flagged delegated does.  It is applied
    here to the [fake] flag and the name.

    Since [doFakeLoad] never answers 0 (src/mapLibrary.c, lines 43-51: its
    table has no [NULL] entry), a dependency either is on the allow-list
    and is flagged [fake], or the load is undefined behaviour; so every
    record of a chain after the root is a delegated record named
    [libc.so.6], [ld-linux.so.2] or the empty string. *)

From Stdlib Require Import ZArith Lia String.
From stdpp Require Import base list gmap.
From S2P Require Import Prelude Memory Elf Library Hash Reloc Dynamic Segments Paths Chain.

Open Scope Z_scope.
Open Scope dl_scope.

(** The names [doFakeLoad] accepts. *)
Definition allow_list : list (list Z) := [lit "libc.so.6"; lit "ld-linux.so.2"; []].

(** A delegated record of an allowed name, as its [fake] flag and name. *)
Definition allowed (p : bool * list Z) : Prop := p.1 = true /\ p.2 ∈ allow_list.

(** ** A view of the records along the chain builder *)
(** A view of every record of the chain, in order. *)
Definition projs {T} (proj : Library -> T) (s : State) : list T := proj <$> st_libs s.

(** [s'] is [s] with records appended whose views are [ok], the views of
    the records of [s] kept. *)
Definition proj_ext {T} (proj : Library -> T) (ok : T -> Prop) (s s' : State) : Prop :=
  exists suf, projs proj s' = projs proj s ++ suf /\ Forall ok suf.

(** The view the delegation theorem tracks. *)
Definition deleg_view (l : Library) : bool * list Z := (fake l, name l).

(** ** [doFakeLoad] never says no *)
Lemma doFakeLoad_true nm : doFakeLoad nm = Ok true -> nm ∈ allow_list.
Proof.
  unfold doFakeLoad, allow_list. cbn [doFakeLoad_loop fake_so].
  repeat case_bool_decide; subst; try discriminate; intros _; set_solver.
Qed.

Lemma doFakeLoad_not_false nm : doFakeLoad nm <> Ok false.
Proof. unfold doFakeLoad. cbn [doFakeLoad_loop fake_so]. by repeat case_bool_decide. Qed.

Section Projection.
Context `{FileSystem}.
Variable T : Type.
Variable proj : Library -> T.
Variable ok : T -> Prop.
Hypothesis proj_search_list : forall l v, proj (set_search_list l v) = proj l.
Hypothesis proj_dyn : forall l d n, proj (set_dyn l d n) = proj l.
Hypothesis proj_dyn_info : forall l v, proj (set_dyn_info l v) = proj l.
Hypothesis proj_hash : forall l a b c d e f, proj (set_hash l a b c d e f) = proj l.
Hypothesis proj_load : forall l base st st',
  fs l = Some st -> s_data st' = s_data st -> proj (set_fs (set_addr l base) st') = proj l.
Hypothesis proj_fake : forall l l', proj l = proj l' -> proj (set_fake l true) = proj (set_fake l' true).
Hypothesis proj_new : forall nm p f,
  doFakeLoad nm = Ok true -> fopen p = Some f -> ok (proj (set_fake (new_library nm f) true)).

#[local] Instance proj_ext_preorder : PreOrder (proj_ext proj ok).
Proof.
  split.
  - intros s. exists []. by rewrite app_nil_r.
  - intros s t u [suf1 [E1 F1]] [suf2 [E2 F2]]. exists (suf1 ++ suf2).
    rewrite E2, E1, app_assoc. split; [done | by apply Forall_app].
Qed.

Lemma projs_set_lib s i l' : projs proj (set_lib s i l') = <[i := proj l']> (projs proj s).
Proof. unfold projs, set_lib. cbn. by rewrite list_fmap_insert. Qed.

Lemma projs_lookup s i l : lib_at s i = Ok l -> projs proj s !! i = Some (proj l).
Proof. unfold lib_at, projs. intros Hl%of_option_ok. by rewrite list_lookup_fmap, Hl. Qed.

Lemma projs_append s l : projs proj (append_lib s l) = projs proj s ++ [proj l].
Proof. unfold projs, append_lib. cbn. by rewrite fmap_app. Qed.

Lemma projs_length s : length (projs proj s) = length (st_libs s).
Proof. apply length_fmap. Qed.

Lemma projs_set_lib_same s i l l' : lib_at s i = Ok l -> proj l' = proj l -> projs proj (set_lib s i l') = projs proj s.
Proof. intros Hl E. rewrite projs_set_lib, E. by apply list_insert_id, projs_lookup. Qed.

Lemma proj_ext_eq s t : projs proj t = projs proj s -> proj_ext proj ok s t.
Proof. intros E. exists []. by rewrite E, app_nil_r. Qed.

Lemma projs_set_slot s li k v s' : set_slot s li k v = Ok s' -> projs proj s' = projs proj s.
Proof. intros (lib & sl & Hl & _ & _ & ->)%set_slot_ok. by apply (projs_set_lib_same _ _ _ _ Hl). Qed.

Lemma proj_ext_mapSegment s li phs base s' n : mapSegment s li phs base = Ok (s', n) -> proj_ext proj ok s s'.
Proof.
  unfold mapSegment. intros Hm. inv_bind. destruct (scan_phdrs phs base None) as [cmds dynv].
  destruct cmds as [|c0 cmds']; [discriminate|]. destruct (last (c0 :: cmds')); [|discriminate].
  inv_bind. subst s'. apply proj_ext_eq. unfold projs. cbn [st_libs do_mmap].
  rewrite (map_all_libs _ _ _ _ _ _ Ha1). fold (projs proj (set_lib s li (match dynv with Some (d, n) => set_dyn a d n | None => a end))).
  apply (projs_set_lib_same _ _ _ _ Ha). by destruct dynv as [[]|].
Qed.

(** A dependency the chain does not hold yet is appended, then flagged
    delegated: [doFakeLoad] answers 1 or the run is undefined. *)
Lemma proj_ext_add_needed m strtab rp li p s s' :
  add_needed m strtab rp li p s = Ok s' -> proj_ext proj ok s s'.
Proof.
  unfold add_needed. intros Ha.
  destruct (dyn_d_un m p) as [v|]; cbn [bind] in Ha; [|discriminate].
  destruct (strdup m _) as [nm|]; cbn [bind] in Ha; [|discriminate].
  destruct (isLibraryOpen s nm) as [j|]; [by apply proj_ext_eq; eapply projs_set_slot|].
  destruct (openDep nm rp) as [[f|]|] eqn:Ho; cbn [bind] in Ha; try discriminate.
  destruct (set_slot _ li 1 _) as [s1|] eqn:Hs; cbn [bind] in Ha; [|discriminate].
  apply projs_set_slot in Hs. rewrite projs_append in Hs.
  destruct (doFakeLoad nm) as [[]|] eqn:Hf; cbn [bind] in Ha;
    [|by apply doFakeLoad_not_false in Hf|discriminate].
  destruct (lib_at s1 _) as [dep|] eqn:Hd; cbn [bind] in Ha; [|discriminate]. injection Ha as <-.
  apply projs_lookup in Hd. rewrite Hs, lookup_app_r, projs_length, Nat.sub_diag in Hd by (by rewrite projs_length).
  injection Hd as Hd. exists [proj (set_fake dep true)]. split.
  - rewrite projs_set_lib, Hs, <- projs_length, <- (Nat.add_0_r (length (projs proj s))), insert_app_r. done.
  - apply Forall_singleton. rewrite (proj_fake _ (new_library nm f)) by done.
    destruct (openDep_opened _ _ _ Ho) as [q Hq]. eauto.
Qed.

Lemma proj_ext_needed_loop m strtab rp li k d s s' :
  needed_loop m strtab rp li k d s = Ok s' -> proj_ext proj ok s s'.
Proof.
  unfold needed_loop. apply (walk_invariant _ (proj_ext proj ok s) (proj_ext proj ok s)); [| |reflexivity].
  - intros q t t' Ht Hs. unfold needed_step in Hs. inv_bind.
    destruct (a =? DT_NULL); [discriminate|]. destruct (k =? 0)%nat; [discriminate|].
    destruct (a =? DT_NEEDED); inv_bind; [|by subst].
    subst t'. etransitivity; [exact Ht | eauto using proj_ext_add_needed].
  - intros q t x Ht Hs. unfold needed_step in Hs.
    destruct (dyn_d_tag m q) as [tag|]; cbn [bind] in Hs; [|discriminate].
    destruct (tag =? DT_NULL); [by injection Hs as <-|]. destruct (k =? 0)%nat; [by injection Hs as <-|].
    destruct (tag =? DT_NEEDED); inv_bind; discriminate.
Qed.

Lemma proj_fill_info m l m' l' : fill_info m l = Ok (m', l') -> proj l' = proj l.
Proof. unfold fill_info. intros Hf. inv_bind. subst. apply proj_dyn_info. Qed.

Lemma proj_setup_hash m l l' : setup_hash m l = Ok l' -> proj l' = proj l.
Proof. unfold setup_hash. intros Hh. inv_bind. subst. apply proj_hash. Qed.

(** [mapWorker] keeps the views of the records of the chain and appends
    only records whose views are [ok]. *)
Lemma proj_ext_mapWorker s li base s' n : mapWorker s li base = Ok (s', n) -> proj_ext proj ok s s'.
Proof.
  unfold mapWorker. intros Hw.
  destruct (lib_at s li) as [lib0|] eqn:Hl; cbn [bind] in Hw; [|discriminate].
  destruct (of_option _ (fs _)) as [st|] eqn:Hst; cbn [bind] in Hw; [|discriminate].
  destruct (of_option _ (fread st 64)) as [r1|] eqn:Hr1; cbn [bind] in Hw; [|discriminate].
  destruct (of_option _ (fread (snd r1) _)) as [r2|] eqn:Hr2; cbn [bind] in Hw; [|discriminate].
  destruct (mapSegment _ li _ base) as [[s2 n2]|] eqn:Hm; cbn [bind fst snd] in Hw; [|discriminate].
  destruct (lib_at s2 li) as [lib2|] eqn:Hl2; cbn [bind] in Hw; [|discriminate].
  destruct (fill_info _ lib2) as [[m3 lib3]|] eqn:Hf; cbn [bind fst snd] in Hw; [|discriminate].
  destruct (setup_hash m3 lib3) as [lib4|] eqn:Hh; cbn [bind] in Hw; [|discriminate].
  destruct (dyn_ptr m3 lib4 DT_STRTAB); cbn [bind] in Hw; [|discriminate].
  destruct (read_runpath _ _ _); cbn [bind] in Hw; [|discriminate].
  destruct (count_needed _ _) as [k|]; cbn [bind] in Hw; [|discriminate].
  destruct (needed_loop _ _ _ _ _ _ _) as [s5|] eqn:Hn; cbn [bind] in Hw; [|discriminate].
  destruct (set_slot s5 li 0 _) as [s6|] eqn:Hs; cbn [bind] in Hw; [|discriminate].
  injection Hw as <- _.
  apply of_option_ok in Hst, Hr1, Hr2. apply proj_fill_info in Hf. apply proj_setup_hash in Hh.
  transitivity (set_lib s li (set_fs (set_addr lib0 base) r2.2)).
  { apply proj_ext_eq, (projs_set_lib_same _ _ _ _ Hl). apply (proj_load _ _ st); [exact Hst|].
    destruct r1 as [b1 t1], r2 as [b2 t2]. cbn in *. rewrite (fread_data _ _ _ _ Hr2). exact (fread_data _ _ _ _ Hr1). }
  transitivity s2; [by eapply proj_ext_mapSegment|].
  transitivity (set_lib (set_mem s2 m3) li (set_search_list lib4 (replicate (S k) SlotUninit))).
  - apply proj_ext_eq. rewrite (projs_set_lib_same (set_mem s2 m3) _ lib2); [done | exact Hl2|].
    by rewrite proj_search_list, Hh, Hf.
  - transitivity s5; [by eapply proj_ext_needed_loop | by apply proj_ext_eq; eapply projs_set_slot].
Qed.

Lemma proj_ext_map_chain fuel s cur a s' : map_chain fuel s cur a = Ok s' -> proj_ext proj ok s s'.
Proof.
  revert s cur a. induction fuel as [|fuel IH]; intros s cur a Hm; cbn [map_chain] in Hm; [discriminate|].
  destruct (cur <? length (st_libs s))%nat; [|by injection Hm as <-].
  inv_bind. destruct a0 as [s1 n]. etransitivity; [eapply proj_ext_mapWorker; eauto | eapply IH; eauto].
Qed.

(** The views of a chain [mapLibrary] builds: the root's, then [ok] ones. *)
Lemma mapLibrary_projs fuel m nm base s :
  mapLibrary fuel m nm base = Ok s ->
  exists st suf, openFile nm = Ok (Some st) /\ projs proj s = proj (new_library nm st) :: suf /\ Forall ok suf.
Proof.
  unfold mapLibrary. intros Hm. destruct (openFile nm) as [[st|]|]; cbn [bind] in Hm; try discriminate.
  destruct (proj_ext_map_chain _ _ _ _ _ Hm) as [suf [E F]]. by exists st, suf.
Qed.

End Projection.

Section Delegation.
Context `{FileSystem}.

(** ** The delegated records *)
(** The flags and names of a chain [mapLibrary] builds: the root, not
    delegated, then delegated records of allowed names. *)
Lemma mapLibrary_deleg_views fuel m nm base s :
  mapLibrary fuel m nm base = Ok s ->
  exists suf, projs deleg_view s = (false, nm) :: suf /\ Forall allowed suf.
Proof.
  intros Hm. edestruct (mapLibrary_projs _ deleg_view allowed) as (st & suf & _ & E & F);
    [intros; reflexivity.. | | | exact Hm | by exists suf].
  - unfold deleg_view. intros l l' [= ? ?]. cbn. congruence.
  - intros nm' p f Hf _. split; [done | by apply doFakeLoad_true].
Qed.

(** C6: a chain [mapLibrary] builds is its root followed by delegated
    records only, each named [libc.so.6], [ld-linux.so.2] or the empty
    string: a dependency off the allow-list never loads, whatever the
    file system holds. *)
Theorem mapLibrary_deps_delegated fuel m nm base s :
  mapLibrary fuel m nm base = Ok s ->
  forall j l, lib_at s j = Ok l ->
    (j = 0%nat /\ fake l = false /\ name l = nm) \/ ((1 <= j)%nat /\ fake l = true /\ name l ∈ allow_list).
Proof.
  intros Hm j l Hl. destruct (mapLibrary_deleg_views _ _ _ _ _ Hm) as [suf [E F]].
  apply (projs_lookup _ deleg_view) in Hl. rewrite E in Hl. destruct j as [|j]; cbn in Hl.
  - left. by injection Hl as -> ->.
  - right. destruct (proj1 (Forall_lookup _ _) F _ _ Hl) as [Hf Hn]. cbn in *. split_and!; [lia | done..].
Qed.

End Delegation.
