(* ===== verification/Open.v ===== *)
(** * Opening a library

    [openLibrary(name, mode, addr)] (src/openLibrary.c, lines 28-35): map
    the library and its dependencies with [mapLibrary], then relocate the
    record [mapLibrary] returns, the head of the chain, with
    [relocLibrary]; the [mode] constants of src/dl-rebuild.h.  The layout
    [mapLibrary] builds survives relocation: the relocator rewrites memory
    and [fake_handle] only. *)

From Stdlib Require Import ZArith Lia.
From stdpp Require Import base list gmap.
From S2P Require Import Prelude Memory Elf Library Hash Reloc Segments Paths Chain Records.

Open Scope Z_scope.
Open Scope dl_scope.

(** [#define BIND_NOW 0] and [#define LAZY_BIND 1] (src/dl-rebuild.h): the
    [mode] argument, which no code path reads. *)
Definition BIND_NOW : Z := 0.
Definition LAZY_BIND : Z := 1.

Section WithEnv.
Context `{Host} `{FileSystem}.

(** [Library *new = mapLibrary(name, addr); relocLibrary(new, mode);
    return new;], with the chain loop's fuel. *)
Definition openLibrary (fuel : nat) (m : mem) (nm : list Z) (mode base : Z) : res (State * nat) :=
  s <- mapLibrary fuel m nm base ;;
  s' <- relocLibrary s 0 mode ;;
  Ok (s', 0%nat).

End WithEnv.

Section Layout.
Context `{Host} `{FileSystem}.

Lemma rec_equiv_addr l l' : rec_equiv l l' -> addr l' = addr l /\ name l' = name l /\
  fs l' = fs l /\ search_list l' = search_list l /\ fake l' = fake l.
Proof. unfold rec_equiv. intros ->. by destruct l. Qed.

Lemma same_shape_lib_at s t i l' :
  same_shape s t -> lib_at t i = Ok l' -> exists l, lib_at s i = Ok l /\ rec_equiv l l'.
Proof.
  intros (_ & _ & F & _) Hl. unfold lib_at in *. apply of_option_ok in Hl.
  destruct (Forall2_lookup_r _ _ _ _ _ F Hl) as (l & Hs & Hr). exists l. by rewrite Hs.
Qed.

(** Relocation keeps the search lists [mapLibrary] builds. *)
Lemma openLibrary_search_lists fuel m nm mode base s h :
  openLibrary fuel m nm mode base = Ok (s, h) ->
  forall i l, lib_at s i = Ok l ->
    exists k x, x <> SlotNull /\ search_list l = Some (SlotLib i :: dep_slots k x).
Proof.
  unfold openLibrary. intros Ho.
  destruct (mapLibrary fuel m nm base) as [s0|] eqn:Hm; cbn [bind] in Ho; [|discriminate].
  destruct (relocLibrary s0 0 mode) as [s1|] eqn:Hr; cbn [bind] in Ho; [|discriminate].
  injection Ho as <- _. intros i l Hl.
  apply relocLibrary_shape in Hr as Sh. destruct (mapLibrary_layout _ _ _ _ _ Hm) as (_ & _ & _ & _ & SL).
  destruct (same_shape_lib_at _ _ _ _ Sh Hl) as (k & Hk & (_ & _ & _ & Es & _)%rec_equiv_addr).
  rewrite Es. eauto.
Qed.

(** C10: [openLibrary] returns the head of a chain laid out as [mapLibrary]
    lays it out: the root at [base], each record where the previous one's
    file span ends, every search list without a [NULL], and every record
    after the root delegated, of a name on the allow-list. *)
Theorem openLibrary_layout fuel m nm mode base s h :
  openLibrary fuel m nm mode base = Ok (s, h) ->
  h = 0%nat /\ (exists l, lib_at s 0 = Ok l /\ addr l = base /\ name l = nm) /\
  (forall i l l', lib_at s i = Ok l -> lib_at s (S i) = Ok l' ->
     exists d n, s_data <$> fs l = Some d /\ image_span d = Some n /\ addr l' = wrap64 (addr l + n)) /\
  (forall i l, lib_at s i = Ok l ->
     exists k x, x <> SlotNull /\ search_list l = Some (SlotLib i :: dep_slots k x)) /\
  (forall i l, (1 <= i)%nat -> lib_at s i = Ok l -> fake l = true /\ name l ∈ allow_list).
Proof.
  unfold openLibrary. intros Ho. inv_bind. subst.
  apply relocLibrary_shape in Ha0 as Sh.
  destruct (mapLibrary_layout _ _ _ _ _ Ha) as (N0 & _ & [l0 [Hl0 Ha0']] & P & SL).
  split; [done|]. split_and!.
  - destruct Sh as (_ & _ & F & _). unfold lib_at in Hl0. apply of_option_ok in Hl0.
    destruct (Forall2_lookup_l _ _ _ _ _ F Hl0) as (l' & Hl' & Hr).
    apply rec_equiv_addr in Hr as (Ea & En & _). exists l'. unfold lib_at. rewrite Hl'.
    split_and!; [done | congruence|]. rewrite En.
    unfold names in N0. rewrite list_lookup_fmap, Hl0 in N0. by injection N0.
  - intros i l l' Hl Hl'.
    destruct (same_shape_lib_at _ _ _ _ Sh Hl) as (k & Hk & Ek%rec_equiv_addr).
    destruct (same_shape_lib_at _ _ _ _ Sh Hl') as (k' & Hk' & Ek'%rec_equiv_addr).
    destruct (P _ _ _ Hk Hk') as (d & n & ? & ? & ?). exists d, n.
    destruct Ek as (? & _ & ? & _), Ek' as (? & _ & _ & _). split_and!; congruence.
  - apply (openLibrary_search_lists fuel m nm mode base s 0%nat). unfold openLibrary. rewrite Ha; cbn [bind]. by rewrite Ha0.
  - intros i l Hi Hl. destruct (same_shape_lib_at _ _ _ _ Sh Hl) as (k & Hk & (_ & En & _ & _ & Ef)%rec_equiv_addr).
    destruct (mapLibrary_deleg_views _ _ _ _ _ Ha) as [suf [E F]].
    apply (projs_lookup _ deleg_view) in Hk. rewrite E in Hk. destruct i as [|i]; [lia|]. cbn in Hk.
    destruct (proj1 (Forall_lookup _ _) F _ _ Hk) as [Hf Hn]. rewrite Ef, En. by split.
Qed.

End Layout.
