(* ===== verification/Lazy.v ===== *)
(** * The lazy-binding handler

    [runtimeResolve(lib, reloc_entry)] (src/runtimeResolve.c, lines 9-41):
    resolve the PLT relocation at index [reloc_entry] of [DT_JMPREL] through
    the record's search list, patch its slot, and return the value for the
    pending call.  The value returned re-reads [r_addend] after the slot is
    written, as the code does.  The [while ( *search)] loop stops at a [NULL]
    slot, which no list [mapLibrary] builds has: a name no library defines
    reads an unwritten slot or past the list instead of reaching the
    [exit(-1)]. *)

From Stdlib Require Import ZArith Lia.
From stdpp Require Import base list gmap.
From S2P Require Import Prelude Memory Elf Library Hash Reloc Paths Chain Open.

Open Scope Z_scope.
Open Scope dl_scope.

Section WithHost.
Context `{Host}.

(** [reloc_entry] is an [Elf64_Word]: the argument is taken modulo 2^32. *)
Definition runtimeResolve (s : State) (li : nat) (reloc_entry : Z) : res (State * Z) :=
  lib <- lib_at s li ;;
  strtab <- dyn_ptr (st_mem s) lib DT_STRTAB ;;
  symtab <- dyn_ptr (st_mem s) lib DT_SYMTAB ;;
  plt_start <- dyn_ptr (st_mem s) lib DT_JMPREL ;;
  let reloc_obj := plt_start + 24 * wrap32 reloc_entry in
  real_name <- rela_name (st_mem s) reloc_obj symtab strtab ;;
  sl <- of_option (Undef NullDeref) (search_list lib) ;;
  p <- search_walk symbolLookup sl s real_name ;;
  let s' := fst p in
  let r := snd p in
  if r =? 0 then Err (Exit PltUnresolved) else
  off <- rela_r_offset (st_mem s') reloc_obj ;;
  addend <- rela_r_addend (st_mem s') reloc_obj ;;
  m' <- store_u64 (st_mem s') (wrap64 (addr lib + off)) (wrap64 (r + addend)) ;;
  addend' <- rela_r_addend m' reloc_obj ;;
  Ok (set_mem s' m', wrap64 (r + addend')).

(** C29: The handler looks up the name of entry [reloc_entry] of
    [DT_JMPREL] (the string [symtab[r_info >> 32].st_name] of [DT_STRTAB])
    through the record's search list, patches the entry's slot with
    [r + r_addend], and returns that value when the slot does not overlap
    the entry's [r_addend] field. *)
Theorem runtimeResolve_patches s li e lib s' v :
  lib_at s li = Ok lib -> runtimeResolve s li e = Ok (s', v) ->
  exists strtab symtab plt_start nm sl s1 r off ad,
    dyn_ptr (st_mem s) lib DT_STRTAB = Ok strtab /\
    dyn_ptr (st_mem s) lib DT_SYMTAB = Ok symtab /\
    dyn_ptr (st_mem s) lib DT_JMPREL = Ok plt_start /\
    rela_name (st_mem s) (plt_start + 24 * wrap32 e) symtab strtab = Ok nm /\
    search_list lib = Some sl /\
    search_walk symbolLookup sl s nm = Ok (s1, r) /\ r <> 0 /\
    rela_r_offset (st_mem s1) (plt_start + 24 * wrap32 e) = Ok off /\
    rela_r_addend (st_mem s1) (plt_start + 24 * wrap32 e) = Ok ad /\
    load_u64 (st_mem s') (wrap64 (addr lib + off)) = Ok (wrap64 (r + ad)) /\
    (wrap64 (addr lib + off) + 8 <= plt_start + 24 * wrap32 e + 16 \/
     plt_start + 24 * wrap32 e + 24 <= wrap64 (addr lib + off) -> v = wrap64 (r + ad)).
Proof.
  intros Hl Hr. unfold runtimeResolve in Hr. rewrite Hl in Hr. cbn [bind] in Hr.
  destruct (dyn_ptr _ lib DT_STRTAB) as [strtab|] eqn:H1; cbn [bind] in Hr; [|discriminate].
  destruct (dyn_ptr _ lib DT_SYMTAB) as [symtab|] eqn:H2; cbn [bind] in Hr; [|discriminate].
  destruct (dyn_ptr _ lib DT_JMPREL) as [pl|] eqn:H3; cbn [bind] in Hr; [|discriminate].
  destruct (rela_name _ _ _ _) as [nm|] eqn:H4; cbn [bind] in Hr; [|discriminate].
  destruct (search_list lib) as [sl|] eqn:H5; cbn [bind of_option] in Hr; [|discriminate].
  destruct (search_walk _ _ _ _) as [[s1 r]|] eqn:H6; cbn [bind fst snd] in Hr; [|discriminate].
  destruct (Z.eqb_spec r 0) as [|Hr0]; [discriminate|].
  destruct (rela_r_offset _ _) as [off|] eqn:H7; cbn [bind] in Hr; [|discriminate].
  destruct (rela_r_addend _ _) as [ad|] eqn:H8; cbn [bind] in Hr; [|discriminate].
  destruct (store_u64 _ _ _) as [m'|] eqn:H9; cbn [bind] in Hr; [|discriminate].
  destruct (rela_r_addend m' _) as [ad'|] eqn:H10; cbn [bind] in Hr; [|discriminate].
  injection Hr as <- <-.
  exists strtab, symtab, pl, nm, sl, s1, r, off, ad. do 9 (split; [done|]). split.
  - cbn [st_mem set_mem]. rewrite (store_u64_load _ _ _ _ H9). by rewrite wrap64_idem.
  - intros Hd. unfold rela_r_addend, load_u64, store_u64 in *.
    rewrite (load_store_disjoint _ _ _ _ _ _ _ H9) in H10 by (cbn; lia).
    congruence.
Qed.

End WithHost.

Section Miss.
Context `{Host} `{FileSystem}.

(** C4: In a chain opened by [openLibrary], lazily binding a PLT entry
    whose name neither the record nor the dependency in its slot 1 defines
    is undefined behaviour: the [while ( *search)] loop reads an unwritten
    slot or past the list, and never reaches the [exit(-1)] for an
    unresolved entry. *)
Theorem runtimeResolve_miss fuel m nm mode base s h li e lib strtab symtab plt_start a s1 :
  openLibrary fuel m nm mode base = Ok (s, h) -> lib_at s li = Ok lib ->
  dyn_ptr (st_mem s) lib DT_STRTAB = Ok strtab -> dyn_ptr (st_mem s) lib DT_SYMTAB = Ok symtab ->
  dyn_ptr (st_mem s) lib DT_JMPREL = Ok plt_start ->
  rela_name (st_mem s) (plt_start + 24 * wrap32 e) symtab strtab = Ok a ->
  symbolLookup s li a = Ok (s1, 0) ->
  (forall sl j, search_list lib = Some sl -> sl !! 1%nat = Some (SlotLib j) ->
     exists s2, symbolLookup s1 j a = Ok (s2, 0)) ->
  exists u, runtimeResolve s li e = Err (Undef u).
Proof.
  intros Ho Hl H1 H2 H3 H4 Hi Hj.
  destruct (openLibrary_search_lists _ _ _ _ _ _ _ Ho li lib Hl) as (k & x & Hx & Hsl).
  destruct (search_walk_miss _ li k x s s1 a Hx Hi (fun j => Hj _ j Hsl)) as [u Hu].
  exists u. unfold runtimeResolve. rewrite Hl; cbn [bind]. rewrite H1; cbn [bind]. rewrite H2; cbn [bind].
  rewrite H3; cbn [bind]. rewrite H4; cbn [bind]. rewrite Hsl; cbn [bind of_option]. by rewrite Hu.
Qed.

End Miss.
