(* ===== verification/Image.v ===== *)
(** * Test images

    Small ELF64 shared objects built byte by byte, a file system holding
    them, and a host loader, so that the loader's definitions can be run on
    concrete inputs by [vm_compute].  An image has one [PT_LOAD] segment
    covering the whole file (with a [.bss] tail) and a [PT_DYNAMIC] segment;
    its dynamic section lists its [DT_NEEDED] names, the string and symbol
    tables (the string table right after the symbol table, as [findSymbol]
    assumes), a GNU hash table with one bucket and one bloom word, a
    [.rela.dyn] table with its [DT_RELACOUNT] prefix of relative entries, an
    empty [.rela.plt], and four data words the relocations target. *)

From Stdlib Require Import ZArith Lia String.
From stdpp Require Import base list gmap.
From S2P Require Import Prelude Memory Elf Library Hash Paths.

Open Scope Z_scope.

(** What an image holds: the names it needs, the symbols it imports and
    exports (name and value), its relative relocations (data word, addend)
    and its symbol-bound ones (data word, symbol index, addend), and the size
    of its [.bss]. *)
Record so_desc := mkSo {
  so_needed : list (list Z);
  so_undef : list (list Z);
  so_defs : list (list Z * Z);
  so_relative : list (nat * Z);
  so_globdat : list (nat * nat * Z);
  so_bss : Z }.

Definition R_X86_64_GLOB_DAT := 6.
Definition R_X86_64_RELATIVE := 8.

(** Offsets of the strings [ss] laid one after the other from [start]. *)
Fixpoint str_offsets (ss : list (list Z)) (start : Z) : list Z :=
  match ss with
  | [] => []
  | s :: ss' => start :: str_offsets ss' (start + Z.of_nat (length s) + 1)
  end.

Definition align8 (x : Z) : Z := (x + 7) / 8 * 8.

Definition pad_to (l : list Z) (n : Z) : list Z := l ++ replicate (Z.to_nat n - length l) 0.

Section Build.
Variable d : so_desc.

Definition strs : list (list Z) := so_needed d ++ so_undef d ++ (fst <$> so_defs d).
Definition strtab_bytes : list Z := 0 :: mjoin ((fun s => s ++ [0]) <$> strs).
Definition str_off : list Z := str_offsets strs 1.

Definition n_needed : Z := Z.of_nat (length (so_needed d)).
Definition n_undef : Z := Z.of_nat (length (so_undef d)).
Definition n_defs : Z := Z.of_nat (length (so_defs d)).
Definition n_rel : Z := Z.of_nat (length (so_relative d)).
Definition n_glob : Z := Z.of_nat (length (so_globdat d)).

Definition ndyn : Z := n_needed + 9.
Definition dyn_off : Z := 176.
Definition symtab_off : Z := dyn_off + 16 * ndyn.
Definition nsyms : Z := 1 + n_undef + n_defs.
Definition strtab_off : Z := symtab_off + 24 * nsyms.
Definition hash_off : Z := align8 (strtab_off + Z.of_nat (length strtab_bytes)).
Definition symbias : Z := 1 + n_undef.
Definition hash_size : Z := 16 + 8 + 4 + 4 * n_defs.
Definition rela_off : Z := align8 (hash_off + hash_size).
Definition data_off : Z := rela_off + 24 * (n_rel + n_glob).
Definition file_size : Z := data_off + 32.

Definition def_hashes : list Z := (fun p => dl_new_hash p.1) <$> so_defs d.

Definition bloom_word : Z :=
  foldr (fun h w => Z.lor w (Z.lor (Z.shiftl 1 (Z.land h 63)) (Z.shiftl 1 (Z.land (Z.shiftr h 6) 63))))
    0 def_hashes.

Fixpoint chain_words (hs : list Z) : list Z :=
  match hs with
  | [] => []
  | [h] => [Z.lor (Z.land h (2 ^ 32 - 2)) 1]
  | h :: hs' => Z.land h (2 ^ 32 - 2) :: chain_words hs'
  end.

Definition hash_bytes : list Z :=
  le_bytes 4 1 ++ le_bytes 4 symbias ++ le_bytes 4 1 ++ le_bytes 4 6 ++
  le_bytes 8 bloom_word ++ le_bytes 4 (if bool_decide (so_defs d = []) then 0 else symbias) ++
  mjoin (le_bytes 4 <$> chain_words def_hashes).

Definition dyn_bytes : list Z :=
  mjoin ((fun o => encode_dyn DT_NEEDED o) <$> take (length (so_needed d)) str_off) ++
  encode_dyn DT_STRTAB strtab_off ++ encode_dyn DT_SYMTAB symtab_off ++
  encode_dyn DT_GNU_HASH hash_off ++ encode_dyn DT_RELA rela_off ++
  encode_dyn DT_RELASZ (24 * (n_rel + n_glob)) ++ encode_dyn DT_RELACOUNT n_rel ++
  encode_dyn DT_JMPREL rela_off ++ encode_dyn DT_PLTRELSZ 0 ++ encode_dyn DT_NULL 0.

Definition sym_bytes : list Z :=
  encode_sym 0 0 0 0 0 0 ++
  mjoin ((fun o => encode_sym o 18 0 0 0 0) <$> take (length (so_undef d)) (drop (length (so_needed d)) str_off)) ++
  mjoin (zip_with (fun o p => encode_sym o 18 0 1 p.2 0)
           (drop (length (so_needed d) + length (so_undef d)) str_off) (so_defs d)).

Definition rela_bytes : list Z :=
  mjoin ((fun p => encode_rela (data_off + 8 * Z.of_nat p.1) R_X86_64_RELATIVE p.2) <$> so_relative d) ++
  mjoin ((fun p => encode_rela (data_off + 8 * Z.of_nat p.1.1)
                     (Z.lor (Z.shiftl (Z.of_nat p.1.2) 32) R_X86_64_GLOB_DAT) p.2) <$> so_globdat d).

Definition ehdr_bytes : list Z :=
  pad_to ([127; 69; 76; 70; 2; 1; 1] ++ replicate 25 0 ++ le_bytes 8 64 ++ replicate 16 0 ++ le_bytes 2 2) 64.

Definition phdr_bytes : list Z :=
  encode_phdr (mkPhdr PT_LOAD 7 0 0 0 file_size (file_size + so_bss d) 4096) ++
  encode_phdr (mkPhdr PT_DYNAMIC 6 dyn_off dyn_off dyn_off (16 * ndyn) (16 * ndyn) 8).

(** The file. *)
Definition build_so : list Z :=
  pad_to (pad_to (pad_to (ehdr_bytes ++ phdr_bytes ++ dyn_bytes ++ sym_bytes ++ strtab_bytes) hash_off
                   ++ hash_bytes) rela_off ++ rela_bytes) file_size.
End Build.

(** ** The test system *)

Definition libdir : list Z := lit "/usr/lib/x86_64-linux-gnu/".

(** [libA.so] needs [libc.so.6] and then [ld-linux.so.2] (both on the
    allow-list) and imports [f], bound into data word 1; word 0 holds a
    relative relocation. *)
Definition descA : so_desc :=
  mkSo [lit "libc.so.6"; lit "ld-linux.so.2"] [lit "f"] [(lit "a_ver", 64)] [(0%nat, 80)] [(1%nat, 1%nat, 0)] 16.
Definition descB : so_desc := mkSo [] [] [(lit "f", 256)] [] [] 0.
Definition descC : so_desc := mkSo [] [] [(lit "f", 512)] [] [] 0.
(** [libN.so] needs nothing and imports [g], which nobody defines. *)
Definition descN : so_desc := mkSo [] [lit "g"] [(lit "n_ver", 32)] [] [(0%nat, 1%nat, 0)] 0.
(** [libD.so] needs [libfoo.so], a name not on the allow-list. *)
Definition descD : so_desc := mkSo [lit "libfoo.so"] [] [] [] [] 0.

Definition imgA := build_so descA.
Definition imgB := build_so descB.
Definition imgC := build_so descC.
Definition imgN := build_so descN.
Definition imgD := build_so descD.

Definition test_files : list (list Z * list Z) :=
  [(lit "/t/libA.so", imgA); (libdir ++ lit "libc.so.6", imgB); (libdir ++ lit "ld-linux.so.2", imgC);
   (lit "/t/libN.so", imgN); (lit "/t/libD.so", imgD); (libdir ++ lit "libfoo.so", imgN)].

Fixpoint assoc (k : list Z) (l : list (list Z * list Z)) : option (list Z) :=
  match l with
  | [] => None
  | (k', v) :: l' => if bool_decide (k = k') then Some v else assoc k l'
  end.

#[export] Instance test_fs : FileSystem := { fs_lookup p := assoc p test_files }.

(** The host loader: [dlopen] knows the two allow-listed names, and [dlsym]
    answers [handle + 1] for [f]; IFUNC resolvers answer their address. *)
#[export] Instance test_host : Host := {
  host_dlopen nm := if bool_decide (nm = lit "libc.so.6") then 4096
                    else if bool_decide (nm = lit "ld-linux.so.2") then 8192 else 0;
  host_dlsym h nm := if bool_decide (nm = lit "f") then h + 1 else 0;
  host_ifunc a := a }.
