(* ===== verification/Examples.v ===== *)
(** * The loader run on the test images

    The test system of [Image] loaded by the model: [libA.so] at 0x10000
    with its two allow-listed dependencies, [libN.so] alone, [libD.so] with
    a dependency off the allow-list.  The runs show the findings of the
    development on concrete inputs, and the witnesses apply the general
    theorems where their hypotheses hold. *)

From Stdlib Require Import ZArith Lia String.
From stdpp Require Import base list gmap.
From S2P Require Import Prelude Memory Elf Library Hash Reloc FindSymbol Dynamic Segments Paths Chain Records Open Lazy Image.

Open Scope Z_scope.
Open Scope dl_scope.

(** ** Concrete runs *)
Definition ok_or {A} (d : A) (r : res A) : A := match r with Ok a => a | Err _ => d end.

Definition empty_state : State := mkState ∅ [] [].

Definition base0 : Z := 65536.

(** What a run shows of the chain: each record's name and search list. *)
Definition search_lists (s : State) : list (list Z * option (list slot)) :=
  (fun l => (name l, search_list l)) <$> st_libs s.

(** The chain before [mapWorker] runs on the root. *)
Abbreviation initA := (mkState ∅ [new_library (lit "/t/libA.so") (mkStream imgA 0)] []).

(** [mapLibrary] and [openLibrary] on [libA.so] and [libN.so] (abbreviations,
    so that a run is only ever evaluated by [vm_compute]). *)
Abbreviation mapA := (mapLibrary 10 ∅ (lit "/t/libA.so") base0).

Abbreviation stA := (ok_or empty_state mapA).

Abbreviation openA := (openLibrary 10 ∅ (lit "/t/libA.so") 0 base0).

Abbreviation stA' := (fst (ok_or (empty_state, 0%nat) openA)).

Abbreviation mapN := (mapLibrary 10 ∅ (lit "/t/libN.so") base0).

Abbreviation stN := (ok_or empty_state mapN).

Abbreviation libA0 := (ok_or (new_library [] (mkStream [] 0)) (lib_at stA 0)).

Abbreviation libN0 := (ok_or (new_library [] (mkStream [] 0)) (lib_at stN 0)).

(** Addresses in [libA.so] and [libN.so] as mapped at [base0]. *)
Definition strtabA : Z := base0 + strtab_off descA.

Definition symtabA : Z := base0 + symtab_off descA.

Definition relaA : Z := base0 + rela_off descA.

Definition dataA : Z := base0 + data_off descA.

Definition strtabN : Z := base0 + strtab_off descN.

Definition relaN : Z := base0 + rela_off descN.

Definition is_ok {A} (r : res A) : bool := match r with Ok _ => true | Err _ => false end.

Definition phA : Elf64_Phdr := mkPhdr PT_LOAD 7 0 0 0 576 592 4096.

(** The same segment read-only ([PF_R]), and without its [.bss]. *)
Definition phR : Elf64_Phdr := mkPhdr PT_LOAD 4 0 0 0 576 592 4096.

Definition phNoBss : Elf64_Phdr := mkPhdr PT_LOAD 7 0 0 0 576 576 4096.

(** *** The hash lookup *)
Definition hA : Z := dl_new_hash (lit "a_ver").

(** The Bloom word of [libA.so]. *)
Definition bloomA : Z := 1125899906973696.

Definition esA : list chain_entry := [mkEntry 252732531 (lit "a_ver") (base0 + 64)].

Abbreviation slA := [SlotLib 0; SlotLib 2; SlotUninit].

Abbreviation walkA := (search_walk symbolLookup slA stA (strtabA + 25)).

(** *** Lazy binding *)
Abbreviation rrA := (runtimeResolve stA 0 1).

Definition symtabN : Z := base0 + symtab_off descN.

(** *** [findSymbol] *)
Definition symsA : list sym_view := [mkSym [] 0; mkSym (lit "f") 0; mkSym (lit "a_ver") 64].

(** A dynamic array at 0x100 of a record loaded at 0x1000: [DT_SYMTAB]
    twice (the second entry wins), [DT_STRTAB], then [DT_NULL]. *)
Definition dynM : mem :=
  write_bytes ∅ 256 (encode_dyn DT_SYMTAB 16 ++ encode_dyn DT_STRTAB 32 ++ encode_dyn DT_SYMTAB 48 ++
                     encode_dyn DT_NULL 0).

Definition dynL : Library := set_dyn (set_addr (new_library (lit "libT.so") (mkStream [] 0)) 4096) 256 4.

Abbreviation fillT := (fill_info dynM dynL).

Abbreviation fillT1 := (ok_or (dynM, dynL) fillT).

Abbreviation fillT2 := (fill_info fillT1.1 fillT1.2).

(** *** The dependency loop of [libA.so] *)
(** The first [n] dynamic entries at [d], and a check that memory holds a
    list of entries. *)
Fixpoint dyn_list (m : mem) (d : Z) (n : nat) : list (Z * Z) :=
  match n with
  | O => []
  | S n' => (ok_or 0 (dyn_d_tag m d), ok_or 0 (dyn_d_un m d)) :: dyn_list m (d + 16) n'
  end.

Definition res_is (r : res Z) (v : Z) : bool := match r with Ok x => x =? v | Err _ => false end.

Fixpoint dyn_check (m : mem) (d : Z) (es : list (Z * Z)) : bool :=
  match es with
  | [] => true
  | e :: es' => res_is (dyn_d_tag m d) e.1 && res_is (dyn_d_un m d) e.2 && dyn_check m (d + 16) es'
  end.

(** Memory after [libA.so] is mapped, its dynamic array and its ten entries
    before [DT_NULL], and the chain holding only the root with a fresh
    three-slot list, as the loop starts. *)
Abbreviation mA := (st_mem stA).

Abbreviation dA := (dyn libA0).

Definition bodyA : list (Z * Z) := Eval vm_compute in dyn_list mA dA 10.

Abbreviation sNA := (set_lib (mkState mA [libA0] []) 0 (set_search_list libA0 (replicate 3 SlotUninit))).

Definition vA : Z := Eval vm_compute in match last_needed bodyA with Some v => v | None => 0 end.

(** *** An IFUNC entry of [.rela.plt] *)
(** A record loaded at 0x1000 whose [.rela.plt] entry at 0x100 is an
    [R_X86_64_IRELATIVE] for the word at offset 16 with addend 32; its
    symbol table is at 0x118. *)
Definition ifM : mem :=
  write_bytes (write_bytes ∅ 256 (encode_rela 16 R_X86_64_IRELATIVE 32 ++ encode_sym 0 0 0 0 0 0)) 4112 (replicate 8 0).

Definition ifL : Library := set_addr (new_library (lit "libI.so") (mkStream [] 0)) 4096.

Definition ifS : State := mkState ifM [ifL] [].

(** ** What the runs show *)
(** [libA.so] needs [libc.so.6] then [ld-linux.so.2]; the spec's search list
    would be [[A; libc; ld-linux; NULL]].  The record's list is
    [[A; ld-linux; uninitialised]]: both dependencies were written to slot 1. *)
Example openA_search_list :
  search_lists stA' =
    [(lit "/t/libA.so", Some [SlotLib 0; SlotLib 2; SlotUninit]);
     (lit "libc.so.6", Some [SlotLib 1]); (lit "ld-linux.so.2", Some [SlotLib 2])].
Proof. vm_compute. reflexivity. Qed.

(** Both dependencies define [f] (the host answers [4097] for [libc.so.6]
    and [8193] for [ld-linux.so.2]).  The spec says the first dependency
    wins; the word [libA.so] binds to [f] holds [ld-linux.so.2]'s. *)
Example openA_binds_last_dependency :
  load_u64 (st_mem stA') (dataA + 8) = Ok 8193 /\ load_u64 (st_mem stA') dataA = Ok (base0 + 80).
Proof. vm_compute. split; reflexivity. Qed.

(** [libN.so] imports [g], which nobody defines: the spec leaves the word
    as it is, but the search runs off its one-slot list. *)
Example openN_unresolved_overrun :
  openLibrary 10 ∅ (lit "/t/libN.so") 0 base0 = Err (Undef ArrayOverrun).
Proof. vm_compute. reflexivity. Qed.

(** [libD.so] needs [libfoo.so], which is found, but [doFakeLoad] reads
    past the end of [fake_so] for a name not on it. *)
Example openD_overrun :
  openLibrary 10 ∅ (lit "/t/libD.so") 0 base0 = Err (Undef ArrayOverrun).
Proof. vm_compute. reflexivity. Qed.

(** The two delegated libraries are mapped all the same (the spec says a
    delegated record never receives segments). *)
Example openA_maps_delegated :
  st_mmaps stA' =
    [MmapFile 0 base0 592 7 0; MmapFile 0 base0 4096 7 0;
     MmapFile 1 69632 440 7 0; MmapFile 1 69632 4096 7 0;
     MmapFile 2 73728 440 7 0; MmapFile 2 73728 4096 7 0].
Proof. vm_compute. reflexivity. Qed.

(** At a base that is not page-aligned every [MAP_FIXED] mapping fails;
    the loader does not notice and faults when it zeroes the [.bss] tail
    of a page it never mapped (the spec makes a mapping failure fatal). *)
Example unaligned_base_faults :
  mapLibrary 10 ∅ (lit "/t/libA.so") (base0 + 1) = Err (Undef (Segv (base0 + 1 + 576))).
Proof. vm_compute. reflexivity. Qed.

(** [findSymbol] does not skip undefined entries: asked for [f], which
    [libA.so] imports ([st_shndx = 0], [st_value = 0]), it answers the load
    address of [libA.so] itself instead of [NULL]. *)
Example findSymbol_undefined_is_base :
  sym_st_shndx (st_mem stA') (symtabA + 24) = Ok 0 /\ findSymbol stA' 0 (lit "f") = Ok base0.
Proof. vm_compute. split; reflexivity. Qed.
(** [findSymbol] on a delegated record scans the copy the loader mapped
    ([libc.so.6]'s [f] at [0x11000 + 256]) instead of asking the host,
    whose [dlsym] answers [4097] (the spec says find-symbol against a
    delegated library forwards to the host). *)
Example findSymbol_delegated_not_forwarded :
  findSymbol stA' 1 (lit "f") = Ok (69632 + 256) /\
  host_dlsym (host_dlopen (lit "libc.so.6")) (lit "f") = 4097.
Proof. vm_compute. split; reflexivity. Qed.

(** A root named on the allow-list is opened from the system directory,
    mapped (two mapping calls) and not delegated; [findSymbol] then
    answers [base + st_value] for its symbol [f] (spec section 8, first
    property, on this image). *)
Example open_allowlisted_root :
  option_map (fun p => (st_mmaps p.1, fake <$> st_libs p.1))
    (match openLibrary 10 ∅ (lit "libc.so.6") 0 base0 with Ok p => Some p | Err _ => None end) =
    Some ([MmapFile 0 base0 440 7 0; MmapFile 0 base0 4096 7 0], [false]) /\
  findSymbol (fst (ok_or (empty_state, 0%nat) (openLibrary 10 ∅ (lit "libc.so.6") 0 base0))) 0 (lit "f") =
    Ok (base0 + 256).
Proof. vm_compute. split; reflexivity. Qed.

(** ** Witnesses *)
Ltac vm_refl := vm_compute; reflexivity.

(** A run that succeeds equals its result; only [is_ok] is evaluated. *)
Lemma ok_or_ok {A} (d : A) (r : res A) : is_ok r = true -> r = Ok (ok_or d r).
Proof. by destruct r. Qed.

Lemma ok_or_ok_pair {A B} (d : A * B) (r : res (A * B)) :
  is_ok r = true -> r = Ok (fst (ok_or d r), snd (ok_or d r)).
Proof. by destruct r as [[]|]. Qed.

Lemma is_ok_exists {A} (r : res A) : is_ok r = true -> exists a, r = Ok a.
Proof. destruct r; [eauto | discriminate]. Qed.

Lemma dyn_check_ok m d es : dyn_check m d es = true -> dyn_entries_at m d es.
Proof.
  revert d. induction es as [|e es IH]; intros d Hc i e' Hi; [done|].
  cbn [dyn_check] in Hc. apply andb_prop in Hc as [Hc Hr]. apply andb_prop in Hc as [Ht Hu].
  destruct i as [|i].
  - injection Hi as <-. rewrite Z.add_0_r. unfold res_is in Ht, Hu.
    destruct (dyn_d_tag m d), (dyn_d_un m d); try discriminate. apply Z.eqb_eq in Ht, Hu. by subst.
  - destruct (IH _ Hr i e' Hi) as [H1 H2]. replace (d + 16 * Z.of_nat (S i)) with (d + 16 + 16 * Z.of_nat i) by lia.
    done.
Qed.

Lemma Forall_not_null (es : list (Z * Z)) :
  forallb (fun e => negb (e.1 =? DT_NULL)) es = true -> Forall (fun e => e.1 <> DT_NULL) es.
Proof.
  intros H. apply Forall_forall. intros e He%list_elem_of_In.
  apply (proj1 (forallb_forall _ _) H), negb_true_iff, Z.eqb_neq in He. done.
Qed.

(** [forall k x, l !! k = Some x -> P k x] for a concrete list [l]. *)
Ltac solve_indexed tac :=
  let k := fresh "k" in let x := fresh "x" in let Hk := fresh "Hk" in
  intros k x Hk;
  repeat (destruct k as [|k]; cbn in Hk; [injection Hk as <-; tac|]);
  cbn in Hk; discriminate.

Lemma mapWorker_no_terminator_witness :
  exists s' n, mapWorker initA 0 base0 = Ok (s', n) /\
    exists l sl, lib_at s' 0 = Ok l /\ search_list l = Some sl /\ sl !! 0%nat = Some (SlotLib 0) /\
      SlotNull ∉ sl /\ forall i, (2 <= i < length sl)%nat -> sl !! i = Some SlotUninit.
Proof.
  assert (Hok : is_ok (mapWorker initA 0 base0) = true) by vm_refl.
  destruct (is_ok_exists _ Hok) as [[s' n] E].
  exists s', n. split; [exact E|]. exact (mapWorker_no_terminator _ _ _ _ _ E).
Defined.

Lemma bind_symbol_miss_witness :
  mapLibrary 10 ∅ (lit "/t/libN.so") base0 = Ok stN /\ lib_at stN 0 = Ok libN0 /\
  exists u, bind_symbol stN 0 relaN (strtabN + 1) = Err (Undef u).
Proof.
  assert (Hok : is_ok mapN = true) by vm_refl. pose proof (ok_or_ok empty_state _ Hok) as Hm.
  assert (Hok1 : is_ok (lib_at stN 0) = true) by vm_refl.
  pose proof (ok_or_ok (new_library [] (mkStream [] 0)) _ Hok1) as Hl.
  assert (Hsl : search_list libN0 = Some [SlotLib 0]) by vm_refl.
  split_and!; [exact Hm | exact Hl |].
  apply (bind_symbol_miss 10 ∅ (lit "/t/libN.so") base0 stN 0 libN0 relaN (strtabN + 1) stN Hm Hl).
  - eapply symbolLookup_local; [exact Hl | vm_refl | vm_refl].
  - intros sl j Hs Hj. rewrite Hsl in Hs. injection Hs as <-. discriminate.
Defined.

Lemma openLibrary_layout_witness :
  exists s h, openLibrary 10 ∅ (lit "/t/libA.so") 0 base0 = Ok (s, h) /\
  h = 0%nat /\ (exists l, lib_at s 0 = Ok l /\ addr l = base0 /\ name l = lit "/t/libA.so") /\
  (forall i l l', lib_at s i = Ok l -> lib_at s (S i) = Ok l' ->
     exists d n, s_data <$> fs l = Some d /\ image_span d = Some n /\ addr l' = wrap64 (addr l + n)) /\
  (forall i l, lib_at s i = Ok l ->
     exists k x, x <> SlotNull /\ search_list l = Some (SlotLib i :: dep_slots k x)) /\
  (forall i l, (1 <= i)%nat -> lib_at s i = Ok l -> fake l = true /\ name l ∈ allow_list).
Proof.
  assert (Hok : is_ok (openLibrary 10 ∅ (lit "/t/libA.so") 0 base0) = true) by vm_refl.
  destruct (is_ok_exists _ Hok) as [[s h] E].
  exists s, h. split; [exact E|]. exact (openLibrary_layout _ _ _ _ _ _ _ E).
Defined.

Lemma mapLibrary_aligned_witness :
  base0 mod 4096 = 0 /\ mapLibrary 10 ∅ (lit "/t/libA.so") base0 = Ok stA /\
  addr (ok_or libA0 (lib_at stA 2)) mod 4096 = 0.
Proof.
  assert (Hok : is_ok mapA = true) by vm_refl. pose proof (ok_or_ok empty_state _ Hok) as Hm.
  split_and!; [vm_refl | exact Hm |].
  assert (Hok2 : is_ok (lib_at stA 2) = true) by vm_refl.
  exact (mapLibrary_aligned 10 ∅ (lit "/t/libA.so") base0 stA eq_refl Hm 2%nat _ (ok_or_ok _ _ Hok2)).
Defined.

Lemma openFile_spec_witness :
  has_slash (lit "libc.so.6") = false /\
  openFile (lit "libc.so.6") =
    match first_open [lit "/usr/lib/x86_64-linux-gnu/" ++ lit "libc.so.6";
                      lit "/lib/x86_64-linux-gnu/" ++ lit "libc.so.6"; lit "libc.so.6"] with
    | Some f => Ok (Some f)
    | None => Err (Undef ArrayOverrun)
    end.
Proof. split; [vm_refl|]. apply openFile_spec; [vm_refl | cbn; lia]. Defined.

Lemma openFile_overflow_witness :
  has_slash (replicate 102 97) = false /\ openFile (replicate 102 97) = Err (Undef BufferOverflow).
Proof. split; [vm_refl|]. apply openFile_overflow; [vm_refl | rewrite length_replicate; lia]. Defined.

Lemma openDep_spec_witness :
  strtok_tokens 58 (lit "/t:/x") = [lit "/t"; lit "/x"] /\
  openDep (lit "libc.so.6") (Some (lit "/t:/x")) =
    match first_open ((fun p => p ++ lit "/" ++ lit "libc.so.6") <$> strtok_tokens 58 (lit "/t:/x")) with
    | Some f => Ok (Some f)
    | None => openFile (lit "libc.so.6")
    end.
Proof.
  split; [vm_refl|]. apply openDep_spec.
  change (strtok_tokens 58 (lit "/t:/x")) with [lit "/t"; lit "/x"]. repeat constructor; cbn; lia.
Defined.

Lemma prot_of_bits_witness : 0 <= 0 /\ Z.testbit (prot_of 5) 0 = Z.testbit 5 2.
Proof. split; [lia|]. apply (prot_of_bits 5 0). lia. Defined.

Lemma map_one_loads_witness :
  exists s', map_one 0 imgA base0 initA (loadcmd_of phA) = Ok s' /\
    (forall x, 0 <= x < 576 -> st_mem s' !! (base0 + x) = Some (nth (Z.to_nat (0 + (x - 0))) imgA 0)) /\
    (forall x, 576 <= x < 592 -> st_mem s' !! (base0 + x) = Some 0).
Proof.
  apply (map_one_loads 0 imgA base0 initA phA); unfold base0, phA; cbn [p_vaddr p_offset p_filesz p_memsz p_flags];
    first [reflexivity | lia | apply Z.leb_le; vm_refl | intros; reflexivity].
Defined.

Lemma map_one_readonly_bss_witness :
  map_one 0 imgA base0 initA (loadcmd_of phR) = Err (Undef (Segv (base0 + (0 + 576)))).
Proof.
  apply (map_one_readonly_bss 0 imgA base0 initA phR); unfold base0, phR;
    cbn [p_vaddr p_offset p_filesz p_memsz p_flags]; first [reflexivity | lia | discriminate].
Defined.

Lemma mapSegment_unaligned_witness :
  exists s' n, mapSegment initA 0 [phNoBss] (base0 + 1) = Ok (s', n) /\
    forall x, st_mem s' !! x = st_mem initA !! x \/ st_mem s' !! x = Some 0.
Proof.
  assert (Hok : is_ok (mapSegment initA 0 [phNoBss] (base0 + 1)) = true) by vm_refl.
  destruct (is_ok_exists _ Hok) as [[s' n] E].
  exists s', n. split; [exact E|]. exact (mapSegment_unaligned initA 0 [phNoBss] (base0 + 1) s' n ltac:(intros H; vm_compute in H; discriminate) E).
Defined.

Lemma mapSegment_never_exits_witness :
  mapSegment initA 0 [] base0 = Err (Undef NoLoadSegment) /\ exists u, Undef NoLoadSegment = Undef u.
Proof. split; [vm_refl|]. apply (mapSegment_never_exits initA 0 [] base0). vm_refl. Defined.

Lemma mapSegment_size_witness :
  exists s' n, mapSegment initA 0 [phA] base0 = Ok (s', n) /\ 0 <= n /\ n mod 4096 = 0.
Proof.
  assert (Hok : is_ok (mapSegment initA 0 [phA] base0) = true) by vm_refl.
  destruct (is_ok_exists _ Hok) as [[s' n] E].
  exists s', n. split; [exact E|]. exact (mapSegment_size _ _ _ _ _ _ E).
Defined.

Lemma chain_walk_refines_witness :
  chain_walk 1 (st_mem stA) libA0 symtabA strtabA hA (lit "a_ver") 2 = Ok (chain_find hA (lit "a_ver") esA).
Proof.
  apply chain_walk_refines.
  - apply (bool_decide_unpack _). vm_refl.
  - solve_indexed ltac:(cbv zeta; split; [vm_refl | exists 27, 64; split_and!; vm_refl]).
  - exists (mkEntry 252732531 (lit "a_ver") (base0 + 64)). split; [reflexivity | vm_compute; discriminate].
  - cbn. lia.
Defined.

Lemma gnu_lookup_sound_witness :
  exists symtab strtab nm j sn v,
    dyn_ptr (st_mem stA) libA0 DT_SYMTAB = Ok symtab /\ dyn_ptr (st_mem stA) libA0 DT_STRTAB = Ok strtab /\
    strdup (st_mem stA) (strtabA + 27) = Ok nm /\ sym_st_name (st_mem stA) (symtab + 24 * j) = Ok sn /\
    read_cstr_fuel (S (length nm)) (st_mem stA) (strtab + sn) = Ok nm /\
    sym_st_value (st_mem stA) (symtab + 24 * j) = Ok v /\ base0 + 64 = wrap64 (v + addr libA0).
Proof.
  apply gnu_lookup_sound.
  - change (map_Forall (fun _ b => 0 <= b < 256) (st_mem stA)). apply (bool_decide_unpack _). vm_refl.
  - vm_refl.
  - vm_compute. discriminate.
Defined.

Lemma gnu_lookup_bloom_witness :
  gnu_lookup (st_mem stA) libA0 (strtabA + 25) =
    if Z.testbit bloomA (dl_new_hash (lit "f") mod 64) &&
       Z.testbit bloomA ((dl_new_hash (lit "f") / 2 ^ l_gnu_shift libA0) mod 64)
    then gnu_bucket (st_mem stA) libA0 symtabA strtabA (lit "f") (dl_new_hash (lit "f")) else Ok 0.
Proof.
  apply (gnu_lookup_bloom (st_mem stA) libA0 (strtabA + 25) symtabA strtabA (lit "f") 0 bloomA);
    first [vm_refl | lia | split; [apply Z.leb_le | apply Z.ltb_lt]; vm_refl].
Defined.

Lemma symbolLookup_fake_witness :
  symbolLookup stA 1 (strtabA + 25) =
    Ok (set_lib stA 1 (set_fake_handle (ok_or libA0 (lib_at stA 1)) (host_dlopen (name (ok_or libA0 (lib_at stA 1))))),
        host_dlsym (host_dlopen (name (ok_or libA0 (lib_at stA 1)))) (lit "f")).
Proof.
  assert (Hok : is_ok (lib_at stA 1) = true) by vm_refl.
  apply symbolLookup_fake; [exact (ok_or_ok _ _ Hok) | vm_refl | vm_compute; discriminate | vm_refl].
Defined.

(** *** Relocation *)
Lemma search_walk_unterminated_witness :
  search_walk symbolLookup (SlotLib <$> [0%nat]) stN (strtabN + 1) =
    if first_hit ((fun _ => 0) <$> [0%nat]) =? 0 then Err (Undef ArrayOverrun)
    else Ok (stN, first_hit ((fun _ => 0) <$> [0%nat])).
Proof.
  assert (Hok : is_ok (lib_at stN 0) = true) by vm_refl.
  apply (search_walk_unterminated symbolLookup stN (strtabN + 1) [0%nat] (fun _ => 0)).
  constructor; [|constructor].
  eapply symbolLookup_local; [exact (ok_or_ok (new_library [] (mkStream [] 0)) _ Hok) | vm_refl | vm_refl].
Defined.

Lemma reloc_relatives_spec_witness :
  lib_at stA 0 = Ok libA0 /\
  reloc_relatives stA 0 relaA (relaA + 24 * Z.of_nat (length [(544, 80)])) =
    Ok (ok_or stA (reloc_relatives stA 0 relaA (relaA + 24 * Z.of_nat (length [(544, 80)])))) /\
  load_u64 (st_mem (ok_or stA (reloc_relatives stA 0 relaA (relaA + 24 * Z.of_nat (length [(544, 80)])))))
    (rel_target (addr libA0) (544, 80)) = Ok (wrap64 (addr libA0 + 80)).
Proof.
  assert (Hok : is_ok (lib_at stA 0) = true) by vm_refl.
  pose proof (ok_or_ok (new_library [] (mkStream [] 0)) _ Hok) as Hl.
  assert (Hok2 : is_ok (reloc_relatives stA 0 relaA (relaA + 24 * Z.of_nat (length [(544, 80)]))) = true)
    by vm_refl.
  pose proof (ok_or_ok stA _ Hok2) as Hr.
  split_and!; [exact Hl | exact Hr |].
  refine (reloc_relatives_spec stA 0 libA0 relaA [(544, 80)] _ Hl _ _ _ Hr 0%nat _ eq_refl).
  - intros k e Hk. destruct k as [|k]; [injection Hk as <-; split; vm_refl | by destruct k].
  - intros k e Hk. destruct k as [|k]; [injection Hk as <- | by destruct k].
    right. apply Z.leb_le. vm_refl.
  - intros k k' e e' Hne Hk Hk'. exfalso.
    destruct k as [|[]]; [|discriminate..]; destruct k' as [|[]]; [congruence|discriminate..].
Defined.

Lemma bind_symbol_hit_witness :
  load_u64 (st_mem (ok_or stA (bind_symbol stA 0 (relaA + 24) (strtabA + 25)))) (wrap64 (addr libA0 + 552)) =
    Ok (wrap64 (snd (ok_or (stA, 0) walkA) + 0)).
Proof.
  assert (Hok : is_ok (lib_at stA 0) = true) by vm_refl.
  assert (Hok2 : is_ok walkA = true) by vm_refl.
  assert (Hok3 : is_ok (bind_symbol stA 0 (relaA + 24) (strtabA + 25)) = true) by vm_refl.
  eapply (bind_symbol_hit stA 0 (relaA + 24) (strtabA + 25) libA0 slA).
  - exact (ok_or_ok _ _ Hok).
  - vm_refl.
  - exact (ok_or_ok_pair _ _ Hok2).
  - vm_compute. discriminate.
  - vm_refl.
  - vm_refl.
  - exact (ok_or_ok _ _ Hok3).
Defined.

Lemma runtimeResolve_patches_witness :
  exists strtab symtab plt_start nm sl s1 r off ad,
    dyn_ptr (st_mem stA) libA0 DT_STRTAB = Ok strtab /\
    dyn_ptr (st_mem stA) libA0 DT_SYMTAB = Ok symtab /\
    dyn_ptr (st_mem stA) libA0 DT_JMPREL = Ok plt_start /\
    rela_name (st_mem stA) (plt_start + 24 * wrap32 1) symtab strtab = Ok nm /\
    search_list libA0 = Some sl /\
    search_walk symbolLookup sl stA nm = Ok (s1, r) /\ r <> 0 /\
    rela_r_offset (st_mem s1) (plt_start + 24 * wrap32 1) = Ok off /\
    rela_r_addend (st_mem s1) (plt_start + 24 * wrap32 1) = Ok ad /\
    load_u64 (st_mem (fst (ok_or (stA, 0) rrA))) (wrap64 (addr libA0 + off)) = Ok (wrap64 (r + ad)) /\
    (wrap64 (addr libA0 + off) + 8 <= plt_start + 24 * wrap32 1 + 16 \/
     plt_start + 24 * wrap32 1 + 24 <= wrap64 (addr libA0 + off) -> snd (ok_or (stA, 0) rrA) = wrap64 (r + ad)).
Proof.
  assert (Hok : is_ok (lib_at stA 0) = true) by vm_refl.
  assert (Hok2 : is_ok rrA = true) by vm_refl.
  exact (runtimeResolve_patches stA 0 1 libA0 _ _ (ok_or_ok _ _ Hok) (ok_or_ok_pair _ _ Hok2)).
Defined.

Abbreviation libA0' := (ok_or (new_library [] (mkStream [] 0)) (lib_at stA' 0)).

Lemma runtimeResolve_miss_witness :
  openLibrary 10 ∅ (lit "/t/libA.so") 0 base0 = Ok (stA', snd (ok_or (empty_state, 0%nat) openA)) /\
  lib_at stA' 0 = Ok libA0' /\ exists u, runtimeResolve stA' 0 0 = Err (Undef u).
Proof.
  assert (Hok : is_ok openA = true) by vm_refl. pose proof (ok_or_ok_pair (empty_state, 0%nat) _ Hok) as E.
  assert (Hok1 : is_ok (lib_at stA' 0) = true) by vm_refl.
  pose proof (ok_or_ok (new_library [] (mkStream [] 0)) _ Hok1) as Hl.
  split_and!; [exact E | exact Hl |].
  apply (runtimeResolve_miss 10 ∅ (lit "/t/libA.so") 0 base0 stA' _ 0 0 libA0' strtabA symtabA relaA strtabA stA' E Hl);
    [vm_refl | vm_refl | vm_refl | vm_refl | eapply symbolLookup_local; [exact Hl | vm_refl | vm_refl] |].
  intros sl j Hs Hj.
  assert (Hsl : search_list libA0' = Some [SlotLib 0; SlotLib 2; SlotUninit]) by vm_refl.
  rewrite Hsl in Hs. injection Hs as <-. injection Hj as <-.
  assert (Hok2 : is_ok (symbolLookup stA' 2 strtabA) = true) by vm_refl.
  exists (fst (ok_or (stA', 0) (symbolLookup stA' 2 strtabA))).
  assert (Hz : snd (ok_or (stA', 0) (symbolLookup stA' 2 strtabA)) = 0) by vm_refl.
  rewrite (ok_or_ok_pair (stA', 0) _ Hok2) at 1. by rewrite Hz.
Defined.

Lemma findSymbol_spec_witness :
  findSymbol stA 0 (lit "a_ver") = Ok (find_first (addr libA0) (lit "a_ver") symsA).
Proof.
  assert (Hok : is_ok (lib_at stA 0) = true) by vm_refl.
  apply (findSymbol_spec stA 0 libA0 symtabA strtabA).
  - apply (bool_decide_unpack _). vm_refl.
  - exact (ok_or_ok _ _ Hok).
  - vm_refl.
  - vm_refl.
  - vm_refl.
  - intros i e Hi. destruct i as [|[|[|i]]]; cbn in Hi; [..|by destruct i];
      injection Hi as <-; [exists 0 | exists 25 | exists 27]; (split; [vm_refl | split; vm_refl]).
Defined.

Lemma dynT_decodes : dyn_decodes dynM (dyn dynL) [6; 5; 6].
Proof. split; [solve_indexed ltac:(split; [vm_refl | lia]) | vm_refl]. Qed.

Lemma fillT_ok : fill_info dynM dynL = Ok (fillT1.1, fillT1.2).
Proof. apply ok_or_ok_pair. vm_refl. Qed.

Lemma fill_info_last_wins_witness :
  nth 6 (dyn_info fillT1.2) 0 = match last_hit 6 (dyn dynL) [6; 5; 6] with Some q => q | None => 0 end /\
  nth 6 (dyn_info fillT1.2) 0 = 288.
Proof.
  split; [exact (fill_info_last_wins dynM dynL [6; 5; 6] _ _ 6 eq_refl dynT_decodes fillT_ok ltac:(lia)) | vm_refl].
Defined.

Lemma fill_info_rebases_witness :
  exists v, dyn_d_un dynM (dyn_slot fillT1.2 DT_SYMTAB) = Ok v /\
            dyn_d_un fillT1.1 (dyn_slot fillT1.2 DT_SYMTAB) = Ok (wrap64 (v + addr dynL)).
Proof.
  apply (fill_info_rebases dynM dynL [6; 5; 6] _ _ DT_SYMTAB eq_refl dynT_decodes fillT_ok);
    [apply (bool_decide_unpack _); vm_refl | by vm_compute].
Defined.

Lemma fill_info_twice_witness :
  exists v, dyn_d_un dynM (dyn_slot fillT1.2 DT_SYMTAB) = Ok v /\
            dyn_d_un (ok_or fillT1 fillT2).1 (dyn_slot fillT1.2 DT_SYMTAB) = Ok (wrap64 (v + 2 * addr dynL)).
Proof.
  assert (Hok : is_ok fillT2 = true) by vm_refl.
  apply (fill_info_twice dynM dynL [6; 5; 6] _ _ (ok_or fillT1 fillT2).1 (ok_or fillT1 fillT2).2 DT_SYMTAB eq_refl
           dynT_decodes fillT_ok (ok_or_ok_pair _ _ Hok));
    [apply (bool_decide_unpack _); vm_refl | by vm_compute].
Defined.

Lemma mapLibrary_deps_delegated_witness :
  mapLibrary 10 ∅ (lit "/t/libA.so") base0 = Ok stA /\
  lib_at stA 1 = Ok (ok_or libA0 (lib_at stA 1)) /\
  ((1%nat = 0%nat /\ fake (ok_or libA0 (lib_at stA 1)) = false /\
      name (ok_or libA0 (lib_at stA 1)) = lit "/t/libA.so") \/
   ((1 <= 1)%nat /\ fake (ok_or libA0 (lib_at stA 1)) = true /\
      name (ok_or libA0 (lib_at stA 1)) ∈ allow_list)).
Proof.
  assert (Hok : is_ok mapA = true) by vm_refl. pose proof (ok_or_ok empty_state _ Hok) as Hm.
  assert (Hok1 : is_ok (lib_at stA 1) = true) by vm_refl. pose proof (ok_or_ok libA0 _ Hok1) as Hl.
  split_and!; [exact Hm | exact Hl | exact (mapLibrary_deps_delegated _ _ _ _ _ Hm 1 _ Hl)].
Defined.


Lemma mapLibrary_maps_every_record_witness :
  mapLibrary 10 ∅ (lit "/t/libA.so") base0 = Ok stA /\
  lib_at stA 1 = Ok (ok_or libA0 (lib_at stA 1)) /\
  exists len pr off, MmapFile 1 (addr (ok_or libA0 (lib_at stA 1))) len pr off ∈ st_mmaps stA.
Proof.
  assert (Hok : is_ok mapA = true) by vm_refl. pose proof (ok_or_ok empty_state _ Hok) as Hm.
  assert (Hok1 : is_ok (lib_at stA 1) = true) by vm_refl. pose proof (ok_or_ok libA0 _ Hok1) as Hl.
  split_and!; [exact Hm | exact Hl | exact (mapLibrary_maps_every_record _ _ _ _ _ Hm 1 _ Hl)].
Defined.

Lemma needed_loop_last_wins_witness :
  exists s', needed_loop mA strtabA None 0 2 dA sNA = Ok s' /\
    exists l j l', lib_at s' 0 = Ok l /\ (exists sl, search_list l = Some sl /\ sl !! 1%nat = Some (SlotLib j)) /\
      lib_at s' j = Ok l' /\ name l' = lit "ld-linux.so.2".
Proof.
  assert (Hok : is_ok (needed_loop mA strtabA None 0 2 dA sNA) = true) by vm_refl.
  destruct (is_ok_exists _ Hok) as [s' E]. exists s'. split; [exact E|].
  apply (needed_loop_last_wins mA strtabA None 0 2 dA sNA s' bodyA 0 vA (lit "ld-linux.so.2"));
    [lia | apply dyn_check_ok; vm_refl | apply Forall_not_null; vm_refl | vm_refl | vm_refl | exact E].
Defined.

Lemma reloc_plt_ifunc_witness :
  exists s', reloc_plt_entry ifS 0 256 280 0 = Ok s' /\
    load_u64 (st_mem s') (wrap64 (addr ifL + 16)) = Ok (wrap64 (host_ifunc (wrap64 (addr ifL + 32)))) /\
    st_libs s' = st_libs ifS.
Proof.
  assert (Hok : is_ok (reloc_plt_entry ifS 0 256 280 0) = true) by vm_refl.
  destruct (is_ok_exists _ Hok) as [s' E]. exists s'. split; [exact E|].
  exact (reloc_plt_ifunc ifS 0 256 280 0 ifL R_X86_64_IRELATIVE 32 16 s' ltac:(vm_refl) ltac:(vm_refl)
           ltac:(vm_refl) ltac:(vm_refl) ltac:(vm_refl) E).
Defined.
